(** * Auto-fix RAG pipeline ([src/lib/rag-system.ts]): a shallow embedding

    The development follows the TypeScript classes [AutoFixRAGSystem] and
    [AutoFixRAGService]:

    - [JsString] and [JsNumber]: the fragments of JavaScript strings and
      numbers the confidence heuristic uses;
    - the confidence scorer [calculateConfidence], and the scorer as the
      specification words it;
    - [Env]: the external collaborators (Qdrant client, embedding model,
      LangChain vector store and chains, chat model) as a store, an oracle
      and a fault script;
    - the state of the service, the state-and-exception monad of its async
      methods, and the methods of the two classes;
    - the vocabulary of the statements, then the properties: strings,
      numbers, the scorer, the calls a method makes, collection
      initialization, the service life cycle, retrieval, ingestion and the
      streamed fragments. *)

From Stdlib Require Import String Ascii List QArith Qcanon Lia Lqa Bool.
From stdpp Require Import gmap strings.
Import ListNotations.

(** ** JavaScript strings

    A string is a sequence of code units; the model keeps the 8-bit ones
    ([Ascii.ascii], the code points of Latin-1).  Among these
    [toLowerCase] maps [A-Z] to [a-z] and the capital letters 192 to 222
    (all but the multiplication sign, 215) to the small letters 224 to
    254, 32 places further in both cases; every other code unit is left
    as it is. *)
Module JsString.

Definition is_upper (c : ascii) : bool :=
  let n := nat_of_ascii c in
  ((65 <=? n)%nat && (n <=? 90)%nat)
  || ((192 <=? n)%nat && (n <=? 222)%nat && negb (n =? 215)%nat).

Definition lower_ascii (c : ascii) : ascii :=
  if is_upper c then ascii_of_nat (nat_of_ascii c + 32) else c.

(** [String.prototype.toLowerCase]. *)
Fixpoint toLowerCase (s : string) : string :=
  match s with
  | EmptyString => EmptyString
  | String c s' => String (lower_ascii c) (toLowerCase s')
  end.

(** [s.includes(sub)]: [sub] occurs in [s] as a contiguous substring. *)
Fixpoint includes (s sub : string) : bool :=
  String.prefix sub s ||
  match s with
  | EmptyString => false
  | String _ s' => includes s' sub
  end.

(** [s.split(sep)] for a one-character separator: every occurrence of the
    separator ends a piece, so [n] separators give [n + 1] pieces, some of
    them possibly empty. *)
Fixpoint split (sep : ascii) (s : string) : list string :=
  match s with
  | EmptyString => [EmptyString]
  | String c s' =>
      if Ascii.eqb c sep then EmptyString :: split sep s'
      else match split sep s' with
           | [] => [String c EmptyString]
           | w :: ws => String c w :: ws
           end
  end.

(** The characters [String.prototype.trim] and the regular expression
    class [\s] treat as white space, among the 8-bit code units. *)
Definition is_whitespace (c : ascii) : bool :=
  let n := nat_of_ascii c in
  (n =? 32)%nat || ((9 <=? n)%nat && (n <=? 13)%nat) || (n =? 160)%nat.

Fixpoint all_whitespace (s : string) : bool :=
  match s with
  | EmptyString => true
  | String c s' => is_whitespace c && all_whitespace s'
  end.

(** [!text || text.trim().length === 0]. *)
Definition is_blank (text : string) : bool := all_whitespace text.

(** Splitting on runs of white space (no empty piece is produced). *)
Fixpoint whitespace_split_aux (cur : string) (s : string) : list string :=
  let flush := match cur with EmptyString => [] | _ => [cur] end in
  match s with
  | EmptyString => flush
  | String c s' =>
      if is_whitespace c then flush ++ whitespace_split_aux EmptyString s'
      else whitespace_split_aux (cur +:+ String c EmptyString) s'
  end.

Definition whitespace_split (s : string) : list string :=
  whitespace_split_aux EmptyString s.

End JsString.

(** ** JavaScript numbers

    A number is a rational, an infinity or [NaN].  Arithmetic on the finite
    values is exact: the rounding of IEEE doubles and the sign of zero are
    not modelled.  Division by zero and the propagation of [NaN] are. *)
Module JsNumber.

Inductive number : Type :=
| Fin (q : Qc)
| PosInf
| NegInf
| NaN.

Definition nat_Qc (n : nat) : Qc := Q2Qc (inject_Z (Z.of_nat n)).

(** A length or a count, read as a number. *)
Definition of_nat (n : nat) : number := Fin (nat_Qc n).

Definition dec (n : Z) (d : positive) : number := Fin (Q2Qc (n # d)).

Definition add (x y : number) : number :=
  match x, y with
  | NaN, _ | _, NaN => NaN
  | PosInf, NegInf | NegInf, PosInf => NaN
  | PosInf, _ | _, PosInf => PosInf
  | NegInf, _ | _, NegInf => NegInf
  | Fin a, Fin b => Fin (a + b)%Qc
  end.

(** Sign of a finite value, as a comparison with zero. *)
Definition sgn (a : Qc) : comparison := (a ?= 0)%Qc.

Definition signed_inf (positive_sign : bool) : number :=
  if positive_sign then PosInf else NegInf.

Definition mul_inf (positive_inf : bool) (s : comparison) : number :=
  match s with
  | Eq => NaN
  | Gt => signed_inf positive_inf
  | Lt => signed_inf (negb positive_inf)
  end.

Definition mul (x y : number) : number :=
  match x, y with
  | NaN, _ | _, NaN => NaN
  | Fin a, Fin b => Fin (a * b)%Qc
  | PosInf, Fin b => mul_inf true (sgn b)
  | NegInf, Fin b => mul_inf false (sgn b)
  | Fin a, PosInf => mul_inf true (sgn a)
  | Fin a, NegInf => mul_inf false (sgn a)
  | PosInf, PosInf | NegInf, NegInf => PosInf
  | PosInf, NegInf | NegInf, PosInf => NegInf
  end.

Definition div (x y : number) : number :=
  match x, y with
  | NaN, _ | _, NaN => NaN
  | Fin a, Fin b =>
      match sgn b with
      | Eq => mul_inf true (sgn a)
      | _ => Fin (a / b)%Qc
      end
  | Fin _, (PosInf | NegInf) => Fin 0%Qc
  | (PosInf | NegInf), (PosInf | NegInf) => NaN
  | PosInf, Fin b => match sgn b with Lt => NegInf | _ => PosInf end
  | NegInf, Fin b => match sgn b with Lt => PosInf | _ => NegInf end
  end.

(** [Math.min] on two arguments: [NaN] if either is. *)
Definition Math_min (x y : number) : number :=
  match x, y with
  | NaN, _ | _, NaN => NaN
  | NegInf, _ | _, NegInf => NegInf
  | PosInf, z | z, PosInf => z
  | Fin a, Fin b => match (a ?= b)%Qc with Gt => Fin b | _ => Fin a end
  end.

(** [x <= y] and [x < y] as JavaScript evaluates them: false as soon as an
    operand is [NaN]. *)
Definition le (x y : number) : Prop :=
  match x, y with
  | NaN, _ | _, NaN => False
  | NegInf, _ | _, PosInf => True
  | Fin a, Fin b => (a <= b)%Qc
  | _, _ => False
  end.

Definition lt (x y : number) : Prop :=
  match x, y with
  | NaN, _ | _, NaN => False
  | NegInf, NegInf | PosInf, PosInf => False
  | NegInf, _ | _, PosInf => True
  | Fin a, Fin b => (a < b)%Qc
  | _, _ => False
  end.

End JsNumber.

Import JsString JsNumber.

(** ** Documents and the confidence scorer *)

(** [Document] of LangChain: the text of a chunk and its metadata, an
    object used as a map from keys to strings and numbers. *)
Inductive MetaValue : Type :=
| MetaString (s : string)
| MetaNumber (n : nat).

Record Document : Type := mkDocument {
  pageContent : string;
  metadata : gmap string MetaValue
}.

(** [question.toLowerCase().split(' ').filter(word => word.length > 3)]. *)
Definition questionWords (question : string) : list string :=
  List.filter (fun word => (3 <? String.length word)%nat)
              (split " " (toLowerCase question)).

(** The body of the loop of [calculateConfidence]: the value of [docScore]
    when it is added to [totalScore]. *)
Definition docScore (question : string) (doc : Document) : number :=
  let content := toLowerCase (pageContent doc) in
  let score0 := of_nat 0 in
  let score1 :=
    if includes content (toLowerCase question)
    then add score0 (dec 4 10) else score0 in
  let matchedWords :=
    List.filter (fun word => includes content word) (questionWords question) in
  let score2 :=
    add score1
        (mul (div (of_nat (length matchedWords))
                  (of_nat (length (questionWords question))))
             (dec 3 10)) in
  if (200 <? String.length (pageContent doc))%nat
  then add score2 (dec 1 10) else score2.

(** [calculateConfidence(question, docs)]. *)
Definition calculateConfidence (question : string) (docs : list Document) : number :=
  if (length docs =? 0)%nat then of_nat 0
  else
    let totalScore :=
      List.fold_left (fun total doc => add total (docScore question doc))
                     docs (of_nat 0) in
    Math_min (div totalScore (of_nat (length docs))) (of_nat 1).


(** *** The scorer as the specification words it

    The per-chunk score as one sum of three terms, and the confidence as
    the clamped average of the per-chunk scores.  What a question word is
    depends on [tokens], the way the lowercased question is cut. *)
Definition spec_question_words (tokens : string -> list string)
    (question : string) : list string :=
  List.filter (fun word => (3 <? String.length word)%nat)
              (tokens (toLowerCase question)).

Definition spec_chunk_score (tokens : string -> list string)
    (question : string) (chunk : Document) : number :=
  let content := toLowerCase (pageContent chunk) in
  let words := spec_question_words tokens question in
  let matched := List.filter (fun word => includes content word) words in
  add (add (if includes content (toLowerCase question) then dec 4 10 else of_nat 0)
           (mul (dec 3 10) (div (of_nat (length matched)) (of_nat (length words)))))
      (if (200 <? String.length (pageContent chunk))%nat then dec 1 10 else of_nat 0).

Fixpoint sum (xs : list number) : number :=
  match xs with
  | [] => of_nat 0
  | x :: rest => add x (sum rest)
  end.

Definition spec_confidence (tokens : string -> list string)
    (question : string) (chunks : list Document) : number :=
  Math_min (div (sum (map (spec_chunk_score tokens question) chunks))
                (of_nat (length chunks)))
           (of_nat 1).

(** The quotient of two lengths, when the divisor is not zero. *)
Definition ratio (m n : nat) : Qc := (nat_Qc m / nat_Qc n)%Qc.

(** ** The environment

    Everything the two classes reach through a library handle: the Qdrant
    client, the embedding model, the LangChain vector store and chains, the
    chat model, the text splitter, [uuidv4] and the clock.  The store keeps
    its collections; what the models and searches answer is given by an
    [Oracle]; failures are injected by a fault script, one entry per call. *)
Module Env.

(** A thrown value: an [Error] object with its message, or anything else,
    kept as its string form. *)
Inductive exn : Type :=
| Error (message : string)
| Thrown (value : string).

(** [String(error)], also what a template literal interpolates. *)
Definition exn_toString (e : exn) : string :=
  match e with
  | Error message => "Error: " +:+ message
  | Thrown value => value
  end.

(** [error instanceof Error && error.message.includes(needle)]. *)
Definition error_message_includes (e : exn) (needle : string) : bool :=
  match e with
  | Error message => includes message needle
  | Thrown _ => false
  end.

Definition Vector : Type := list number.

(** The payload of a stored point, as the direct query reads it. *)
Record Payload : Type := mkPayload {
  payload_pageContent : option string;
  payload_metadata : option (gmap string MetaValue)
}.

Record Point : Type := mkPoint { payload : option Payload }.

(** An element of a content array: an object with a [type] tag. *)
Inductive ContentPart : Type :=
| ContentObject (type : string) (text : string).

(** [MessageContent] of an [AIMessage] or [AIMessageChunk]: a string or an
    array of content objects; [ContentMissing] stands for [undefined]. *)
Inductive MessageContent : Type :=
| ContentString (s : string)
| ContentParts (parts : list ContentPart)
| ContentMissing.

(** A collection of the store: the [size] of its vectors configuration
    (absent when the collection has named vectors) and its points. *)
Record Collection : Type := mkCollection {
  vectors_size : option nat;
  points : list Document
}.

(** What [getCollection] reports. *)
Record CollectionInfo : Type := mkCollectionInfo {
  points_count : option nat;
  vectors_count : option nat;
  config_vectors_size : option nat
}.

Inductive Call : Type :=
| ClusterStatus
| EmbedQuery (text : string)
| GetCollections
| GetCollection (name : string)
| DeleteCollection (name : string)
| CreateCollection (name : string) (size : nat)
| QdrantQuery (name : string) (vector : Vector) (limit : nat)
| AddDocuments (name : string) (docs : list Document)
| SimilaritySearch (name : string) (question : string) (k : nat)
| RetrieverInvoke (name : string) (question : string) (k : nat)
| SplitText (text : string)
| CreateChain (name : string)
| ChainInvoke (question : string)
| LlmInvoke (prompt : string)
| LlmStream (prompt : string).

Record Oracle : Type := mkOracle {
  embedding : string -> Vector;
  similarity_hits : string -> list Document;
  retriever_hits : string -> list Document;
  query_hits : Vector -> list Point;
  split_text : string -> list string;
  chain_answer : string -> string;
  llm_content : string -> MessageContent;
  llm_chunks : string -> list MessageContent;
  uuid : nat -> string;
  iso_time : nat -> string
}.

Record World : Type := mkWorld {
  oracle : Oracle;
  collections : gmap string Collection;
  faults : list (option exn);
  trace : list Call;
  ticks : nat
}.

Definition set_collections (c : gmap string Collection) (w : World) : World :=
  mkWorld (oracle w) c (faults w) (trace w) (ticks w).

Definition set_faults (f : list (option exn)) (w : World) : World :=
  mkWorld (oracle w) (collections w) f (trace w) (ticks w).

Definition set_trace (t : list Call) (w : World) : World :=
  mkWorld (oracle w) (collections w) (faults w) t (ticks w).

Definition set_ticks (n : nat) (w : World) : World :=
  mkWorld (oracle w) (collections w) (faults w) (trace w) n.

(** One call to a collaborator: it is appended to the trace, the next entry
    of the fault script is consumed, and the call either throws the scripted
    value or behaves as [natural] says (which may throw as well, leaving the
    store as it is). *)
Definition perform {A : Type} (c : Call) (natural : World -> exn + A * World)
    (w : World) : (exn + A) * World :=
  let w1 := set_trace (trace w ++ [c]) w in
  let w2 := set_faults (tail (faults w1)) w1 in
  match head (faults w1) with
  | Some (Some e) => (inl e, w2)
  | _ =>
      match natural w2 with
      | inl e => (inl e, w2)
      | inr (a, w3) => (inr a, w3)
      end
  end.

Definition missing (name : string) : exn :=
  Error ("Not found: Collection `" +:+ name +:+ "` doesn't exist!").

Definition conflict (name : string) : exn :=
  Error ("Conflict: Collection `" +:+ name +:+ "` already exists!").

Definition wrong_dimension : exn :=
  Error "Bad Request: Wrong input: Vector dimension error".

(** The natural behaviour of each call, that of a store between faults:
    reading or querying a collection that does not exist fails, creating
    one that exists fails, deleting is idempotent, and a vector whose
    length is not the [size] of the collection is refused with a dimension
    error.  What the models and the searches return is the oracle's. *)
Definition clusterStatus : World -> (exn + unit) * World :=
  perform ClusterStatus (fun w => inr (tt, w)).

Definition embedQuery (text : string) : World -> (exn + Vector) * World :=
  perform (EmbedQuery text) (fun w => inr (embedding (oracle w) text, w)).

Definition getCollections : World -> (exn + list string) * World :=
  perform GetCollections
    (fun w => inr ((map_to_list (collections w)).*1, w)).

Definition collection_info (c : Collection) : CollectionInfo :=
  mkCollectionInfo (Some (length (points c))) (Some (length (points c)))
                   (vectors_size c).

Definition getCollection (name : string) : World -> (exn + CollectionInfo) * World :=
  perform (GetCollection name)
    (fun w => match collections w !! name with
              | Some c => inr (collection_info c, w)
              | None => inl (missing name)
              end).

Definition deleteCollection (name : string) : World -> (exn + unit) * World :=
  perform (DeleteCollection name)
    (fun w => inr (tt, set_collections (delete name (collections w)) w)).

Definition createCollection (name : string) (size : nat)
    : World -> (exn + unit) * World :=
  perform (CreateCollection name size)
    (fun w => match collections w !! name with
              | Some _ => inl (conflict name)
              | None =>
                  inr (tt, set_collections
                             (<[name := mkCollection (Some size) []]> (collections w)) w)
              end).

Definition query (name : string) (vector : Vector) (limit : nat)
    : World -> (exn + list Point) * World :=
  perform (QdrantQuery name vector limit)
    (fun w => match collections w !! name with
              | None => inl (missing name)
              | Some c =>
                  if decide (vectors_size c = Some (length vector))
                  then inr (take limit (query_hits (oracle w) vector), w)
                  else inl wrong_dimension
              end).

(** [vectorStore.addDocuments]: the documents are embedded and upserted. *)
Definition addDocuments (name : string) (docs : list Document)
    : World -> (exn + unit) * World :=
  perform (AddDocuments name docs)
    (fun w => match collections w !! name with
              | None => inl (missing name)
              | Some c =>
                  if forallb (fun doc =>
                       bool_decide (vectors_size c =
                         Some (length (embedding (oracle w) (pageContent doc))))) docs
                  then inr (tt, set_collections
                                  (<[name := mkCollection (vectors_size c)
                                                          (points c ++ docs)]>
                                     (collections w)) w)
                  else inl wrong_dimension
              end).

Definition similaritySearch (name question : string) (k : nat)
    : World -> (exn + list Document) * World :=
  perform (SimilaritySearch name question k)
    (fun w => inr (take k (similarity_hits (oracle w) question), w)).

Definition retrieverInvoke (name question : string) (k : nat)
    : World -> (exn + list Document) * World :=
  perform (RetrieverInvoke name question k)
    (fun w => inr (take k (retriever_hits (oracle w) question), w)).

Definition splitText (text : string) : World -> (exn + list string) * World :=
  perform (SplitText text) (fun w => inr (split_text (oracle w) text, w)).

Definition createChain (name : string) : World -> (exn + unit) * World :=
  perform (CreateChain name) (fun w => inr (tt, w)).

Definition chainInvoke (question : string) : World -> (exn + string) * World :=
  perform (ChainInvoke question) (fun w => inr (chain_answer (oracle w) question, w)).

Definition llmInvoke (prompt : string) : World -> (exn + MessageContent) * World :=
  perform (LlmInvoke prompt) (fun w => inr (llm_content (oracle w) prompt, w)).

Definition llmStream (prompt : string)
    : World -> (exn + list MessageContent) * World :=
  perform (LlmStream prompt) (fun w => inr (llm_chunks (oracle w) prompt, w)).

(** [uuidv4()] and [new Date().toISOString()]: fresh values, no failure. *)
Definition uuidv4 (w : World) : string * World :=
  (uuid (oracle w) (ticks w), set_ticks (S (ticks w)) w).

Definition now_iso (w : World) : string * World :=
  (iso_time (oracle w) (ticks w), set_ticks (S (ticks w)) w).

End Env.

Import Env.

(** ** State of the service and the monad of its methods *)

(** [QdrantVectorStore]: a handle bound to a collection of the client. *)
Record QdrantVectorStore : Type := mkVectorStore { store_collection : string }.

(** The chain [createRetrievalChain] builds over a retriever of the store. *)
Record RetrievalChain : Type := mkChain {
  chain_retriever : QdrantVectorStore;
  chain_k : nat
}.

(** The private fields of [AutoFixRAGSystem] that change, the flag of the
    [AutoFixRAGService] that owns it, and the world outside. *)
Record State : Type := mkState {
  collectionName : string;
  vectorStore : option QdrantVectorStore;
  retrievalChain : option RetrievalChain;
  actualVectorSize : option nat;
  isInitialized : bool;
  world : World
}.

Definition set_vectorStore (v : option QdrantVectorStore) (s : State) : State :=
  mkState (collectionName s) v (retrievalChain s) (actualVectorSize s)
          (isInitialized s) (world s).

Definition set_retrievalChain (c : option RetrievalChain) (s : State) : State :=
  mkState (collectionName s) (vectorStore s) c (actualVectorSize s)
          (isInitialized s) (world s).

Definition set_actualVectorSize (n : option nat) (s : State) : State :=
  mkState (collectionName s) (vectorStore s) (retrievalChain s) n
          (isInitialized s) (world s).

Definition set_isInitialized (b : bool) (s : State) : State :=
  mkState (collectionName s) (vectorStore s) (retrievalChain s)
          (actualVectorSize s) b (world s).

Definition set_world (w : World) (s : State) : State :=
  mkState (collectionName s) (vectorStore s) (retrievalChain s)
          (actualVectorSize s) (isInitialized s) w.

(** An async method: it ends with a thrown value or a result, and in both
    cases the assignments made so far stay. *)
Definition M (A : Type) : Type := State -> (exn + A) * State.

Definition ret {A : Type} (a : A) : M A := fun s => (inr a, s).

Definition bind {A B : Type} (m : M A) (k : A -> M B) : M B :=
  fun s => match m s with
           | (inl e, s') => (inl e, s')
           | (inr a, s') => k a s'
           end.

Definition throw {A : Type} (e : exn) : M A := fun s => (inl e, s).

Definition try_catch {A : Type} (body : M A) (handler : exn -> M A) : M A :=
  fun s => match body s with
           | (inl e, s') => handler e s'
           | (inr a, s') => (inr a, s')
           end.

Definition get : M State := fun s => (inr s, s).

Definition modify (f : State -> State) : M unit := fun s => (inr tt, f s).

(** A call to a collaborator, run on the world of the state. *)
Definition io {A : Type} (f : World -> (exn + A) * World) : M A :=
  fun s => let (r, w) := f (world s) in (r, set_world w s).

Definition io_total {A : Type} (f : World -> A * World) : M A :=
  fun s => let (a, w) := f (world s) in (inr a, set_world w s).

Declare Scope js_scope.
Delimit Scope js_scope with js.
Notation "x <- m ;; k" := (bind m (fun x => k))
  (at level 100, m at level 99, right associativity) : js_scope.
Notation "m ;; k" := (bind m (fun _ => k))
  (at level 100, right associativity) : js_scope.
Open Scope js_scope.

(** [x || fallback] on a number that may be [null]: zero is falsy too. *)
Definition or_number (x : option nat) (fallback : nat) : nat :=
  match x with
  | Some (S n) => S n
  | _ => fallback
  end.

Definition nl : string := String (ascii_of_nat 10) EmptyString.

(** [parts.join(sep)]. *)
Fixpoint join (sep : string) (parts : list string) : string :=
  match parts with
  | [] => EmptyString
  | [p] => p
  | p :: rest => p +:+ sep +:+ join sep rest
  end.

(** [String(content)]: an array is the comma-joined [String] of its
    elements, and an object prints as [[object Object]]. *)
Definition String_of_content (c : MessageContent) : string :=
  match c with
  | ContentString s => s
  | ContentParts parts => join "," (map (fun _ => "[object Object]") parts)
  | ContentMissing => "undefined"
  end.

(** Truthiness of a content value: an empty string and [undefined] are
    falsy, an array is truthy whatever it holds. *)
Definition truthy_content (c : MessageContent) : bool :=
  match c with
  | ContentString EmptyString => false
  | ContentString _ => true
  | ContentParts _ => true
  | ContentMissing => false
  end.

(** ** [AutoFixRAGSystem] *)

(** [detectEmbeddingDimensions]. *)
Definition detectEmbeddingDimensions : M nat :=
  s <- get ;;
  match actualVectorSize s with
  | Some (S n) => ret (S n)
  | _ =>
      testEmbedding <- io (embedQuery "test dimension detection") ;;
      modify (set_actualVectorSize (Some (length testEmbedding))) ;;
      ret (length testEmbedding)
  end.

(** [testQdrantConnection]. *)
Definition testQdrantConnection : M bool :=
  try_catch (io clusterStatus ;; ret true) (fun _ => ret false).

(** [testCollectionQuery]: a query with a vector of [0.1] of the cached
    width, or of 768 entries when there is none. *)
Definition testCollectionQuery : M bool :=
  try_catch
    (s <- get ;;
     io (query (collectionName s)
               (repeat (dec 1 10) (or_number (actualVectorSize s) 768)) 1) ;;
     ret true)
    (fun _ => ret false).

(** [createCollectionWithDimensions] (the one-second wait is left out). *)
Definition createCollectionWithDimensions (dimensions : nat) : M unit :=
  s <- get ;;
  io (createCollection (collectionName s) dimensions).

Definition recreate (actualDimensions : nat) : M unit :=
  s <- get ;;
  io (deleteCollection (collectionName s)) ;;
  createCollectionWithDimensions actualDimensions.

(** [initializeCollection]. *)
Definition initializeCollection : M unit :=
  try_catch
    (isQdrantHealthy <- testQdrantConnection ;;
     if negb isQdrantHealthy
     then throw (Error "Qdrant server is not accessible or healthy")
     else
       actualDimensions <- detectEmbeddingDimensions ;;
       s <- get ;;
       collections <- io getCollections ;;
       (if bool_decide (collectionName s ∈ collections)
        then
          try_catch
            (collectionInfo <- io (getCollection (collectionName s)) ;;
             let existingDimensions := config_vectors_size collectionInfo in
             if bool_decide (existingDimensions = Some actualDimensions)
             then
               testQuery <- testCollectionQuery ;;
               if negb testQuery then recreate actualDimensions else ret tt
             else recreate actualDimensions)
            (fun _ => recreate actualDimensions)
        else createCollectionWithDimensions actualDimensions) ;;
       modify (set_vectorStore (Some (mkVectorStore (collectionName s)))))
    (fun error =>
       throw (Error ("Failed to initialize collection: " +:+ exn_toString error))).

(** [this.vectorStore!.addDocuments(documents)]: on a [null] store the
    member access throws a [TypeError]. *)
Definition vectorStore_addDocuments (documents : list Document) : M unit :=
  s <- get ;;
  match vectorStore s with
  | Some vs => io (addDocuments (store_collection vs) documents)
  | None => throw (Error "Cannot read properties of null (reading 'addDocuments')")
  end.

(** [createRetrievalChain]. *)
Definition createRetrievalChain : M unit :=
  s <- get ;;
  match vectorStore s with
  | None => throw (Error "Vector store not initialized")
  | Some vs =>
      try_catch
        (io (createChain (store_collection vs)) ;;
         modify (set_retrievalChain (Some (mkChain vs 5))))
        (fun error =>
           throw (Error ("Failed to create retrieval chain: " +:+ exn_toString error)))
  end.

(** [metadata?.source || "uploaded_text"]. *)
Definition source_of (metadata : gmap string MetaValue) : MetaValue :=
  match metadata !! "source" with
  | Some (MetaString (String c r)) => MetaString (String c r)
  | Some (MetaNumber (S n)) => MetaNumber (S n)
  | _ => MetaString "uploaded_text"
  end.

(** The documents of [processText]: one per chunk, in order, each with a
    fresh identifier and time stamp. *)
Fixpoint build_documents (metadata : gmap string MetaValue) (index : nat)
    (chunks : list string) : M (list Document) :=
  match chunks with
  | [] => ret []
  | chunk :: rest =>
      chunkId <- io_total uuidv4 ;;
      timestamp <- io_total now_iso ;;
      let doc :=
        mkDocument chunk
          (<["source" := source_of metadata]>
             (<["timestamp" := MetaString timestamp]>
                (<["chunkId" := MetaString chunkId]>
                   (<["chunkIndex" := MetaNumber index]> metadata)))) in
      docs <- build_documents metadata (S index) rest ;;
      ret (doc :: docs)
  end.

(** The upsert block of [processText]: the inner [try]/[catch] around
    [addDocuments] (the two-second waits are left out). *)
Definition addDocumentsWithRecovery (documents : list Document) : M unit :=
  try_catch
    (vectorStore_addDocuments documents)
    (fun error =>
       if error_message_includes error "dimension"
       then
         modify (set_vectorStore None) ;;
         modify (set_actualVectorSize None) ;;
         initializeCollection ;;
         vectorStore_addDocuments documents
       else throw error).

(** The first statements of [processText]: the collection is initialized
    if no store is bound, blank text is refused, the text is split and one
    document is built per chunk. *)
Definition prepareDocuments (text : string) (metadata : gmap string MetaValue)
    : M (list Document) :=
  s <- get ;;
  match vectorStore s with
  | Some _ => ret tt
  | None => initializeCollection
  end ;;
  if is_blank text then throw (Error "No text content provided")
  else
    chunks <- io (splitText text) ;;
    build_documents metadata 0 chunks.

(** [processText]. *)
Definition processText (text : string) (metadata : gmap string MetaValue) : M unit :=
  try_catch
    (documents <- prepareDocuments text metadata ;;
     addDocumentsWithRecovery documents ;;
     createRetrievalChain)
    (fun error =>
       throw (Error ("Failed to process text: " +:+ exn_toString error))).

(** [QAResult]; the two wall-clock durations of its metadata are left out. *)
Record QAResult : Type := mkQAResult {
  answer : string;
  sources : list Document;
  confidence : number;
  chunksUsed : nat
}.

Definition not_found_answer : string :=
  "I couldn't find any relevant documents to answer your question. Please make sure documents have been uploaded and processed correctly.".

(** The value [getCollectionStats] returns. *)
Record CollectionStats : Type := mkStats {
  totalPoints : nat;
  vectorsCount : nat;
  stats_collectionName : string;
  isReady : bool;
  vectorDimensions : nat
}.

(** [getCollectionStats]. *)
Definition getCollectionStats : M CollectionStats :=
  try_catch
    (s <- get ;;
     collectionInfo <- io (getCollection (collectionName s)) ;;
     ret (mkStats (or_number (points_count collectionInfo) 0)
                  (or_number (vectors_count collectionInfo) 0)
                  (collectionName s)
                  (bool_decide (retrievalChain s <> None))
                  (or_number (actualVectorSize s) 768)))
    (fun _ =>
       s <- get ;;
       ret (mkStats 0 0 (collectionName s) false
                    (or_number (actualVectorSize s) 768))).

(** The document the direct query builds from a point:
    [payload?.pageContent || ""] and [payload?.metadata || {}]. *)
Definition document_of_point (point : Point) : Document :=
  mkDocument
    (match payload point with
     | Some p => default EmptyString (payload_pageContent p)
     | None => EmptyString
     end)
    (match payload point with
     | Some p => default ∅ (payload_metadata p)
     | None => ∅
     end).

(** The third tier: embed the question, query the store with the vector. *)
Definition directQuery (question : string) : M (list Document) :=
  s <- get ;;
  questionEmbedding <- io (embedQuery question) ;;
  queryResult <- io (query (collectionName s) questionEmbedding 5) ;;
  ret (map document_of_point queryResult).

(** The retrieval block of [askQuestion]: the nested [try]/[catch] that
    assigns [relevantDocs]. *)
Definition retrieveDocuments (vs : QdrantVectorStore) (question : string)
    : M (list Document) :=
  try_catch
    (io (similaritySearch (store_collection vs) question 5))
    (fun searchError =>
       try_catch
         (io (retrieverInvoke (store_collection vs) question 5))
         (fun altError =>
            try_catch
              (directQuery question)
              (fun directError =>
                 throw (Error ("All retrieval methods failed: "
                               +:+ exn_toString directError))))).

Definition manual_prompt (question : string) (relevantDocs : list Document) : string :=
  "Based on the following context, please answer the question accurately:"
  +:+ nl +:+ nl +:+ "Context: " +:+ join (nl +:+ nl) (map pageContent relevantDocs)
  +:+ nl +:+ nl +:+ "Question: " +:+ question
  +:+ nl +:+ nl +:+ "Answer:".

(** [typeof content === 'string']. *)
Definition is_string (c : MessageContent) : bool :=
  match c with
  | ContentString _ => true
  | _ => false
  end.

(** [typeof content === 'string' ? content : String(content)]. *)
Definition content_text (c : MessageContent) : string :=
  match c with
  | ContentString s => s
  | _ => String_of_content c
  end.

(** [askQuestion]. *)
Definition askQuestion (question : string) : M QAResult :=
  s <- get ;;
  match retrievalChain s, vectorStore s with
  | Some _, Some vs =>
      try_catch
        (stats <- getCollectionStats ;;
         if (totalPoints stats =? 0)%nat
         then throw (Error "No documents found in the collection. Please upload documents first.")
         else
           relevantDocs <- retrieveDocuments vs question ;;
           if (length relevantDocs =? 0)%nat
           then ret (mkQAResult not_found_answer [] (of_nat 0) 0)
           else
             answer <-
               try_catch
                 (io (chainInvoke question))
                 (fun chainError =>
                    response <- io (llmInvoke (manual_prompt question relevantDocs)) ;;
                    ret (content_text response)) ;;
             ret (mkQAResult answer relevantDocs
                             (calculateConfidence question relevantDocs)
                             (length relevantDocs)))
        (fun error =>
           throw (Error ("Failed to answer question: " +:+ exn_toString error)))
  | _, _ =>
      throw (Error "No documents processed yet. Please upload and process a document first.")
  end.

(** [convertStreamToStringIterable]: the fragments the generator yields,
    in order, for the chunks of the model's stream. *)
Fixpoint convertStreamToStringIterable (stream : list MessageContent) : list string :=
  match stream with
  | [] => []
  | chunk :: rest =>
      if truthy_content chunk && is_string chunk
      then content_text chunk :: convertStreamToStringIterable rest
      else if truthy_content chunk
      then String_of_content chunk :: convertStreamToStringIterable rest
      else convertStreamToStringIterable rest
  end.

(** [askQuestionStream]: the same three tiers, the last one not wrapped. *)
Definition askQuestionStream (question : string) : M (list string) :=
  s <- get ;;
  match vectorStore s with
  | None => throw (Error "No documents processed yet.")
  | Some vs =>
      relevantDocs <-
        try_catch
          (io (similaritySearch (store_collection vs) question 5))
          (fun searchError =>
             try_catch
               (io (retrieverInvoke (store_collection vs) question 5))
               (fun altError => directQuery question)) ;;
      let prompt := nl +:+ manual_prompt question relevantDocs in
      stream <- io (llmStream prompt) ;;
      ret (convertStreamToStringIterable stream)
  end.

(** [clearDocuments]. *)
Definition clearDocuments : M unit :=
  try_catch
    (s <- get ;;
     match vectorStore s with
     | Some _ => io (deleteCollection (collectionName s))
     | None => ret tt
     end ;;
     modify (set_vectorStore None) ;;
     modify (set_retrievalChain None) ;;
     modify (set_actualVectorSize None))
    (fun error => throw error).

(** ** [AutoFixRAGService] *)

(** [initialize]. *)
Definition initialize : M unit :=
  s <- get ;;
  if negb (isInitialized s)
  then
    try_catch
      (initializeCollection ;; modify (set_isInitialized true))
      (fun error => throw error)
  else ret tt.

(** [error instanceof Error ? error.message : String(error)]. *)
Definition message_of (e : exn) : string :=
  match e with
  | Error message => message
  | Thrown value => value
  end.

(** [queryDocument]: a [QAResult], or an object with an [error] string. *)
Definition queryDocument (question : string) : M (string + QAResult) :=
  try_catch
    (initialize ;;
     result <- askQuestion question ;;
     ret (inr result))
    (fun error => ret (inl ("Error querying document: " +:+ message_of error))).

(** [streamQuery]. *)
Definition streamQuery (question : string) : M (string + list string) :=
  try_catch
    (initialize ;;
     fragments <- askQuestionStream question ;;
     ret (inr fragments))
    (fun error => ret (inl ("Error streaming query: " +:+ message_of error))).

(** [getStats]. *)
Definition getStats : M CollectionStats :=
  try_catch
    (s <- get ;;
     if negb (isInitialized s)
     then ret (mkStats 0 0 "Not initialized" false 768)
     else getCollectionStats)
    (fun _ => ret (mkStats 0 0 "Error" false 768)).

(** [clearAll]. *)
Definition clearAll : M unit :=
  try_catch
    (clearDocuments ;; modify (set_isInitialized false))
    (fun error => throw error).

(** * Vocabulary of the statements

    The predicates and measures the theorems are stated with, and the test
    doubles of the concrete runs. *)

(** The score of a document as a rational: the value of [docScore] when
    the question has at least one question word. *)
Definition score_value (question : string) (doc : Document) : Qc :=
  let content := toLowerCase (pageContent doc) in
  let matched :=
    List.filter (fun word => includes content word) (questionWords question) in
  ((if includes content (toLowerCase question) then Q2Qc (4 # 10) else 0)
   + ratio (length matched) (length (questionWords question)) * Q2Qc (3 # 10)
   + (if (200 <? String.length (pageContent doc))%nat then Q2Qc (1 # 10) else 0))%Qc.

(** [frame P s s']: from [s] to [s'] the collection name and the oracle are
    unchanged and the trace grew by calls that all satisfy [P]. *)
Definition frame (P : Call -> Prop) (s s' : State) : Prop :=
  collectionName s' = collectionName s
  /\ oracle (world s') = oracle (world s)
  /\ exists new, trace (world s') = trace (world s) ++ new /\ Forall P new.

(** [respects P m]: every run of [m], ending well or not, is framed by [P]. *)
Definition respects {A : Type} (P : Call -> Prop) (m : M A) : Prop :=
  forall s r s', m s = (r, s') -> frame P s s'.

(** A call that keeps the oracle and the trace in its natural behaviour
    adds itself to the trace, and nothing else. *)
Definition quiet {A : Type} (natural : World -> exn + A * World) : Prop :=
  forall w a w', natural w = inr (a, w') ->
                 oracle w' = oracle w /\ trace w' = trace w.

(** The calls [initializeCollection] may make. *)
Definition is_init_call (c : Call) : Prop :=
  match c with
  | ClusterStatus | EmbedQuery _ | GetCollections | GetCollection _
  | DeleteCollection _ | CreateCollection _ _ | QdrantQuery _ _ _ => True
  | _ => False
  end.

(** Any call but [addDocuments], as a proposition and as a test. *)
Definition not_upsert (c : Call) : Prop :=
  match c with
  | AddDocuments _ _ => False
  | _ => True
  end.

Definition is_upsert (c : Call) : bool :=
  match c with
  | AddDocuments _ _ => true
  | _ => false
  end.

(** The world right after a call was recorded and its fault entry taken. *)
Definition logged (c : Call) (w : World) : World :=
  set_faults (tail (faults w)) (set_trace (trace w ++ [c]) w).

(** The width [detectEmbeddingDimensions] reports in state [s]: the cached
    one, or the length of the probe's embedding. *)
Definition detected_width (s : State) : nat :=
  match actualVectorSize s with
  | Some (S n) => S n
  | _ => length (embedding (oracle (world s)) "test dimension detection")
  end.

(** Test doubles: a small world for the concrete runs, with an embedding
    model of width 768, retrievers that find one document and a chat model
    that answers. *)
Definition demo_name : string := "FINAL_RAG_COLLECTIONS".

Definition demo_doc : Document :=
  mkDocument "Paris is the capital of France. The Eiffel Tower is in Paris."
             {["source" := MetaString "doc1"]}.

Definition demo_oracle : Oracle :=
  {| embedding := fun _ => repeat (dec 1 10) 768;
     similarity_hits := fun _ => [demo_doc];
     retriever_hits := fun _ => [demo_doc];
     query_hits := fun _ => [mkPoint (Some (mkPayload (Some "Paris is the capital of France.") None))];
     split_text := fun text => [text];
     chain_answer := fun _ => "Paris.";
     llm_content := fun _ => ContentString "Paris.";
     llm_chunks := fun _ => [ContentString "Par"; ContentString ""; ContentString "is."];
     uuid := fun _ => "00000000-0000-4000-8000-000000000000";
     iso_time := fun _ => "2024-01-01T00:00:00.000Z" |}.

Definition demo_world (cols : gmap string Collection) (script : list (option exn))
    : World :=
  mkWorld demo_oracle cols script [] 0.

(** A service right after its constructor ran. *)
Definition constructed (w : World) : State :=
  mkState demo_name None None None false w.

(** A service that has ingested documents: store and chain are bound. *)
Definition ingested (w : World) : State :=
  mkState demo_name (Some (mkVectorStore demo_name))
          (Some (mkChain (mkVectorStore demo_name) 5)) (Some 768) true w.

(** The store holds a collection of width 256 with one point. *)
Definition stale_store : gmap string Collection :=
  {[demo_name := mkCollection (Some 256) [demo_doc]]}.

(** The store holds a collection of the right width, without or with a
    point. *)
Definition empty_store : gmap string Collection :=
  {[demo_name := mkCollection (Some 768) []]}.

Definition full_store : gmap string Collection :=
  {[demo_name := mkCollection (Some 768) [demo_doc]]}.

(** The calls made between two states of a run. *)
Definition new_calls (s s' : State) : list Call :=
  drop (length (trace (world s))) (trace (world s')).

(** The number of [addDocuments] calls among [calls]. *)
Definition upserts (calls : list Call) : nat :=
  length (List.filter is_upsert calls).

(** [at_most n m]: a run of [m] extends the trace, by at most [n] upserts. *)
Definition at_most {A : Type} (n : nat) (m : M A) : Prop :=
  forall s r s', m s = (r, s') ->
    exists calls, trace (world s') = trace (world s) ++ calls
                  /\ (upserts calls <= n)%nat.

(** What one chunk of the model's stream contributes: nothing for a falsy
    content, the string itself for a non-empty string, the string coercion
    for an array. *)
Definition fragment_of (content : MessageContent) : option string :=
  match content with
  | ContentString EmptyString => None
  | ContentString s => Some s
  | ContentParts parts => Some (String_of_content (ContentParts parts))
  | ContentMissing => None
  end.

(** * Vocabulary of the further properties *)

(** [stable R m]: every run of [m], ending well or not, relates the state
    it starts from to the state it leaves by [R]. *)
Definition stable {A : Type} (R : State -> State -> Prop) (m : M A) : Prop :=
  forall s r s', m s = (r, s') -> R s s'.

(** The fields of the service are the same in both states; only the world
    may differ. *)
Definition same_fields (s s' : State) : Prop :=
  s' = set_world (world s') s.

(** Nothing but the trace, the fault script and the clock moved: the
    fields of the service and the collections of the store are the same. *)
Definition untouched (s s' : State) : Prop :=
  same_fields s s' /\ collections (world s') = collections (world s).

(** The fields that [initializeCollection] never assigns. *)
Definition same_chain (s s' : State) : Prop :=
  collectionName s' = collectionName s
  /\ retrievalChain s' = retrievalChain s
  /\ isInitialized s' = isInitialized s
  /\ oracle (world s') = oracle (world s).

(** A natural behaviour that leaves the collections as they are. *)
Definition reads_only {A : Type} (natural : World -> exn + A * World) : Prop :=
  forall w a w', natural w = inr (a, w') -> collections w' = collections w.

(** The calls that ask the store or a model for something and change
    nothing: no collection is created or deleted, no point is upserted. *)
Definition is_read_call (c : Call) : Prop :=
  match c with
  | DeleteCollection _ | CreateCollection _ _ | AddDocuments _ _ => False
  | _ => True
  end.

(** The store handle and the fields [initializeCollection] never assigns
    are the same in both states. *)
Definition same_handle (s s' : State) : Prop :=
  vectorStore s' = vectorStore s /\ same_chain s s'.

(** The call [detectEmbeddingDimensions] makes in state [s]: none when a
    width is cached, the probe otherwise. *)
Definition probe_calls (s : State) : list Call :=
  match actualVectorSize s with
  | Some (S _) => []
  | _ => [EmbedQuery "test dimension detection"]
  end.

(** No fault is scripted from state [s] on. *)
Definition calm (s : State) : Prop := faults (world s) = [].

(** The keys [processText] writes into the metadata of every document. *)
Definition chunk_keys : list string :=
  ["chunkIndex"; "chunkId"; "timestamp"; "source"].

Definition blank_text_error : exn :=
  Error "Failed to process text: Error: No text content provided".





(** * [DiagnosticRAGService]

    The diagnostic service has its own embedding model and store client,
    configured like those of the RAG system, and a collection name of its
    own.  It has no field that changes: its methods are run in the same
    monad and touch the world only. *)

(** [private collectionName: string = 'rag_documents_collection']. *)
Definition diagnostic_collection : string := "rag_documents_collection".





(** [forceDeleteCollection]: the error of the deletion is swallowed. *)
Definition forceDeleteCollection : M unit :=
  try_catch
    (io (deleteCollection diagnostic_collection))
    (fun _ => ret tt).

(** * Files

    [processPDF], [processFile] and [uploadAndProcess].  The PDF parser is
    the module the dynamic import of 'pdf-parse' gives, if it gives one,
    and [decode] is [new TextDecoder().decode]; the bytes of a file are kept
    as a string. *)

(** [s.endsWith(suffix)]. *)
Definition endsWith (s suffix : string) : bool :=
  (String.length suffix <=? String.length s)%nat
  && String.eqb (substring (String.length s - String.length suffix)
                           (String.length suffix) s) suffix.

(** [x || fallback] on a string that may be [undefined]: the empty string
    is falsy too. *)
Definition or_string (x : option string) (fallback : string) : string :=
  match x with
  | Some (String c rest) => String c rest
  | _ => fallback
  end.

(** What the parser returns: [text], [numpages] and [info?.Title]. *)
Record PdfData : Type := mkPdfData {
  pdf_text : string;
  numpages : nat;
  info_Title : option string
}.

(** A [File] of the upload form. *)
Record File : Type := mkFile {
  file_name : string;
  file_type : string;
  file_bytes : string
}.

(** The value [uploadAndProcess] returns. *)
Record UploadResult : Type := mkUploadResult {
  success : bool;
  message : string;
  upload_stats : option CollectionStats
}.

Definition unsupported_file : exn :=
  Error "Unsupported file type. Please upload PDF or TXT files.".

Section Files.

Variable pdf_parse : option (string -> exn + PdfData).
Variable decode : string -> string.

(** [loadPdfParse]. *)
Definition loadPdfParse : M (string -> exn + PdfData) :=
  match pdf_parse with
  | Some parse => ret parse
  | None => throw (Error "PDF parsing library not available")
  end.

(** The metadata [processPDF] passes on. *)
Definition pdf_metadata (filename : option string) (pdfData : PdfData)
    : gmap string MetaValue :=
  {[ "source" := MetaString (or_string filename "uploaded_pdf");
     "type" := MetaString "pdf";
     "pages" := MetaNumber (numpages pdfData);
     "title" := MetaString (or_string (info_Title pdfData)
                                      (or_string filename "Unknown")) ]}.

(** [processPDF]. *)
Definition processPDF (pdfBuffer : string) (filename : option string) : M unit :=
  try_catch
    (pdfParseModule <- loadPdfParse ;;
     pdfData <- match pdfParseModule pdfBuffer with
                | inl error => throw error
                | inr data => ret data
                end ;;
     let text := pdf_text pdfData in
     if is_blank text then throw (Error "No text content found in PDF")
     else processText text (pdf_metadata filename pdfData))
    (fun error => throw (Error ("Failed to process PDF: " +:+ exn_toString error))).

(** The metadata [processFile] passes on for a text file. *)
Definition text_metadata (file : File) : gmap string MetaValue :=
  {[ "source" := MetaString (file_name file); "type" := MetaString "text" ]}.

(** [processFile]. *)
Definition processFile (file : File) : M unit :=
  try_catch
    (if String.eqb (file_type file) "application/pdf"
     then processPDF (file_bytes file) (Some (file_name file))
     else if String.eqb (file_type file) "text/plain"
             || endsWith (file_name file) ".txt"
     then processText (decode (file_bytes file)) (text_metadata file)
     else throw unsupported_file)
    (fun error => throw error).

(** [uploadAndProcess]. *)
Definition uploadAndProcess (file : File) : M UploadResult :=
  try_catch
    (initialize ;;
     processFile file ;;
     stats <- getCollectionStats ;;
     ret (mkUploadResult true ("Successfully processed " +:+ file_name file)
                         (Some stats)))
    (fun error =>
       ret (mkUploadResult false
              ("Error processing file: " +:+ message_of error) None)).

End Files.

(** The check of the upload route on the type of the file:
    [allowedTypes.includes(file.type) || file.name.endsWith('.txt')]. *)
Definition upload_accepts (file : File) : bool :=
  bool_decide (file_type file ∈ ["application/pdf"; "text/plain"])
  || endsWith (file_name file) ".txt".

(** The documents carry the caller's metadata [base]: each has its
    position as [chunkIndex], the source of [base] (or the default) as
    [source], and every other key of [base] as it is. *)
Definition carries (base : gmap string MetaValue) (documents : list Document) : Prop :=
  forall i doc, documents !! i = Some doc ->
    metadata doc !! "chunkIndex" = Some (MetaNumber i)
    /\ metadata doc !! "source" = Some (source_of base)
    /\ (forall key, key ∉ chunk_keys -> metadata doc !! key = base !! key).

(** The store handle, when bound, is a handle on the collection of the
    service. *)
Definition handle_ok (s : State) : Prop :=
  forall vs, vectorStore s = Some vs -> store_collection vs = collectionName s.

(** From [s] to [s'] every collection but the one named [n] is as it
    was. *)
Definition others_kept (n : string) (s s' : State) : Prop :=
  forall name, name <> n ->
    collections (world s') !! name = collections (world s) !! name.

(** [only_own n]: a service on collection [n] whose handle is in order
    stays one, and every other collection is kept. *)
Definition only_own (n : string) (s s' : State) : Prop :=
  collectionName s = n -> handle_ok s ->
  collectionName s' = n /\ handle_ok s' /\ others_kept n s s'.

(** From [s] to [s'] the service kept to its own collection. *)
Definition kept_to_own (s s' : State) : Prop :=
  others_kept (collectionName s) s s' /\ handle_ok s'.

(** A natural behaviour that changes no collection but [n]. *)
Definition touches_only {A : Type} (n : string)
    (natural : World -> exn + A * World) : Prop :=
  forall w a w', natural w = inr (a, w') ->
    forall name, name <> n -> collections w' !! name = collections w !! name.

(** * The shared service and the routes

    The module variable [sharedRAGService] holds the one instance of the
    service, or [null]; the routes reach the service through
    [getRAGService].  A process is the environment variable the module
    reads, what the constructors of the three clients do with the
    configuration of the process, that module variable, and the world
    outside. *)

(** The fields of an instance: those of [State] without the world. *)
Record Service : Type := mkService {
  service_collectionName : string;
  service_vectorStore : option QdrantVectorStore;
  service_retrievalChain : option RetrievalChain;
  service_actualVectorSize : option nat;
  service_isInitialized : bool
}.

(** [clients] is [None] when the embedding model, the chat model and the
    store client construct, and the value thrown when one of them does
    not. *)
Record Process : Type := mkProcess {
  GOOGLE_API_KEY : option string;
  clients : option exn;
  sharedRAGService : option Service;
  outside : World
}.

(** An instance in a world, and the instance of a state. *)
Definition in_world (svc : Service) (w : World) : State :=
  mkState (service_collectionName svc) (service_vectorStore svc)
          (service_retrievalChain svc) (service_actualVectorSize svc)
          (service_isInitialized svc) w.

Definition service_of (s : State) : Service :=
  mkService (collectionName s) (vectorStore s) (retrievalChain s)
            (actualVectorSize s) (isInitialized s).

(** The constructor of [AutoFixRAGSystem]: the key is required, the name
    of the collection has a default, and what a client throws is thrown on,
    wrapped. *)
Definition new_AutoFixRAGSystem (clients : option exn) (googleApiKey : option string)
    (collectionName : option string) : exn + Service :=
  match googleApiKey with
  | Some (String _ _) =>
      match clients with
      | Some error =>
          inl (Error ("Failed to initialize RAG System: " +:+ exn_toString error))
      | None =>
          inr (mkService (or_string collectionName "rag_documents_collection")
                         None None None false)
      end
  | _ => inl (Error "Google API key is required")
  end.

(** The constructor of [AutoFixRAGService]. *)
Definition new_AutoFixRAGService (clients : option exn) (googleApiKey : option string)
    (collectionName : option string) : exn + Service :=
  match googleApiKey with
  | Some (String _ _) =>
      new_AutoFixRAGSystem clients googleApiKey
        (Some (or_string collectionName "rag_documents_collection"))
  | _ => inl (Error "Google API key is required")
  end.

(** The instance the constructors give for the fixed collection name. *)
Definition new_service : Service :=
  mkService "FINAL_RAG_COLLECTIONS" None None None false.

(** [getRAGService]: the module variable is assigned only when the
    constructor returned. *)
Definition getRAGService (p : Process) : (exn + Service) * Process :=
  match sharedRAGService p with
  | Some svc => (inr svc, p)
  | None =>
      match GOOGLE_API_KEY p with
      | Some (String _ _) =>
          match new_AutoFixRAGService (clients p) (GOOGLE_API_KEY p)
                  (Some "FINAL_RAG_COLLECTIONS") with
          | inl error => (inl error, p)
          | inr svc =>
              (inr svc,
               mkProcess (GOOGLE_API_KEY p) (clients p) (Some svc) (outside p))
          end
      | _ => (inl (Error "GOOGLE_API_KEY not configured"), p)
      end
  end.

(** [resetRAGService]. *)
Definition resetRAGService (p : Process) : Process :=
  mkProcess (GOOGLE_API_KEY p) (clients p) None (outside p).

(** A method called on the shared instance: the instance and the world
    are what the method leaves. *)
Definition invoke {A : Type} (m : M A) (svc : Service) (p : Process)
    : (exn + A) * Process :=
  let (r, s') := m (in_world svc (outside p)) in
  (r, mkProcess (GOOGLE_API_KEY p) (clients p) (Some (service_of s')) (world s')).

(** What a route answers: a status and the JSON value of the body. *)
Inductive Body : Type :=
| Cleared
| Failure (error : string)
| QueryBody (result : string + QAResult)
| StatsBody (stats : CollectionStats)
| UploadBody (result : UploadResult).

Record Response : Type := mkResponse {
  status : nat;
  body : Body
}.

(** [POST] of the clear route. *)
Definition clear_POST (p : Process) : Response * Process :=
  match getRAGService p with
  | (inl error, p1) =>
      (mkResponse 500 (Failure ("Failed to clear documents: " +:+ message_of error)), p1)
  | (inr ragService, p1) =>
      match invoke clearAll ragService p1 with
      | (inl error, p2) =>
          (mkResponse 500
             (Failure ("Failed to clear documents: " +:+ message_of error)), p2)
      | (inr _, p2) => (mkResponse 200 Cleared, resetRAGService p2)
      end
  end.

(** The value [request.json()] gives: [null], or any other value, of
    which [question] is the property of that name when it is a string
    ([None] when the value has no such property, as a number, a string or
    an array, or when the property is not a string). *)
Inductive ParsedBody : Type :=
| BodyNull
| BodyValue (question : option string).

(** What [const { question } = body] throws on [null] (a [TypeError]; the
    message is that of V8). *)
Definition destructuring_of_null : exn :=
  Error "Cannot destructure property 'question' of 'body' as it is null.".

(** [POST] of the query route.  [request] is what [request.json()] gives,
    or what it throws when the body does not parse. *)
Definition query_POST (request : exn + ParsedBody) (p : Process)
    : Response * Process :=
  match getRAGService p with
  | (inl error, p1) =>
      (mkResponse 500 (Failure ("Failed to process query: " +:+ message_of error)), p1)
  | (inr ragService, p1) =>
      match request with
      | inl error =>
          (mkResponse 500
             (Failure ("Failed to process query: " +:+ message_of error)), p1)
      | inr BodyNull =>
          (mkResponse 500
             (Failure ("Failed to process query: "
                       +:+ message_of destructuring_of_null)), p1)
      | inr (BodyValue None) =>
          (mkResponse 400 (Failure "Valid question is required"), p1)
      | inr (BodyValue (Some question)) =>
          if is_blank question
          then (mkResponse 400 (Failure "Valid question is required"), p1)
          else
            match invoke (queryDocument question) ragService p1 with
            | (inl error, p2) =>
                (mkResponse 500
                   (Failure ("Failed to process query: " +:+ message_of error)), p2)
            | (inr result, p2) => (mkResponse 200 (QueryBody result), p2)
            end
      end
  end.

(** [GET] of the stats route. *)
Definition stats_GET (p : Process) : Response * Process :=
  match getRAGService p with
  | (inl error, p1) =>
      (mkResponse 500 (Failure ("Failed to get stats: " +:+ message_of error)), p1)
  | (inr ragService, p1) =>
      match invoke getStats ragService p1 with
      | (inl error, p2) =>
          (mkResponse 500 (Failure ("Failed to get stats: " +:+ message_of error)), p2)
      | (inr stats, p2) => (mkResponse 200 (StatsBody stats), p2)
      end
  end.

(** The value [formData.get('file')] gives when the form has a field of
    that name: a file, or the string of a text field. *)
Inductive FormValue : Type :=
| FormFile (file : File)
| FormString (value : string).

(** What [file.name.endsWith('.txt')] throws on a string, which has no
    [name] (a [TypeError]; the message is that of V8). *)
Definition endsWith_of_undefined : exn :=
  Error "Cannot read properties of undefined (reading 'endsWith')".

(** [POST] of the upload route.  [form] is what [formData.get('file')]
    gives ([None] for [null]), or what [request.formData()] throws.  An
    empty string is falsy; another string passes [!file], has no [type]
    that is allowed, and fails at [file.name.endsWith]. *)
Definition upload_POST (pdf_parse : option (string -> exn + PdfData))
    (decode : string -> string) (form : exn + option FormValue) (p : Process)
    : Response * Process :=
  match getRAGService p with
  | (inl error, p1) =>
      (mkResponse 500 (Failure ("Failed to upload file: " +:+ message_of error)), p1)
  | (inr ragService, p1) =>
      match form with
      | inl error =>
          (mkResponse 500
             (Failure ("Failed to upload file: " +:+ message_of error)), p1)
      | inr None | inr (Some (FormString EmptyString)) =>
          (mkResponse 400 (Failure "No file provided"), p1)
      | inr (Some (FormString (String _ _))) =>
          (mkResponse 500
             (Failure ("Failed to upload file: "
                       +:+ message_of endsWith_of_undefined)), p1)
      | inr (Some (FormFile file)) =>
          if negb (upload_accepts file)
          then (mkResponse 400 (Failure "Only PDF and TXT files are supported"), p1)
          else
            match invoke (uploadAndProcess pdf_parse decode file) ragService p1 with
            | (inl error, p2) =>
                (mkResponse 500
                   (Failure ("Failed to upload file: " +:+ message_of error)), p2)
            | (inr result, p2) => (mkResponse 200 (UploadBody result), p2)
            end
      end
  end.

(** The key is set to a string that is not empty. *)
Definition key_configured (p : Process) : Prop :=
  exists c key, GOOGLE_API_KEY p = Some (String c key).

(** [getRAGService] has an instance to return: one exists already, or the
    key is configured and the clients construct. *)
Definition serviceable (p : Process) : Prop :=
  sharedRAGService p <> None
  \/ (key_configured p /\ clients p = None).

(** * Properties *)

(** ** Substrings and pieces *)
Section StringFacts.

#[local] Arguments String.append !s1 s2 : simpl nomatch.

Lemma prefix_true_iff (sub s : string) :
  String.prefix sub s = true <-> exists rest, s = sub +:+ rest.
Proof.
  revert s. induction sub as [|c sub IH]; intros s.
  - split; [intros _; exists s; reflexivity | destruct s; reflexivity].
  - destruct s as [|c' s]; simpl.
    + split; [discriminate | intros [rest H]; discriminate].
    + destruct (ascii_dec c c') as [->|Hne].
      * rewrite IH. split; intros [rest H]; exists rest.
        -- now rewrite H.
        -- now inversion H.
      * split; [discriminate | intros [rest H]; inversion H; congruence].
Qed.

(** [includes] decides the occurrence of a contiguous substring. *)
Lemma includes_true_iff (s sub : string) :
  includes s sub = true <-> exists before after, s = before +:+ sub +:+ after.
Proof.
  induction s as [|c s IH]; cbn [includes].
  - rewrite orb_false_r, prefix_true_iff. split.
    + intros [rest H]. exists EmptyString, rest. exact H.
    + intros [before [after H]]. destruct before; simpl in H.
      * exists after. exact H.
      * discriminate.
  - rewrite orb_true_iff, prefix_true_iff, IH. split.
    + intros [[rest H]|[before [after H]]].
      * exists EmptyString, rest. exact H.
      * exists (String c before), after. simpl. now rewrite H.
    + intros [before [after H]]. destruct before as [|c' before]; simpl in H.
      * left. exists after. exact H.
      * right. inversion H. exists before, after. reflexivity.
Qed.

Lemma append_assoc (a b c : string) : (a +:+ b) +:+ c = a +:+ (b +:+ c).
Proof. induction a; simpl; [reflexivity | now rewrite IHa]. Qed.

Lemma includes_trans (s mid sub : string) :
  includes s mid = true -> includes mid sub = true -> includes s sub = true.
Proof.
  rewrite !includes_true_iff.
  intros [b1 [a1 ->]] [b2 [a2 ->]].
  exists (b1 +:+ b2), (a2 +:+ a1).
  now rewrite !append_assoc.
Qed.

Lemma split_nonempty (sep : ascii) (s : string) : split sep s <> [].
Proof.
  destruct s as [|c s]; simpl; [discriminate|].
  destruct (Ascii.eqb c sep); [discriminate|].
  destruct (split sep s); discriminate.
Qed.

(** The first piece starts the string. *)
Lemma split_head_prefix (sep : ascii) (s w : string) (ws : list string) :
  split sep s = w :: ws -> exists rest, s = w +:+ rest.
Proof.
  revert w ws. induction s as [|c s IH]; intros w ws Hsplit; simpl in Hsplit.
  - inversion Hsplit. exists EmptyString. reflexivity.
  - destruct (Ascii.eqb c sep).
    + inversion Hsplit. exists (String c s). reflexivity.
    + destruct (split sep s) as [|w' ws'] eqn:Hs.
      * now apply split_nonempty in Hs.
      * destruct (IH w' ws' eq_refl) as [rest ->].
        inversion Hsplit. exists rest. reflexivity.
Qed.

Lemma includes_cons (c : ascii) (s sub : string) :
  includes s sub = true -> includes (String c s) sub = true.
Proof. intros H. cbn [includes]. rewrite H. apply orb_true_r. Qed.

(** Every piece [split] returns occurs in the string that was split. *)
Lemma split_pieces_included (sep : ascii) (s piece : string) :
  In piece (split sep s) -> includes s piece = true.
Proof.
  revert piece. induction s as [|c s IH]; intros piece; cbn [split].
  - intros [<-|[]]. reflexivity.
  - destruct (Ascii.eqb c sep).
    + intros [<-|Hin].
      * apply includes_true_iff. exists EmptyString, (String c s). reflexivity.
      * apply includes_cons, IH, Hin.
    + destruct (split sep s) as [|w ws] eqn:Hsplit.
      * now apply split_nonempty in Hsplit.
      * intros [<-|Hin].
        -- destruct (split_head_prefix _ _ _ _ Hsplit) as [rest ->].
           apply includes_true_iff.
           exists EmptyString, rest. reflexivity.
        -- apply includes_cons, IH. now right.
Qed.

Lemma questionWords_included (question word : string) :
  In word (questionWords question) -> includes (toLowerCase question) word = true.
Proof.
  unfold questionWords. rewrite filter_In. intros [Hin _].
  now apply split_pieces_included in Hin.
Qed.

End StringFacts.

(** ** Arithmetic of numbers *)
Section NumberFacts.

Lemma add_comm (x y : number) : add x y = add y x.
Proof. destruct x, y; simpl; try reflexivity. f_equal. ring. Qed.

Lemma add_assoc (x y z : number) : add (add x y) z = add x (add y z).
Proof. destruct x, y, z; simpl; try reflexivity. f_equal. ring. Qed.

Lemma of_nat_zero : of_nat 0 = Fin 0%Qc.
Proof. reflexivity. Qed.

Lemma add_zero_l (x : number) : add (of_nat 0) x = x.
Proof.
  rewrite of_nat_zero. destruct x; simpl; try reflexivity. f_equal. ring.
Qed.

Lemma add_zero_r (x : number) : add x (of_nat 0) = x.
Proof. rewrite add_comm. apply add_zero_l. Qed.

Lemma mul_comm (x y : number) : mul x y = mul y x.
Proof. destruct x, y; simpl; try reflexivity. f_equal. ring. Qed.

Lemma sgn_of_pos (n : nat) :
  (0 < n)%nat -> sgn (nat_Qc n) = Gt.
Proof.
  intros Hn. unfold sgn, Qccompare, nat_Qc. cbn [this Q2Qc].
  rewrite <- Qred_compare. unfold Qcompare, inject_Z. simpl.
  rewrite Z.mul_1_r. apply Z.compare_gt_iff. lia.
Qed.

Lemma div_of_nat (m n : nat) :
  (0 < n)%nat -> div (of_nat m) (of_nat n) = Fin (ratio m n).
Proof. intros Hn. unfold div, of_nat. now rewrite sgn_of_pos. Qed.

Lemma div_zero_zero : div (of_nat 0) (of_nat 0) = NaN.
Proof. reflexivity. Qed.

Lemma this_Q2Qc (q : Q) : (this (Q2Qc q) == q)%Q.
Proof. apply Qred_correct. Qed.

Lemma Qcdiv_Q (a b : Qc) : (this (a / b)%Qc == this a / this b)%Q.
Proof. unfold Qcdiv, Qcmult, Qcinv. rewrite !this_Q2Qc. reflexivity. Qed.

Lemma ratio_Q (m n : nat) :
  (this (ratio m n) == inject_Z (Z.of_nat m) / inject_Z (Z.of_nat n))%Q.
Proof.
  unfold ratio, nat_Qc, Qcdiv, Qcmult, Qcinv. rewrite !this_Q2Qc. reflexivity.
Qed.

Lemma ratio_bounds (m n : nat) :
  (0 < n)%nat -> (m <= n)%nat -> (0 <= ratio m n)%Qc /\ (ratio m n <= 1)%Qc.
Proof.
  intros Hn Hmn. unfold Qcle. rewrite ratio_Q. cbn [this Q2Qc].
  assert (Hpos : (0 < inject_Z (Z.of_nat n))%Q).
  { rewrite <- (Zlt_Qlt 0). lia. } 
  split.
  - apply Qle_shift_div_l; [exact Hpos|]. rewrite Qmult_0_l.
    rewrite <- (Zle_Qle 0). lia.
  - apply Qle_shift_div_r; [exact Hpos|]. rewrite Qmult_1_l.
    rewrite <- Zle_Qle. lia.
Qed.

Lemma ratio_same (n : nat) : (0 < n)%nat -> ratio n n = 1%Qc.
Proof.
  intros Hn. apply Qc_is_canon. rewrite ratio_Q. cbn [this Q2Qc].
  apply Qmult_inv_r. intros H.
  change 0%Q with (inject_Z 0) in H.
  apply (proj1 (inject_Z_injective _ _)) in H. lia.
Qed.

End NumberFacts.

(** ** The confidence scorer *)
Section ConfidenceFacts.

(** The accumulating loop computes the sum of the per-document scores. *)
Lemma fold_add_sum (f : Document -> number) (docs : list Document) (acc : number) :
  List.fold_left (fun total doc => add total (f doc)) docs acc
  = add acc (sum (map f docs)).
Proof.
  revert acc. induction docs as [|doc docs IH]; intros acc; simpl.
  - now rewrite add_zero_r.
  - now rewrite IH, add_assoc.
Qed.

(** The loop body is the three-term score, with the question cut at every
    space character. *)
Lemma docScore_spec (question : string) (doc : Document) :
  docScore question doc = spec_chunk_score (split " ") question doc.
Proof.
  unfold docScore, spec_chunk_score, spec_question_words.
  fold (questionWords question).
  rewrite (mul_comm (dec 3 10)).
  destruct (includes _ (toLowerCase question)), (200 <? _)%nat;
    rewrite ?add_zero_l, ?add_zero_r; reflexivity.
Qed.

Lemma calculateConfidence_refines (question : string) (docs : list Document) :
  docs <> [] ->
  calculateConfidence question docs = spec_confidence (split " ") question docs.
Proof.
  intros Hne. unfold calculateConfidence, spec_confidence.
  destruct docs as [|doc docs]; [contradiction|].
  cbn [length Nat.eqb].
  rewrite fold_add_sum, add_zero_l.
  do 3 f_equal. apply map_ext. intros d. apply docScore_spec.
Qed.

Lemma calculateConfidence_empty (question : string) :
  calculateConfidence question [] = of_nat 0.
Proof. reflexivity. Qed.

(** Without a question word the quotient is [0 / 0]: every score is [NaN],
    and so is the confidence. *)
Lemma docScore_no_words (question : string) (doc : Document) :
  questionWords question = [] -> docScore question doc = NaN.
Proof.
  intros Hq. unfold docScore. rewrite Hq. cbn [List.filter length].
  rewrite div_zero_zero. cbn [mul].
  destruct (includes _ _), (200 <? _)%nat; reflexivity.
Qed.

Lemma add_NaN_r (x : number) : add x NaN = NaN.
Proof. destruct x; reflexivity. Qed.

Lemma sum_NaN (f : Document -> number) (docs : list Document) :
  docs <> [] -> (forall doc, f doc = NaN) -> sum (map f docs) = NaN.
Proof.
  intros Hne Hf. destruct docs as [|doc docs]; [contradiction|].
  simpl. now rewrite Hf.
Qed.

Lemma calculateConfidence_no_words (question : string) (docs : list Document) :
  docs <> [] -> questionWords question = [] ->
  calculateConfidence question docs = NaN.
Proof.
  intros Hne Hq. unfold calculateConfidence.
  destruct docs as [|doc docs]; [contradiction|].
  cbn [length Nat.eqb].
  rewrite fold_add_sum, sum_NaN, add_NaN_r; [reflexivity|discriminate|].
  intros d. now apply docScore_no_words.
Qed.

Lemma docScore_value (question : string) (doc : Document) :
  questionWords question <> [] ->
  docScore question doc = Fin (score_value question doc).
Proof.
  intros Hq. unfold docScore, score_value.
  rewrite div_of_nat by (destruct (questionWords question); [contradiction|simpl; lia]).
  rewrite of_nat_zero. unfold dec.
  destruct (includes _ (toLowerCase question)), (200 <? _)%nat;
    cbn [add mul]; f_equal; ring.
Qed.

Lemma filter_length_le {A : Type} (f : A -> bool) (l : list A) :
  (length (List.filter f l) <= length l)%nat.
Proof. induction l as [|a l IH]; simpl; [lia|]. destruct (f a); simpl; lia. Qed.

Lemma filter_all {A : Type} (f : A -> bool) (l : list A) :
  (forall a, In a l -> f a = true) -> List.filter f l = l.
Proof.
  induction l as [|a l IH]; intros H; simpl; [reflexivity|].
  rewrite (H a) by now left. f_equal. apply IH. intros b Hb. apply H. now right.
Qed.

Ltac to_Q :=
  unfold Qcle, Qclt, Qcplus, Qcmult in *; cbn [this Q2Qc] in *;
  rewrite ?Qred_correct in *.

Lemma score_value_bounds (question : string) (doc : Document) :
  questionWords question <> [] ->
  (0 <= score_value question doc)%Qc /\ (score_value question doc <= Q2Qc (8 # 10))%Qc.
Proof.
  intros Hq. unfold score_value.
  set (content := toLowerCase (pageContent doc)).
  set (matched := List.filter _ (questionWords question)).
  destruct (ratio_bounds (length matched) (length (questionWords question)))
    as [Hlo Hhi].
  { destruct (questionWords question); [contradiction|simpl; lia]. }
  { apply filter_length_le. }
  destruct (includes content _), (200 <? _)%nat; to_Q; split; lra.
Qed.

Lemma nat_Qc_succ (n : nat) : nat_Qc (S n) = (nat_Qc n + 1)%Qc.
Proof.
  apply Qc_is_canon. unfold nat_Qc. to_Q.
  rewrite Nat2Z.inj_succ, <- Z.add_1_r, inject_Z_plus. reflexivity.
Qed.

Lemma nat_Qc_pos (n : nat) : (0 < n)%nat -> (0 < nat_Qc n)%Qc.
Proof.
  intros Hn. unfold nat_Qc. to_Q. rewrite <- (Zlt_Qlt 0). lia.
Qed.

Lemma sum_scores_bounds (question : string) (docs : list Document) :
  questionWords question <> [] ->
  exists total : Qc,
    sum (map (docScore question) docs) = Fin total
    /\ (0 <= total)%Qc
    /\ (total <= Q2Qc (8 # 10) * nat_Qc (length docs))%Qc.
Proof.
  intros Hq. induction docs as [|doc docs [total [Hsum [Hlo Hhi]]]].
  - exists 0%Qc. split; [reflexivity|].
    cbn [length]. change (nat_Qc 0) with 0%Qc. split; to_Q; lra.
  - exists (score_value question doc + total)%Qc.
    cbn [map sum length]. rewrite Hsum, docScore_value by exact Hq.
    split; [reflexivity|].
    destruct (score_value_bounds question doc Hq) as [Hlo' Hhi'].
    rewrite nat_Qc_succ. split; to_Q; lra.
Qed.

(** With at least one question word the confidence is a finite value
    between 0 and 0.8, in the exact arithmetic of [JsNumber]. *)
Lemma calculateConfidence_finite (question : string) (docs : list Document) :
  questionWords question <> [] ->
  exists c : Qc,
    calculateConfidence question docs = Fin c
    /\ (0 <= c)%Qc /\ (c <= Q2Qc (8 # 10))%Qc.
Proof.
  intros Hq. destruct docs as [|doc docs].
  - exists 0%Qc. split; [reflexivity|]. split; to_Q; lra.
  - unfold calculateConfidence. cbn [length Nat.eqb].
    rewrite fold_add_sum, add_zero_l.
    destruct (sum_scores_bounds question (doc :: docs) Hq) as [total [-> [Hlo Hhi]]].
    cbn [length] in Hhi.
    set (n := S (length docs)) in *.
    assert (Hn : (0 < nat_Qc n)%Qc) by (apply nat_Qc_pos; subst n; lia).
    unfold div, of_nat. rewrite sgn_of_pos by (subst n; lia).
    assert (Hq_lo : (0 <= total / nat_Qc n)%Qc).
    { unfold Qcle. rewrite Qcdiv_Q. apply Qle_shift_div_l; [exact Hn|].
      to_Q. lra. }
    assert (Hq_hi : (total / nat_Qc n <= Q2Qc (8 # 10))%Qc).
    { unfold Qcle. rewrite Qcdiv_Q. apply Qle_shift_div_r; [exact Hn|].
      to_Q. lra. }
    exists (total / nat_Qc n)%Qc. split; [|split; assumption].
    cbn [Math_min].
    destruct (total / nat_Qc n ?= nat_Qc 1)%Qc eqn:Hcmp; try reflexivity.
    apply Qcgt_alt in Hcmp. exfalso.
    change (nat_Qc 1) with 1%Qc in Hcmp. to_Q. lra.
Qed.

Lemma calculateConfidence_single (question : string) (doc : Document) :
  questionWords question <> [] ->
  calculateConfidence question [doc] = Fin (score_value question doc).
Proof.
  intros Hq. unfold calculateConfidence. cbn [length Nat.eqb List.fold_left].
  rewrite add_zero_l, docScore_value by exact Hq.
  destruct (score_value_bounds question doc Hq) as [Hlo Hhi].
  unfold div, of_nat. change (nat_Qc 1) with 1%Qc. cbn [sgn].
  change (sgn 1%Qc) with Gt. cbn iota.
  replace (score_value question doc / 1)%Qc with (score_value question doc)
    by (field; discriminate).
  cbn [Math_min].
  destruct (score_value question doc ?= 1)%Qc eqn:Hcmp; try reflexivity.
  apply Qcgt_alt in Hcmp. exfalso. to_Q. lra.
Qed.

(** A chunk that contains the lowercased question contains every question
    word. *)
Lemma verbatim_matches_all (question : string) (doc : Document) :
  includes (toLowerCase (pageContent doc)) (toLowerCase question) = true ->
  List.filter (fun word => includes (toLowerCase (pageContent doc)) word)
              (questionWords question)
  = questionWords question.
Proof.
  intros Hin. apply filter_all. intros word Hword.
  apply includes_trans with (mid := toLowerCase question); [exact Hin|].
  now apply questionWords_included.
Qed.

Lemma verbatim_scores_higher (question : string) (verbatim unrelated : Document) :
  questionWords question <> [] ->
  includes (toLowerCase (pageContent verbatim)) (toLowerCase question) = true ->
  includes (toLowerCase (pageContent unrelated)) (toLowerCase question) = false ->
  String.length (pageContent verbatim) = String.length (pageContent unrelated) ->
  lt (calculateConfidence question [unrelated])
     (calculateConfidence question [verbatim]).
Proof.
  intros Hq Hv Hu Hlen.
  rewrite !calculateConfidence_single by exact Hq.
  cbn [lt]. unfold score_value.
  rewrite Hv, Hu, Hlen, (verbatim_matches_all question verbatim Hv).
  assert (Hn : (0 < length (questionWords question))%nat).
  { destruct (questionWords question); [contradiction|simpl; lia]. }
  rewrite (ratio_same _ Hn).
  destruct (ratio_bounds
              (length (List.filter
                         (fun word => includes (toLowerCase (pageContent unrelated)) word)
                         (questionWords question)))
              (length (questionWords question)) Hn (filter_length_le _ _))
    as [Hlo Hhi].
  destruct (200 <? _)%nat; to_Q; lra.
Qed.

End ConfidenceFacts.

(** C1.  The confidence is not always a value between 0 and 1: for a
    question none of whose space-separated pieces is longer than three
    characters, the code divides zero by zero and returns [NaN], which is
    neither at least 0 nor at most 1. *)
Theorem calculateConfidence_short_question_NaN :
  calculateConfidence "Who is it?" [mkDocument "It is Ada." ∅] = NaN
  /\ ~ (le (of_nat 0) (calculateConfidence "Who is it?" [mkDocument "It is Ada." ∅])
        /\ le (calculateConfidence "Who is it?" [mkDocument "It is Ada." ∅]) (of_nat 1)).
Proof.
  assert (H : calculateConfidence "Who is it?" [mkDocument "It is Ada." ∅] = NaN).
  { apply calculateConfidence_no_words; [discriminate | reflexivity]. }
  rewrite H. split; [reflexivity|]. intros [[] _].
Qed.

(** C6, as stated, fails: with the question cut at white space, a line
    break separates two question words, but the code cuts at the space
    character only and sees one word, so the two scores differ.  And for a
    question without a question word both scores are [NaN]: the chunk that
    contains the question does not score strictly higher. *)
Lemma calculateConfidence_whitespace_counterexample :
  calculateConfidence ("abcd" +:+ nl +:+ "efgh") [mkDocument "abcd" ∅]
  <> spec_confidence whitespace_split ("abcd" +:+ nl +:+ "efgh")
                     [mkDocument "abcd" ∅]
  /\ ~ lt (calculateConfidence "why" [mkDocument "xyz" ∅])
          (calculateConfidence "why" [mkDocument "why" ∅]).
Proof.
  split.
  - vm_compute. intros H. inversion H.
  - rewrite !calculateConfidence_no_words by (discriminate || reflexivity).
    intros [].
Qed.

(** C6, amended.  For every question with at least one piece longer than
    three characters, the pieces being those between space characters of
    the lowercased question, and every non-empty list of chunks, the
    confidence is the average of the per-chunk scores (0.4 if the
    lowercased chunk contains the lowercased question, plus 0.3 times the
    fraction of question words occurring in the lowercased chunk, plus 0.1
    if the chunk is longer than 200 characters), clamped to at most 1; and
    a chunk whose lowercased content contains the lowercased question
    scores strictly higher than a chunk of equal length that does not. *)
Theorem calculateConfidence_formula (question : string) (docs : list Document) :
  docs <> [] ->
  questionWords question <> [] ->
  calculateConfidence question docs = spec_confidence (split " ") question docs
  /\ (forall verbatim unrelated : Document,
        includes (toLowerCase (pageContent verbatim)) (toLowerCase question) = true ->
        includes (toLowerCase (pageContent unrelated)) (toLowerCase question) = false ->
        String.length (pageContent verbatim) = String.length (pageContent unrelated) ->
        lt (calculateConfidence question [unrelated])
           (calculateConfidence question [verbatim])).
Proof.
  intros Hdocs Hq. split.
  - now apply calculateConfidence_refines.
  - intros verbatim unrelated. now apply verbatim_scores_higher.
Qed.

Lemma calculateConfidence_formula_witness :
  calculateConfidence "capital of France"
    [mkDocument "Paris is the capital of France." ∅; mkDocument "Berlin" ∅]
  = spec_confidence (split " ") "capital of France"
      [mkDocument "Paris is the capital of France." ∅; mkDocument "Berlin" ∅]
  /\ (forall verbatim unrelated : Document,
        includes (toLowerCase (pageContent verbatim))
                 (toLowerCase "capital of France") = true ->
        includes (toLowerCase (pageContent unrelated))
                 (toLowerCase "capital of France") = false ->
        String.length (pageContent verbatim) = String.length (pageContent unrelated) ->
        lt (calculateConfidence "capital of France" [unrelated])
           (calculateConfidence "capital of France" [verbatim])).
Proof.
  apply (calculateConfidence_formula "capital of France"
           [mkDocument "Paris is the capital of France." ∅; mkDocument "Berlin" ∅]).
  - discriminate.
  - vm_compute. discriminate.
Defined.

(** ** What a method leaves alone, and which calls it makes *)
Section Frame.

Lemma frame_refl (P : Call -> Prop) (s : State) : frame P s s.
Proof.
  repeat split. exists []. split; [now rewrite app_nil_r | constructor].
Qed.

Lemma frame_trans (P : Call -> Prop) (s1 s2 s3 : State) :
  frame P s1 s2 -> frame P s2 s3 -> frame P s1 s3.
Proof.
  intros (Hn1 & Ho1 & new1 & Ht1 & Hp1) (Hn2 & Ho2 & new2 & Ht2 & Hp2).
  repeat split; [congruence | congruence |].
  exists (new1 ++ new2). split.
  - rewrite Ht2, Ht1. now rewrite <- app_assoc.
  - apply Forall_app. now split.
Qed.



Lemma respects_ret {A : Type} (P : Call -> Prop) (a : A) : respects P (ret a).
Proof. intros s r s' H. inversion H. apply frame_refl. Qed.

Lemma respects_throw {A : Type} (P : Call -> Prop) (e : exn) :
  respects P (@throw A e).
Proof. intros s r s' H. inversion H. apply frame_refl. Qed.

Lemma respects_get (P : Call -> Prop) : respects P get.
Proof. intros s r s' H. inversion H. apply frame_refl. Qed.

Lemma respects_modify (P : Call -> Prop) (f : State -> State) :
  (forall s, collectionName (f s) = collectionName s /\ world (f s) = world s) ->
  respects P (modify f).
Proof.
  intros Hf s r s' H. inversion H. destruct (Hf s) as [Hn Hw].
  unfold frame. rewrite Hn, Hw. repeat split.
  exists []. split; [now rewrite app_nil_r | constructor].
Qed.

Lemma respects_bind {A B : Type} (P : Call -> Prop) (m : M A) (k : A -> M B) :
  respects P m -> (forall a, respects P (k a)) -> respects P (bind m k).
Proof.
  intros Hm Hk s r s' H. unfold bind in H.
  destruct (m s) as [[e|a] s1] eqn:Hms.
  - inversion H; subst. eapply Hm; eauto.
  - eapply frame_trans; [eapply Hm; eauto | eapply Hk; eauto].
Qed.

Lemma respects_try_catch {A : Type} (P : Call -> Prop) (m : M A) (h : exn -> M A) :
  respects P m -> (forall e, respects P (h e)) -> respects P (try_catch m h).
Proof.
  intros Hm Hh s r s' H. unfold try_catch in H.
  destruct (m s) as [[e|a] s1] eqn:Hms.
  - eapply frame_trans; [eapply Hm; eauto | eapply Hh; eauto].
  - inversion H; subst. eapply Hm; eauto.
Qed.

Lemma perform_trace {A : Type} (c : Call) (natural : World -> exn + A * World)
    (w : World) (r : exn + A) (w' : World) :
  quiet natural ->
  perform c natural w = (r, w') ->
  oracle w' = oracle w /\ trace w' = trace w ++ [c].
Proof.
  intros Hq H. unfold perform in H. cbn [faults trace set_trace set_faults] in H.
  destruct (head (faults w)) as [[e|]|].
  - inversion H; subst. split; reflexivity.
  - destruct (natural _) as [e|[a w3]] eqn:Hn.
    + inversion H; subst. split; reflexivity.
    + inversion H; subst. apply Hq in Hn as [Ho Ht]. split; assumption.
  - destruct (natural _) as [e|[a w3]] eqn:Hn.
    + inversion H; subst. split; reflexivity.
    + inversion H; subst. apply Hq in Hn as [Ho Ht]. split; assumption.
Qed.

Lemma respects_io_perform {A : Type} (P : Call -> Prop) (c : Call)
    (natural : World -> exn + A * World) :
  quiet natural -> P c -> respects P (io (perform c natural)).
Proof.
  intros Hq Hc s r s' H. unfold io in H.
  destruct (perform c natural (world s)) as [r0 w'] eqn:Hp.
  inversion H; subst. apply perform_trace in Hp as [Ho Ht]; [|exact Hq].
  repeat split; try assumption.
  exists [c]. split; [exact Ht | now constructor].
Qed.

Lemma respects_io_total {A : Type} (P : Call -> Prop) (f : World -> A * World) :
  (forall w, oracle (snd (f w)) = oracle w /\ trace (snd (f w)) = trace w) ->
  respects P (io_total f).
Proof.
  intros Hf s r s' H. unfold io_total in H.
  destruct (f (world s)) as [a w'] eqn:Hfw. inversion H; subst.
  specialize (Hf (world s)). rewrite Hfw in Hf. destruct Hf as [Ho Ht].
  repeat split; try assumption.
  exists []. split; [now rewrite app_nil_r | constructor].
Qed.

End Frame.

Ltac solve_quiet :=
  let w := fresh "w" in
  let a := fresh "a" in
  let w' := fresh "w'" in
  let H := fresh "H" in
  intros w a w' H;
  repeat match type of H with
         | context [match ?x with _ => _ end] => destruct x
         end;
  inversion H; subst; split; reflexivity.

Ltac respects_step :=
  first
    [ apply respects_ret
    | apply respects_throw
    | apply respects_get
    | apply respects_modify; intros; split; reflexivity
    | apply respects_bind; [|intros ?]
    | apply respects_try_catch; [|intros ?]
    | apply respects_io_perform; [solve_quiet | exact I]
    | apply respects_io_total; intros; split; reflexivity
    | match goal with
      | |- respects _ (match ?x with _ => _ end) => destruct x
      | |- respects _ (if ?x then _ else _) => destruct x
      end ].

(** ** The calls each method makes *)
Section Calls.

Lemma respects_testQdrantConnection : respects is_init_call testQdrantConnection.
Proof. unfold testQdrantConnection, clusterStatus. repeat respects_step. Qed.

Lemma respects_detectEmbeddingDimensions :
  respects is_init_call detectEmbeddingDimensions.
Proof. unfold detectEmbeddingDimensions, embedQuery. repeat respects_step. Qed.

Lemma respects_testCollectionQuery : respects is_init_call testCollectionQuery.
Proof. unfold testCollectionQuery, query. repeat respects_step. Qed.

Lemma respects_createCollectionWithDimensions (n : nat) :
  respects is_init_call (createCollectionWithDimensions n).
Proof. unfold createCollectionWithDimensions, createCollection. repeat respects_step. Qed.

Lemma respects_recreate (n : nat) : respects is_init_call (recreate n).
Proof.
  unfold recreate, deleteCollection. repeat respects_step.
Qed.

Lemma respects_initializeCollection : respects is_init_call initializeCollection.
Proof.
  unfold initializeCollection.
  apply respects_try_catch; [|intros ?; apply respects_throw].
  apply respects_bind; [apply respects_testQdrantConnection|intros healthy].
  destruct healthy; cbn [negb]; [|apply respects_throw].
  apply respects_bind; [apply respects_detectEmbeddingDimensions|intros n].
  apply respects_bind; [apply respects_get|intros s].
  apply respects_bind; [unfold getCollections; repeat respects_step|intros names].
  apply respects_bind; [|intros ?; repeat respects_step].
  destruct (bool_decide _);
    [|apply respects_createCollectionWithDimensions].
  apply respects_try_catch; [|intros ?; apply respects_recreate].
  apply respects_bind; [unfold getCollection; repeat respects_step|intros info].
  destruct (bool_decide _); [|apply respects_recreate].
  apply respects_bind; [apply respects_testCollectionQuery|intros ok].
  destruct ok; cbn [negb]; [apply respects_ret | apply respects_recreate].
Qed.

End Calls.

(** ** Running a method step by step *)
Section Steps.

Lemma bind_inr_inv {A B : Type} (m : M A) (k : A -> M B) (s : State) (b : B)
    (s' : State) :
  bind m k s = (inr b, s') ->
  exists a s1, m s = (inr a, s1) /\ k a s1 = (inr b, s').
Proof.
  unfold bind. destruct (m s) as [[e|a] s1]; [discriminate|].
  intros H. exists a, s1. split; [reflexivity | exact H].
Qed.

Lemma try_catch_inr_inv {A : Type} (m : M A) (h : exn -> M A) (s : State) (a : A)
    (s' : State) :
  try_catch m h s = (inr a, s') ->
  m s = (inr a, s')
  \/ exists e s1, m s = (inl e, s1) /\ h e s1 = (inr a, s').
Proof.
  unfold try_catch. destruct (m s) as [[e|a0] s1]; intros H.
  - right. exists e, s1. split; [reflexivity | exact H].
  - left. exact H.
Qed.

Lemma bind_get {B : Type} (k : State -> M B) (s : State) :
  bind get k s = k s s.
Proof. reflexivity. Qed.

Lemma bind_inr {A B : Type} (m : M A) (k : A -> M B) (s : State) (a : A)
    (s1 : State) :
  m s = (inr a, s1) -> bind m k s = k a s1.
Proof. intros H. unfold bind. now rewrite H. Qed.

Lemma bind_inl {A B : Type} (m : M A) (k : A -> M B) (s : State) (e : exn)
    (s1 : State) :
  m s = (inl e, s1) -> bind m k s = (inl e, s1).
Proof. intros H. unfold bind. now rewrite H. Qed.

Lemma try_catch_inr {A : Type} (m : M A) (h : exn -> M A) (s : State) (a : A)
    (s1 : State) :
  m s = (inr a, s1) -> try_catch m h s = (inr a, s1).
Proof. intros H. unfold try_catch. now rewrite H. Qed.

Lemma try_catch_inl {A : Type} (m : M A) (h : exn -> M A) (s : State) (e : exn)
    (s1 : State) (r : (exn + A) * State) :
  m s = (inl e, s1) -> h e s1 = r -> try_catch m h s = r.
Proof. intros H Hh. unfold try_catch. now rewrite H. Qed.

Lemma io_perform_inv {A : Type} (c : Call) (natural : World -> exn + A * World)
    (s : State) (r : exn + A) (s' : State) :
  io (perform c natural) s = (r, s') ->
  (exists e, r = inl e /\ s' = set_world (logged c (world s)) s
             /\ (head (faults (world s)) = Some (Some e)
                 \/ natural (logged c (world s)) = inl e))
  \/ (exists a w', r = inr a /\ natural (logged c (world s)) = inr (a, w')
                   /\ s' = set_world w' s).
Proof.
  unfold io, perform, logged. cbn [faults trace set_trace set_faults].
  destruct (head (faults (world s))) as [[e|]|].
  - intros H. inversion H; subst. left. exists e. auto.
  - destruct (natural _) as [e|[a w']] eqn:Hn; intros H; inversion H; subst.
    + left. exists e. auto.
    + right. exists a, w'. auto.
  - destruct (natural _) as [e|[a w']] eqn:Hn; intros H; inversion H; subst.
    + left. exists e. auto.
    + right. exists a, w'. auto.
Qed.

(** What the steps of [initializeCollection] do to the collections. *)
Lemma testQdrantConnection_collections (s : State) (r : exn + bool) (s' : State) :
  testQdrantConnection s = (r, s') ->
  collections (world s') = collections (world s)
  /\ actualVectorSize s' = actualVectorSize s
  /\ exists healthy, r = inr healthy.
Proof.
  unfold testQdrantConnection, try_catch, bind, clusterStatus.
  destruct (io _ s) as [[e|[]] s1] eqn:Hio;
    apply io_perform_inv in Hio as [(e' & He & -> & _)|(a & w' & Ha & Hn & ->)];
    try discriminate; intros H; inversion H; subst; cbn.
  - eauto.
  - inversion Hn; subst. cbn. eauto.
Qed.

Lemma detectEmbeddingDimensions_inr (s : State) (n : nat) (s' : State) :
  detectEmbeddingDimensions s = (inr n, s') ->
  n = detected_width s
  /\ collections (world s') = collections (world s)
  /\ actualVectorSize s' = Some n.
Proof.
  unfold detectEmbeddingDimensions, detected_width, bind, get.
  destruct (actualVectorSize s) as [[|k]|] eqn:Hc.
  2: { intros H. inversion H; subst. auto. }
  all: unfold embedQuery;
    destruct (io _ s) as [[e|v] s1] eqn:Hio; [discriminate|];
    apply io_perform_inv in Hio as [(e' & He & _)|(a & w' & Ha & Hn & ->)];
    [discriminate|];
    inversion Ha; subst; inversion Hn; subst;
    unfold modify, ret; intros H; inversion H; subst; cbn; auto.
Qed.

Lemma getCollections_inr (s : State) (names : list string) (s' : State) :
  io getCollections s = (inr names, s') ->
  (forall name, name ∈ names <-> is_Some (collections (world s) !! name))
  /\ collections (world s') = collections (world s)
  /\ collectionName s' = collectionName s.
Proof.
  unfold getCollections. intros H.
  apply io_perform_inv in H as [(e' & He & _)|(a & w' & Ha & Hn & ->)];
    [discriminate|].
  inversion Ha; subst. inversion Hn; subst. cbn. split; [|auto].
  intros name. split.
  - intros Hin. apply list_elem_of_fmap in Hin as [[k c] [-> Hin]].
    apply elem_of_map_to_list in Hin. eauto.
  - intros [c Hc]. apply list_elem_of_fmap. exists (name, c).
    split; [reflexivity|]. now apply elem_of_map_to_list.
Qed.

Lemma getCollection_inr (name : string) (s : State) (info : CollectionInfo)
    (s' : State) :
  io (getCollection name) s = (inr info, s') ->
  (exists c, collections (world s) !! name = Some c /\ info = collection_info c)
  /\ collections (world s') = collections (world s)
  /\ collectionName s' = collectionName s
  /\ actualVectorSize s' = actualVectorSize s.
Proof.
  unfold getCollection. intros H.
  apply io_perform_inv in H as [(e' & He & _)|(a & w' & Ha & Hn & ->)];
    [discriminate|].
  inversion Ha; subst. cbn in Hn.
  destruct (collections (world s) !! name) as [c|] eqn:Hc; [|discriminate].
  inversion Hn; subst. cbn. split; [|auto]. exists c. auto.
Qed.

Lemma testCollectionQuery_collections (s : State) (r : exn + bool) (s' : State) :
  testCollectionQuery s = (r, s') ->
  collections (world s') = collections (world s)
  /\ collectionName s' = collectionName s
  /\ exists ok, r = inr ok.
Proof.
  unfold testCollectionQuery, try_catch, bind, get, query.
  destruct (io _ s) as [[e|pts] s1] eqn:Hio;
    apply io_perform_inv in Hio as [(e' & He & -> & _)|(a & w' & Ha & Hn & ->)];
    try discriminate; intros H; inversion H; subst; cbn.
  - eauto.
  - cbn in Hn. destruct (collections (world s) !! collectionName s); [|discriminate].
    destruct (decide _); [|discriminate]. inversion Hn; subst. cbn. eauto.
Qed.

Lemma createCollectionWithDimensions_inr (n : nat) (s s' : State) :
  createCollectionWithDimensions n s = (inr tt, s') ->
  collections (world s') !! collectionName s = Some (mkCollection (Some n) [])
  /\ collectionName s' = collectionName s.
Proof.
  unfold createCollectionWithDimensions, bind, get, createCollection. intros H.
  apply io_perform_inv in H as [(e' & He & _)|(a & w' & Ha & Hn & ->)];
    [discriminate|].
  cbn in Hn. destruct (collections (world s) !! collectionName s); [discriminate|].
  inversion Hn; subst. cbn. split; [apply lookup_insert_eq | reflexivity].
Qed.

Lemma recreate_inr (n : nat) (s s' : State) :
  recreate n s = (inr tt, s') ->
  collections (world s') !! collectionName s = Some (mkCollection (Some n) [])
  /\ collectionName s' = collectionName s.
Proof.
  unfold recreate. intros H.
  apply bind_inr_inv in H as (s0 & s1 & Hget & H). inversion Hget; subst.
  apply bind_inr_inv in H as ([] & s2 & Hdel & H).
  unfold deleteCollection in Hdel.
  apply io_perform_inv in Hdel as [(e' & He & _)|(a & w' & Ha & Hn & ->)];
    [discriminate|].
  apply createCollectionWithDimensions_inr in H as [Hc Hname].
  cbn in Hc, Hname. auto.
Qed.

Lemma new_calls_app (s s' : State) (calls : list Call) :
  trace (world s') = trace (world s) ++ calls -> new_calls s s' = calls.
Proof. intros H. unfold new_calls. rewrite H. apply drop_app_length. Qed.

End Steps.

(** C3.  After a successful run of [initializeCollection] the collection of
    the configured name exists in the store and the [size] of its vectors
    configuration is the width [detectEmbeddingDimensions] reported (the
    length of the probe's embedding, or the width cached from an earlier
    probe), and the vector store handle is bound to it.  If a collection of
    that name existed before with another width (or none), the collection
    now in the store is a recreated one: it has no points. *)
Theorem initializeCollection_width (s s' : State) :
  initializeCollection s = (inr tt, s') ->
  exists c,
    collections (world s') !! collectionName s = Some c
    /\ vectors_size c = Some (detected_width s)
    /\ vectorStore s' = Some (mkVectorStore (collectionName s))
    /\ (forall c0, collections (world s) !! collectionName s = Some c0 ->
                   vectors_size c0 <> Some (detected_width s) ->
                   points c = []).
Proof.
  intros H. unfold initializeCollection in H.
  apply try_catch_inr_inv in H as [H|(e & s1 & _ & H)]; [|discriminate].
  apply bind_inr_inv in H as (healthy & s1 & Hh & H).
  pose proof (respects_testQdrantConnection _ _ _ Hh) as (Hn1 & Ho1 & _).
  apply testQdrantConnection_collections in Hh as (Hc1 & Ha1 & _).
  destruct healthy; cbn [negb] in H; [|discriminate].
  apply bind_inr_inv in H as (n & s2 & Hd & H).
  pose proof (respects_detectEmbeddingDimensions _ _ _ Hd) as (Hn2 & Ho2 & _).
  apply detectEmbeddingDimensions_inr in Hd as (Hn & Hc2 & Ha2).
  assert (Hw : n = detected_width s).
  { rewrite Hn. unfold detected_width. now rewrite Ha1, Ho1. }
  clear Hn. subst n.
  apply bind_inr_inv in H as (s2' & s2'' & Hget & H).
  inversion Hget; subst s2' s2''. clear Hget.
  apply bind_inr_inv in H as (names & s3 & Hnames & H).
  apply getCollections_inr in Hnames as (Hin & Hc3 & Hn3).
  apply bind_inr_inv in H as ([] & s4 & Hbranch & H).
  inversion H; subst s'. clear H. cbn [vectorStore world set_vectorStore].
  assert (Hname : collectionName s2 = collectionName s) by congruence.
  assert (Hcols : collections (world s3) = collections (world s)) by congruence.
  rewrite Hname in *.
  set (w := detected_width s) in *.
  (* every branch ends with a fresh collection, or with the old one *)
  assert (Hpost : exists c,
             collections (world s4) !! collectionName s = Some c
             /\ vectors_size c = Some w
             /\ (points c = [] \/ collections (world s) !! collectionName s = Some c)).
  { destruct (bool_decide (collectionName s ∈ names)).
    - apply try_catch_inr_inv in Hbranch as [Hbody|(e & s5 & Hbody & Hrec)].
      + apply bind_inr_inv in Hbody as (info & s5 & Hinfo & Hbody).
        apply getCollection_inr in Hinfo as ((c0 & Hc0 & ->) & Hc5 & Hn5 & _).
        cbn [config_vectors_size collection_info] in Hbody.
        destruct (bool_decide (vectors_size c0 = Some w)) eqn:Hsize.
        * apply bool_decide_eq_true in Hsize.
          apply bind_inr_inv in Hbody as (ok & s6 & Hq & Hbody).
          apply testCollectionQuery_collections in Hq as (Hc6 & Hn6 & _).
          destruct ok; cbn [negb] in Hbody.
          -- inversion Hbody; subst s4. exists c0.
             rewrite Hc6, Hc5, Hcols. rewrite Hcols in Hc0. auto.
          -- apply recreate_inr in Hbody as [Hc _].
             rewrite ?Hn6, ?Hn5, ?Hn3, ?Hname in Hc. eexists. eauto.
        * apply recreate_inr in Hbody as [Hc _].
          rewrite ?Hn5, ?Hn3, ?Hname in Hc. eexists. eauto.
      + assert (Hframe : frame is_init_call s3 s5).
        { revert Hbody. match goal with
                        | |- ?body s3 = _ -> _ =>
                            assert (Hr : respects is_init_call body)
                              by (unfold getCollection; repeat respects_step)
                        end.
          apply Hr. }
        destruct Hframe as (Hn5 & _).
        apply recreate_inr in Hrec as [Hc _].
        rewrite ?Hn5, ?Hn3, ?Hname in Hc. eexists. eauto.
    - apply createCollectionWithDimensions_inr in Hbranch as [Hc _].
      rewrite ?Hn3, ?Hname in Hc. eexists. eauto. }
  destruct Hpost as (c & Hc & Hsize & Hfresh).
  exists c. repeat split; try assumption.
  intros c0 Hc0 Hne. destruct Hfresh as [Hp|Hold]; [exact Hp|].
  rewrite Hold in Hc0. inversion Hc0; subst. contradiction.
Qed.

Lemma initializeCollection_width_witness :
  exists c,
    collections (world (snd (initializeCollection (constructed (demo_world stale_store [])))))
      !! collectionName (constructed (demo_world stale_store [])) = Some c
    /\ vectors_size c = Some (detected_width (constructed (demo_world stale_store [])))
    /\ vectorStore (snd (initializeCollection (constructed (demo_world stale_store []))))
       = Some (mkVectorStore (collectionName (constructed (demo_world stale_store []))))
    /\ (forall c0,
          collections (world (constructed (demo_world stale_store [])))
            !! collectionName (constructed (demo_world stale_store [])) = Some c0 ->
          vectors_size c0 <> Some (detected_width (constructed (demo_world stale_store []))) ->
          points c = []).
Proof.
  apply (initializeCollection_width (constructed (demo_world stale_store []))
           (snd (initializeCollection (constructed (demo_world stale_store []))))).
  vm_compute. reflexivity.
Defined.

(** The self-healing scenario: a collection of width 256 with one point and
    a model of width 768 give a collection of width 768 without points. *)
Example initializeCollection_heals :
  collections (world (snd (initializeCollection (constructed (demo_world stale_store [])))))
    !! demo_name = Some (mkCollection (Some 768) []).
Proof. vm_compute. reflexivity. Qed.

(** A whole run on the test doubles: a document is ingested into an empty
    store, then a question is asked. *)
Example ingest_then_ask :
  let s1 := snd (processText "Paris is the capital of France." ∅
                   (constructed (demo_world ∅ []))) in
  let r := fst (askQuestion "capital of France" s1) in
  collections (world s1) !! demo_name
  = Some (mkCollection (Some 768)
            [mkDocument "Paris is the capital of France."
               {["chunkIndex" := MetaNumber 0;
                 "chunkId" := MetaString "00000000-0000-4000-8000-000000000000";
                 "timestamp" := MetaString "2024-01-01T00:00:00.000Z";
                 "source" := MetaString "uploaded_text"]}])
  /\ exists result,
       r = inr result
       /\ answer result = "Paris."
       /\ sources result = [demo_doc]
       /\ chunksUsed result = 1%nat
       /\ le (dec 7 10) (confidence result) /\ le (confidence result) (dec 7 10).
Proof.
  cbv zeta. split; [vm_compute; reflexivity|].
  eexists. split; [vm_compute; reflexivity|].
  repeat split; vm_compute; discriminate.
Qed.

(** C7.  A second [initialize] after a successful first one does nothing:
    it succeeds and returns the very state the first call left, and it
    makes no call at all, so no collection is created again. *)
Theorem initialize_idempotent (s s1 : State) :
  initialize s = (inr tt, s1) ->
  initialize s1 = (inr tt, s1)
  /\ new_calls s1 (snd (initialize s1)) = [].
Proof.
  intros H. assert (Hinit : isInitialized s1 = true).
  { unfold initialize in H.
    apply bind_inr_inv in H as (s0 & s0' & Hget & H).
    inversion Hget; subst s0 s0'. clear Hget.
    destruct (isInitialized s) eqn:Hs; cbn [negb] in H.
    - inversion H; subst. exact Hs.
    - apply try_catch_inr_inv in H as [H|(e & s2 & _ & H)]; [|discriminate].
      apply bind_inr_inv in H as ([] & s2 & _ & H).
      inversion H. reflexivity. }
  assert (Hagain : initialize s1 = (inr tt, s1)).
  { unfold initialize, bind, get. rewrite Hinit. reflexivity. }
  rewrite Hagain. split; [reflexivity|].
  apply new_calls_app. now rewrite app_nil_r.
Qed.

Lemma initialize_idempotent_witness :
  initialize (snd (initialize (constructed (demo_world stale_store []))))
  = (inr tt, snd (initialize (constructed (demo_world stale_store []))))
  /\ new_calls (snd (initialize (constructed (demo_world stale_store []))))
       (snd (initialize (snd (initialize (constructed (demo_world stale_store []))))))
     = [].
Proof.
  apply (initialize_idempotent (constructed (demo_world stale_store []))).
  vm_compute. reflexivity.
Defined.

(** C8.  [getStats] never throws, whatever the state and the fault script:
    it always returns a value.  When the service is not initialized, or
    when reading the collection fails, the value has zero counts and
    [isReady = false].  The same holds of [getCollectionStats]. *)
Theorem getStats_never_raises (s : State) :
  (exists stats s', getStats s = (inr stats, s')
     /\ (isInitialized s = false
         \/ (exists e w', getCollection (collectionName s) (world s) = (inl e, w')) ->
         totalPoints stats = 0%nat /\ vectorsCount stats = 0%nat
         /\ isReady stats = false))
  /\ (exists stats s', getCollectionStats s = (inr stats, s')
        /\ ((exists e w', getCollection (collectionName s) (world s) = (inl e, w')) ->
            totalPoints stats = 0%nat /\ vectorsCount stats = 0%nat
            /\ isReady stats = false)).
Proof.
  assert (Hstats : exists stats s', getCollectionStats s = (inr stats, s')
            /\ ((exists e w', getCollection (collectionName s) (world s) = (inl e, w')) ->
                totalPoints stats = 0%nat /\ vectorsCount stats = 0%nat
                /\ isReady stats = false)).
  { unfold getCollectionStats, try_catch, bind, get, ret, io.
    destruct (getCollection (collectionName s) (world s)) as [[e|info] w'] eqn:Hg.
    - eexists _, _. split; [reflexivity|]. intros _. cbn. auto.
    - eexists _, _. split; [reflexivity|].
      intros (e & w'' & Habs). discriminate. }
  split; [|exact Hstats].
  unfold getStats, try_catch, bind, get.
  destruct (isInitialized s) eqn:Hinit; cbn [negb].
  - destruct Hstats as (stats & s' & Hrun & Hzero). rewrite Hrun.
    exists stats, s'. split; [reflexivity|].
    intros [Habs|Hfail]; [discriminate | auto].
  - eexists _, _. split; [reflexivity|]. intros _. cbn. auto.
Qed.

(** C9, as stated, fails: a service whose vector store handle is not bound
    (right after its constructor ran) clears without deleting anything, and
    the collection stays in the store. *)
Lemma clearAll_keeps_collection_counterexample :
  fst (clearAll (constructed (demo_world full_store []))) = inr tt
  /\ collections (world (snd (clearAll (constructed (demo_world full_store [])))))
       !! demo_name = Some (mkCollection (Some 768) [demo_doc]).
Proof. vm_compute. split; reflexivity. Qed.

(** C9, amended.  After [clearAll] completes successfully the vector store
    handle, the retrieval chain, the cached width and the initialized flag
    are all cleared, for every prior state; the collection is deleted from
    the store if the vector store handle was bound before the call, and if
    it was not, no call is made and the store is left as it was. *)
Theorem clearAll_resets (s s' : State) :
  clearAll s = (inr tt, s') ->
  vectorStore s' = None
  /\ retrievalChain s' = None
  /\ actualVectorSize s' = None
  /\ isInitialized s' = false
  /\ (vectorStore s <> None -> collections (world s') !! collectionName s = None)
  /\ (vectorStore s = None -> world s' = world s).
Proof.
  intros H. unfold clearAll in H.
  apply try_catch_inr_inv in H as [H|(e & s1 & _ & H)]; [|discriminate].
  apply bind_inr_inv in H as ([] & s1 & Hclear & H).
  inversion H; subst s'. clear H.
  unfold clearDocuments in Hclear.
  apply try_catch_inr_inv in Hclear as [H|(e & s2 & _ & H)]; [|discriminate].
  apply bind_inr_inv in H as (s0 & s0' & Hget & H).
  inversion Hget; subst s0 s0'. clear Hget.
  apply bind_inr_inv in H as ([] & s2 & Hdel & H).
  inversion H; subst s1. clear H. cbn.
  repeat split.
  - intros Hbound. destruct (vectorStore s); [|contradiction].
    unfold deleteCollection in Hdel.
    apply io_perform_inv in Hdel as [(e' & He & _)|(a & w' & _ & Hn & ->)];
      [discriminate|].
    inversion Hn; subst. cbn. apply lookup_delete_eq.
  - intros Hnone. rewrite Hnone in Hdel. inversion Hdel. reflexivity.
Qed.

Lemma clearAll_resets_witness :
  vectorStore (snd (clearAll (ingested (demo_world full_store [])))) = None
  /\ retrievalChain (snd (clearAll (ingested (demo_world full_store [])))) = None
  /\ actualVectorSize (snd (clearAll (ingested (demo_world full_store [])))) = None
  /\ isInitialized (snd (clearAll (ingested (demo_world full_store [])))) = false
  /\ (vectorStore (ingested (demo_world full_store [])) <> None ->
      collections (world (snd (clearAll (ingested (demo_world full_store [])))))
        !! collectionName (ingested (demo_world full_store [])) = None)
  /\ (vectorStore (ingested (demo_world full_store [])) = None ->
      world (snd (clearAll (ingested (demo_world full_store []))))
      = world (ingested (demo_world full_store []))).
Proof.
  apply (clearAll_resets (ingested (demo_world full_store []))).
  vm_compute. reflexivity.
Defined.

Lemma io_perform_trace {A : Type} (c : Call) (natural : World -> exn + A * World)
    (s : State) (r : exn + A) (s' : State) :
  quiet natural ->
  io (perform c natural) s = (r, s') ->
  trace (world s') = trace (world s) ++ [c].
Proof.
  intros Hq H. unfold io in H.
  destruct (perform c natural (world s)) as [r0 w'] eqn:Hp.
  inversion H; subst. cbn. now apply perform_trace in Hp as [_ Ht].
Qed.

Lemma getCollectionStats_trace (s : State) (r : exn + CollectionStats) (s' : State) :
  getCollectionStats s = (r, s') ->
  trace (world s') = trace (world s) ++ [GetCollection (collectionName s)].
Proof.
  unfold getCollectionStats, try_catch, bind, get, getCollection.
  destruct (io _ s) as [[e|info] s1] eqn:Hio; intros H; inversion H; subst;
    (eapply io_perform_trace; [|exact Hio]; solve_quiet).
Qed.

(** C2, as stated, fails: with no point in the collection, [askQuestion]
    does not return a result with the not-found answer, it throws. *)
Lemma askQuestion_empty_collection_counterexample :
  fst (askQuestion "What is the capital of France?"
         (ingested (demo_world empty_store [])))
  = inl (Error "Failed to answer question: Error: No documents found in the collection. Please upload documents first.").
Proof. vm_compute. reflexivity. Qed.

(** C2, amended.  When the point count read from the collection is zero, a
    batch query fails at once with the error "No documents found in the
    collection. Please upload documents first." (wrapped by "Failed to
    answer question: "), and the only call it made is the read of the
    collection: none of the three retrieval tiers is attempted.  The result
    with confidence 0, no sources and the fixed not-found answer is what the
    query returns when the point count is not zero and retrieval finds no
    document. *)
Theorem askQuestion_empty_collection (question : string) (s : State)
    (chain : RetrievalChain) (vs : QdrantVectorStore)
    (stats : CollectionStats) (s1 : State) :
  retrievalChain s = Some chain ->
  vectorStore s = Some vs ->
  getCollectionStats s = (inr stats, s1) ->
  (totalPoints stats = 0%nat ->
   askQuestion question s
   = (inl (Error "Failed to answer question: Error: No documents found in the collection. Please upload documents first."), s1)
   /\ new_calls s s1 = [GetCollection (collectionName s)])
  /\ (totalPoints stats <> 0%nat ->
      forall s2, retrieveDocuments vs question s1 = (inr [], s2) ->
                 askQuestion question s
                 = (inr (mkQAResult not_found_answer [] (of_nat 0) 0), s2)).
Proof.
  intros Hchain Hvs Hstats.
  unfold askQuestion. rewrite bind_get, Hchain, Hvs. split.
  - intros Hzero. split.
    + apply try_catch_inl with (e := Error "No documents found in the collection. Please upload documents first.") (s1 := s1); [|reflexivity].
      rewrite (bind_inr _ _ _ _ _ Hstats), Hzero. reflexivity.
    + apply new_calls_app. eapply getCollectionStats_trace; eauto.
  - intros Hpos s2 Hret. apply try_catch_inr.
    rewrite (bind_inr _ _ _ _ _ Hstats).
    destruct (totalPoints stats) as [|n]; [contradiction|].
    cbn [Nat.eqb]. rewrite (bind_inr _ _ _ _ _ Hret). reflexivity.
Qed.

Lemma askQuestion_empty_collection_witness :
  (totalPoints (mkStats 0 0 demo_name true 768) = 0%nat ->
   askQuestion "What is the capital of France?" (ingested (demo_world empty_store []))
   = (inl (Error "Failed to answer question: Error: No documents found in the collection. Please upload documents first."),
      snd (getCollectionStats (ingested (demo_world empty_store []))))
   /\ new_calls (ingested (demo_world empty_store []))
                (snd (getCollectionStats (ingested (demo_world empty_store []))))
      = [GetCollection (collectionName (ingested (demo_world empty_store [])))])
  /\ (totalPoints (mkStats 0 0 demo_name true 768) <> 0%nat ->
      forall s2,
        retrieveDocuments (mkVectorStore demo_name) "What is the capital of France?"
          (snd (getCollectionStats (ingested (demo_world empty_store [])))) = (inr [], s2) ->
        askQuestion "What is the capital of France?" (ingested (demo_world empty_store []))
        = (inr (mkQAResult not_found_answer [] (of_nat 0) 0), s2)).
Proof.
  apply (askQuestion_empty_collection "What is the capital of France?"
           (ingested (demo_world empty_store []))
           (mkChain (mkVectorStore demo_name) 5) (mkVectorStore demo_name)
           (mkStats 0 0 demo_name true 768)
           (snd (getCollectionStats (ingested (demo_world empty_store []))))).
  - reflexivity.
  - reflexivity.
  - vm_compute. reflexivity.
Defined.

Lemma io_fields {A : Type} (f : World -> (exn + A) * World) (s : State)
    (r : exn + A) (s' : State) :
  io f s = (r, s') -> s' = set_world (world s') s.
Proof.
  unfold io. destruct (f (world s)) as [r0 w]. intros H. inversion H. reflexivity.
Qed.

Ltac quiet_trace H :=
  let Ht := fresh "Ht" in
  pose proof H as Ht;
  apply io_perform_trace in Ht; [|solve_quiet].

(** [askQuestion] around its retrieval block. *)
Lemma askQuestion_uses_retrieval (vs : QdrantVectorStore) (question : string)
    (s s0 : State) (chain : RetrievalChain) (stats : CollectionStats) :
  retrievalChain s0 = Some chain ->
  vectorStore s0 = Some vs ->
  getCollectionStats s0 = (inr stats, s) ->
  totalPoints stats <> 0%nat ->
  (forall e s', retrieveDocuments vs question s = (inl e, s') ->
     askQuestion question s0
     = (inl (Error ("Failed to answer question: " +:+ exn_toString e)), s'))
  /\ (forall docs s' r s'',
        retrieveDocuments vs question s = (inr docs, s') -> docs <> [] ->
        askQuestion question s0 = (inr r, s'') ->
        sources r = docs).
Proof.
  intros Hchain Hvs Hstats Hpos.
  destruct (totalPoints stats) as [|n] eqn:Hn; [contradiction|].
  unfold askQuestion. rewrite bind_get, Hchain, Hvs. split.
  - intros e s' Hres.
    apply try_catch_inl with (e := e) (s1 := s'); [|reflexivity].
    rewrite (bind_inr _ _ _ _ _ Hstats), Hn. cbn [Nat.eqb].
    now apply bind_inl.
  - intros docs s' r s'' Hres Hne Hask.
    apply try_catch_inr_inv in Hask as [Hask|(e & s1 & _ & Hask)]; [|discriminate].
    rewrite (bind_inr _ _ _ _ _ Hstats), Hn in Hask. cbn [Nat.eqb] in Hask.
    rewrite (bind_inr _ _ _ _ _ Hres) in Hask.
    destruct docs as [|doc docs]; [contradiction|].
    cbn [length Nat.eqb] in Hask.
    apply bind_inr_inv in Hask as (ans & s3 & _ & Hask).
    inversion Hask. reflexivity.
Qed.

Ltac fallback_case :=
  intros;
  repeat match goal with
         | H : _ /\ _ |- _ => destruct H
         | H : exists _, _ |- _ => destruct H
         | H : _ ∈ _ :: _ |- _ => apply elem_of_cons in H as [H|H]; [try discriminate H|]
         | H : _ ∈ [] |- _ => apply elem_of_nil in H; contradiction
         end;
  simplify_eq;
  try reflexivity; try congruence;
  eauto 8 using list_elem_of_here, list_elem_of_further.

(** The seven facts about the tiers, then the one about [askQuestion] and
    the two about the documents of the points. *)
Ltac tiers_cases Hask :=
  refine (conj _ (conj _ (conj _ (conj _ (conj _ (conj _ (conj _
            (conj Hask (conj (fun _ _ => eq_refl) eq_refl)))))))));
  repeat split; fallback_case.

(** C4.  The retrieval block of [askQuestion] calls the structured
    similarity search first.  The raw retriever is invoked exactly when the
    similarity search threw; the question is embedded for the direct query
    exactly when the raw retriever threw as well, and the store is queried
    directly only then.  When the direct query answers, the result of the
    block is the list of its points, one document per point and in the
    order of the points, and the document of a point has the [pageContent]
    and the [metadata] of the payload of the point as they are (the empty
    string and the empty object where the payload, or the field, is
    missing): nothing is dropped, added, reordered or rewritten.  When the
    direct query throws (at the embedding or at the query), the block
    throws "All retrieval methods failed: " followed by the string of that
    innermost error.  [askQuestion] runs the block once the point count is
    known not to be zero: the documents of the block are the sources of its
    result, and an error of the block is thrown on, wrapped by "Failed to
    answer question: ". *)
Theorem retrieveDocuments_fallback (vs : QdrantVectorStore) (question : string)
    (s : State) :
  let name := store_collection vs in
  let tier1 := io (similaritySearch name question 5) s in
  let tier2 := io (retrieverInvoke name question 5) (snd tier1) in
  let embed := io (embedQuery question) (snd tier2) in
  let result := retrieveDocuments vs question s in
  let calls := new_calls s (snd result) in
  head calls = Some (SimilaritySearch name question 5)
  /\ (forall docs, fst tier1 = inr docs ->
        result = tier1 /\ calls = [SimilaritySearch name question 5])
  /\ (RetrieverInvoke name question 5 ∈ calls <-> exists e1, fst tier1 = inl e1)
  /\ (forall e1 docs, fst tier1 = inl e1 -> fst tier2 = inr docs -> result = tier2)
  /\ (EmbedQuery question ∈ calls
      <-> (exists e1, fst tier1 = inl e1) /\ (exists e2, fst tier2 = inl e2))
  /\ (forall v l, QdrantQuery (collectionName s) v l ∈ calls ->
        (exists e1, fst tier1 = inl e1) /\ (exists e2, fst tier2 = inl e2))
  /\ (forall e1 e2, fst tier1 = inl e1 -> fst tier2 = inl e2 ->
        (forall v s3 pts s4,
            embed = (inr v, s3) ->
            io (query (collectionName s) v 5) s3 = (inr pts, s4) ->
            result = (inr (map document_of_point pts), s4))
        /\ (forall e3 s3,
              embed = (inl e3, s3) ->
              result = (inl (Error ("All retrieval methods failed: "
                                    +:+ exn_toString e3)), s3))
        /\ (forall v s3 e3 s4,
              embed = (inr v, s3) ->
              io (query (collectionName s) v 5) s3 = (inl e3, s4) ->
              result = (inl (Error ("All retrieval methods failed: "
                                    +:+ exn_toString e3)), s4)))
  /\ (forall s0 chain stats,
        retrievalChain s0 = Some chain ->
        vectorStore s0 = Some vs ->
        getCollectionStats s0 = (inr stats, s) ->
        totalPoints stats <> 0%nat ->
        (forall e s', result = (inl e, s') ->
           askQuestion question s0
           = (inl (Error ("Failed to answer question: " +:+ exn_toString e)), s'))
        /\ (forall docs s' r s'',
              result = (inr docs, s') -> docs <> [] ->
              askQuestion question s0 = (inr r, s'') ->
              sources r = docs))
  /\ (forall content entries,
        document_of_point (mkPoint (Some (mkPayload content entries)))
        = mkDocument (default EmptyString content) (default ∅ entries))
  /\ document_of_point (mkPoint None) = mkDocument EmptyString ∅.
Proof.
  cbv zeta.
  pose proof (askQuestion_uses_retrieval vs question s) as Hask.
  set (c1 := SimilaritySearch (store_collection vs) question 5).
  set (c2 := RetrieverInvoke (store_collection vs) question 5).
  destruct (io (similaritySearch (store_collection vs) question 5) s)
    as [[e1|docs1] s1] eqn:H1;
    pose proof H1 as H1'; unfold similaritySearch in H1'; quiet_trace H1';
    cbn [fst snd].
  2: { assert (Hres : retrieveDocuments vs question s = (inr docs1, s1))
         by exact (try_catch_inr _ _ _ _ _ H1).
       rewrite Hres in Hask. rewrite Hres. cbn [fst snd].
       rewrite (new_calls_app _ _ _ Ht).
       tiers_cases Hask. }
  pose proof (io_fields _ _ _ _ H1) as Hf1.
  destruct (io (retrieverInvoke (store_collection vs) question 5) s1)
    as [[e2|docs2] s2] eqn:H2;
    pose proof H2 as H2'; unfold retrieverInvoke in H2'; quiet_trace H2';
    cbn [fst snd].
  2: { assert (Hres : retrieveDocuments vs question s = (inr docs2, s2))
         by exact (try_catch_inl _ _ _ _ _ _ H1 (try_catch_inr _ _ _ _ _ H2)).
       rewrite Hres in Hask. rewrite Hres. cbn [fst snd].
       assert (Hcalls : new_calls s s2 = [c1; c2]).
       { apply new_calls_app. rewrite Ht0, Ht, <- app_assoc. reflexivity. }
       rewrite Hcalls. tiers_cases Hask. }
  pose proof (io_fields _ _ _ _ H2) as Hf2.
  assert (Hname : collectionName s2 = collectionName s).
  { rewrite Hf2, Hf1. reflexivity. }
  set (c3 := EmbedQuery question).
  destruct (io (embedQuery question) s2) as [[e3|v] s3] eqn:H3;
    pose proof H3 as H3'; unfold embedQuery in H3'; quiet_trace H3'.
  - (* the embedding throws *)
    assert (Hdirect : directQuery question s2 = (inl e3, s3)).
    { unfold directQuery. rewrite bind_get. now apply bind_inl. }
    assert (Hres : retrieveDocuments vs question s
                   = (inl (Error ("All retrieval methods failed: "
                                  +:+ exn_toString e3)), s3))
      by exact (try_catch_inl _ _ _ _ _ _ H1
                  (try_catch_inl _ _ _ _ _ _ H2
                     (try_catch_inl _ _ _ _ _ _ Hdirect eq_refl))).
    rewrite Hres in Hask. rewrite Hres. cbn [fst snd].
    assert (Hcalls : new_calls s s3 = [c1; c2; c3]).
    { apply new_calls_app. rewrite Ht1, Ht0, Ht, <- !app_assoc. reflexivity. }
    rewrite Hcalls. tiers_cases Hask.
  - (* the embedding is there: the store is queried *)
    destruct (io (query (collectionName s) v 5) s3) as [[e4|pts] s4] eqn:H4;
      pose proof H4 as H4'; unfold query in H4'; quiet_trace H4'.
    + assert (Hdirect : directQuery question s2 = (inl e4, s4)).
      { unfold directQuery. rewrite bind_get, (bind_inr _ _ _ _ _ H3), Hname.
        now apply bind_inl. }
      assert (Hres : retrieveDocuments vs question s
                     = (inl (Error ("All retrieval methods failed: "
                                    +:+ exn_toString e4)), s4))
        by exact (try_catch_inl _ _ _ _ _ _ H1
                    (try_catch_inl _ _ _ _ _ _ H2
                       (try_catch_inl _ _ _ _ _ _ Hdirect eq_refl))).
      rewrite Hres in Hask. rewrite Hres. cbn [fst snd].
      assert (Hcalls : new_calls s s4
                       = [c1; c2; c3; QdrantQuery (collectionName s) v 5]).
      { apply new_calls_app. rewrite Ht2, Ht1, Ht0, Ht, <- !app_assoc. reflexivity. }
      rewrite Hcalls. tiers_cases Hask.
    + assert (Hdirect : directQuery question s2
                        = (inr (map document_of_point pts), s4)).
      { unfold directQuery. rewrite bind_get, (bind_inr _ _ _ _ _ H3), Hname.
        now rewrite (bind_inr _ _ _ _ _ H4). }
      assert (Hres : retrieveDocuments vs question s
                     = (inr (map document_of_point pts), s4))
        by exact (try_catch_inl _ _ _ _ _ _ H1
                    (try_catch_inl _ _ _ _ _ _ H2
                       (try_catch_inr _ _ _ _ _ Hdirect))).
      rewrite Hres in Hask. rewrite Hres. cbn [fst snd].
      assert (Hcalls : new_calls s s4
                       = [c1; c2; c3; QdrantQuery (collectionName s) v 5]).
      { apply new_calls_app. rewrite Ht2, Ht1, Ht0, Ht, <- !app_assoc. reflexivity. }
      rewrite Hcalls. tiers_cases Hask.
Qed.

(** The test double of the fallback: the first two tiers throw, the third
    answers, and its point comes back as a document with the content of
    the payload. *)
Example retrieveDocuments_third_tier_double :
  fst (retrieveDocuments (mkVectorStore demo_name) "capital of France"
         (ingested (demo_world full_store
                      [Some (Error "search failed"); Some (Error "retriever failed")])))
  = inr [mkDocument "Paris is the capital of France." ∅]
  /\ new_calls
       (ingested (demo_world full_store
                    [Some (Error "search failed"); Some (Error "retriever failed")]))
       (snd (retrieveDocuments (mkVectorStore demo_name) "capital of France"
               (ingested (demo_world full_store
                            [Some (Error "search failed"); Some (Error "retriever failed")]))))
     = [SimilaritySearch demo_name "capital of France" 5;
        RetrieverInvoke demo_name "capital of France" 5;
        EmbedQuery "capital of France";
        QdrantQuery demo_name (repeat (dec 1 10) 768) 5].
Proof. split; vm_compute; reflexivity. Qed.

(** ** Counting upserts *)

Section Upserts.

Lemma upserts_app (l1 l2 : list Call) :
  upserts (l1 ++ l2) = (upserts l1 + upserts l2)%nat.
Proof. unfold upserts. now rewrite List.filter_app, length_app. Qed.

Lemma upserts_not_upsert (calls : list Call) :
  Forall not_upsert calls -> upserts calls = 0%nat.
Proof.
  induction 1 as [|c calls Hc _ IH]; [reflexivity|].
  unfold upserts in *. destruct c; cbn in *; try exact IH. contradiction.
Qed.

Lemma at_most_respects {A : Type} (P : Call -> Prop) (m : M A) :
  (forall c, P c -> not_upsert c) -> respects P m -> at_most 0 m.
Proof.
  intros HP Hm s r s' H. apply Hm in H as (_ & _ & calls & Ht & Hall).
  exists calls. split; [exact Ht|].
  rewrite upserts_not_upsert; [lia|]. eapply Forall_impl; eauto.
Qed.

Lemma at_most_weaken {A : Type} (n n' : nat) (m : M A) :
  (n <= n')%nat -> at_most n m -> at_most n' m.
Proof.
  intros Hle Hm s r s' H. apply Hm in H as (calls & Ht & Hn).
  exists calls. split; [exact Ht | lia].
Qed.

Lemma at_most_bind {A B : Type} (n1 n2 : nat) (m : M A) (k : A -> M B) :
  at_most n1 m -> (forall a, at_most n2 (k a)) -> at_most (n1 + n2) (bind m k).
Proof.
  intros Hm Hk s r s' H. unfold bind in H.
  destruct (m s) as [[e|a] s1] eqn:Hms.
  - inversion H; subst. apply Hm in Hms as (calls & Ht & Hn).
    exists calls. split; [exact Ht | lia].
  - apply Hm in Hms as (calls1 & Ht1 & Hn1).
    apply Hk in H as (calls2 & Ht2 & Hn2).
    exists (calls1 ++ calls2). split.
    + rewrite Ht2, Ht1. now rewrite <- app_assoc.
    + rewrite upserts_app. lia.
Qed.

Lemma at_most_try_catch {A : Type} (n1 n2 : nat) (m : M A) (h : exn -> M A) :
  at_most n1 m -> (forall e, at_most n2 (h e)) ->
  at_most (n1 + n2) (try_catch m h).
Proof.
  intros Hm Hh s r s' H. unfold try_catch in H.
  destruct (m s) as [[e|a] s1] eqn:Hms.
  - apply Hm in Hms as (calls1 & Ht1 & Hn1).
    apply Hh in H as (calls2 & Ht2 & Hn2).
    exists (calls1 ++ calls2). split.
    + rewrite Ht2, Ht1. now rewrite <- app_assoc.
    + rewrite upserts_app. lia.
  - inversion H; subst. apply Hm in Hms as (calls & Ht & Hn).
    exists calls. split; [exact Ht | lia].
Qed.

Lemma is_init_call_not_upsert (c : Call) : is_init_call c -> not_upsert c.
Proof. destruct c; cbn; auto. Qed.

Lemma at_most_initializeCollection : at_most 0 initializeCollection.
Proof.
  eapply at_most_respects;
    [apply is_init_call_not_upsert | apply respects_initializeCollection].
Qed.

Lemma at_most_vectorStore_addDocuments (documents : list Document) :
  at_most 1 (vectorStore_addDocuments documents).
Proof.
  intros s r s' H. unfold vectorStore_addDocuments in H.
  rewrite bind_get in H. destruct (vectorStore s) as [vs|].
  - unfold addDocuments in H. apply io_perform_trace in H; [|solve_quiet].
    eexists. split; [exact H|]. cbn. lia.
  - inversion H; subst. exists []. split; [now rewrite app_nil_r | cbn; lia].
Qed.

Lemma at_most_modify (f : State -> State) :
  (forall s, world (f s) = world s) -> at_most 0 (modify f).
Proof.
  intros Hf s r s' H. inversion H; subst. rewrite Hf.
  exists []. split; [now rewrite app_nil_r | cbn; lia].
Qed.

Lemma at_most_throw {A : Type} (e : exn) : at_most 0 (@throw A e).
Proof.
  intros s r s' H. inversion H; subst.
  exists []. split; [now rewrite app_nil_r | cbn; lia].
Qed.

Lemma at_most_addDocumentsWithRecovery (documents : list Document) :
  at_most 2 (addDocumentsWithRecovery documents).
Proof.
  unfold addDocumentsWithRecovery.
  change 2%nat with (1 + 1)%nat.
  apply at_most_try_catch; [apply at_most_vectorStore_addDocuments|].
  intros e. destruct (error_message_includes e "dimension").
  - change 1%nat with (0 + (0 + (0 + 1)))%nat.
    apply at_most_bind; [now apply at_most_modify|intros _].
    apply at_most_bind; [now apply at_most_modify|intros _].
    apply at_most_bind; [apply at_most_initializeCollection|intros _].
    apply at_most_vectorStore_addDocuments.
  - eapply at_most_weaken; [|apply at_most_throw]. lia.
Qed.

Lemma respects_build_documents (metadata : gmap string MetaValue) (index : nat)
    (chunks : list string) :
  respects not_upsert (build_documents metadata index chunks).
Proof.
  revert index. induction chunks as [|chunk chunks IH]; intros index; cbn.
  - apply respects_ret.
  - unfold uuidv4, now_iso. repeat respects_step. apply IH.
Qed.

Lemma respects_createRetrievalChain : respects not_upsert createRetrievalChain.
Proof. unfold createRetrievalChain, createChain. repeat respects_step. Qed.

Lemma at_most_prepareDocuments (text : string) (metadata : gmap string MetaValue) :
  at_most 0 (prepareDocuments text metadata).
Proof.
  unfold prepareDocuments.
  change 0%nat with (0 + (0 + 0))%nat.
  apply at_most_bind;
    [apply (at_most_respects not_upsert); [auto|apply respects_get]|intros s].
  apply at_most_bind.
  { destruct (vectorStore s).
    - apply (at_most_respects not_upsert); [auto|apply respects_ret].
    - apply at_most_initializeCollection. }
  intros _. destruct (is_blank text); [apply at_most_throw|].
  apply (at_most_respects not_upsert); [auto|].
  unfold splitText. repeat respects_step. apply respects_build_documents.
Qed.

Lemma at_most_processText (text : string) (metadata : gmap string MetaValue) :
  at_most 2 (processText text metadata).
Proof.
  unfold processText.
  change 2%nat with ((0 + (2 + 0)) + 0)%nat.
  apply at_most_try_catch; [|intros e; apply at_most_throw].
  apply at_most_bind; [apply at_most_prepareDocuments|intros documents].
  apply at_most_bind; [apply at_most_addDocumentsWithRecovery|intros _].
  apply (at_most_respects not_upsert); [auto|].
  apply respects_createRetrievalChain.
Qed.

Lemma at_most_new_calls {A : Type} (n : nat) (m : M A) (s : State) :
  at_most n m -> (upserts (new_calls s (snd (m s))) <= n)%nat.
Proof.
  intros Hm. destruct (m s) as [r s'] eqn:Hms.
  apply Hm in Hms as (calls & Ht & Hn).
  cbn [snd]. now rewrite (new_calls_app _ _ _ Ht).
Qed.

End Upserts.

(** C5.  In the upsert block of [processText]: if the first
    [addDocuments] succeeds, or throws something that is not an [Error]
    whose message contains "dimension", the block ends as that call ended,
    with no retry.  If it throws such an [Error], the store handle and the
    cached width are cleared and [initializeCollection] runs once; if that
    throws, the block throws the same; if it succeeds, [addDocuments] runs
    once more and the block ends as this second call ends.  In no run does
    the block, or the whole of [processText], upsert more than twice, and
    what the block throws [processText] throws on, wrapped by "Failed to
    process text: ". *)
Theorem addDocuments_single_repair (documents : list Document) (s : State) :
  let first := vectorStore_addDocuments documents s in
  let cleared := set_actualVectorSize None (set_vectorStore None (snd first)) in
  let reinit := initializeCollection cleared in
  let result := addDocumentsWithRecovery documents s in
  (forall u, fst first = inr u -> result = first)
  /\ (forall e, fst first = inl e ->
        error_message_includes e "dimension" = false -> result = first)
  /\ (forall e, fst first = inl e ->
        error_message_includes e "dimension" = true ->
        (forall e', fst reinit = inl e' -> result = reinit)
        /\ (forall u, fst reinit = inr u ->
              result = vectorStore_addDocuments documents (snd reinit)))
  /\ (upserts (new_calls s (snd result)) <= 2)%nat
  /\ (forall text metadata s0,
        prepareDocuments text metadata s0 = (inr documents, s) ->
        (forall e s', result = (inl e, s') ->
           processText text metadata s0
           = (inl (Error ("Failed to process text: " +:+ exn_toString e)), s'))
        /\ (upserts (new_calls s0 (snd (processText text metadata s0))) <= 2)%nat).
Proof.
  cbv zeta.
  destruct (vectorStore_addDocuments documents s) as [r s1] eqn:H1.
  cbn [fst snd].
  split; [|split; [|split; [|split]]].
  - intros u ->. unfold addDocumentsWithRecovery. now apply try_catch_inr.
  - intros e -> Hdim. unfold addDocumentsWithRecovery.
    eapply try_catch_inl; [exact H1|]. now rewrite Hdim.
  - intros e -> Hdim.
    assert (Hrun : addDocumentsWithRecovery documents s
                   = (initializeCollection ;; vectorStore_addDocuments documents)
                       (set_actualVectorSize None (set_vectorStore None s1))).
    { unfold addDocumentsWithRecovery.
      eapply try_catch_inl; [exact H1|]. rewrite Hdim. reflexivity. }
    rewrite Hrun.
    destruct (initializeCollection _) as [r2 s2] eqn:H2. cbn [fst snd].
    split.
    + intros e' ->. now apply bind_inl.
    + intros u ->. now rewrite (bind_inr _ _ _ _ _ H2).
  - apply (at_most_new_calls 2 (addDocumentsWithRecovery documents) s).
    apply at_most_addDocumentsWithRecovery.
  - intros text metadata s0 Hprep. split.
    + intros e s' Hres. unfold processText.
      eapply try_catch_inl; [|reflexivity].
      rewrite (bind_inr _ _ _ _ _ Hprep). apply bind_inl. exact Hres.
    + apply at_most_new_calls, at_most_processText.
Qed.

(** ** The streamed fragments *)

Lemma join_objects_empty (parts : list ContentPart) :
  join "," (map (fun _ => "[object Object]") parts) = "" -> parts = [].
Proof.
  destruct parts as [|p [|q parts]]; cbn; [reflexivity|discriminate|discriminate].
Qed.

(** C10, as stated, fails: an empty array is truthy, so it is not dropped,
    and its string coercion is the empty string. *)
Lemma convertStream_empty_fragment_counterexample :
  convertStreamToStringIterable [ContentString "Par"; ContentParts []; ContentString "is."]
  = ["Par"; ""; "is."].
Proof. reflexivity. Qed.

(** C10, amended.  The fragments yielded are, in order, those of the
    chunks: a chunk whose content is falsy (the empty string, or no content)
    yields nothing, a non-empty string yields itself, and an array, which is
    always truthy, yields its string coercion.  A yielded fragment is empty
    only if the stream holds an empty array; every fragment that comes
    from a string is non-empty. *)
Theorem convertStream_fragments (stream : list MessageContent) :
  convertStreamToStringIterable stream = omap fragment_of stream
  /\ (forall fragment,
        fragment ∈ convertStreamToStringIterable stream ->
        fragment = "" -> ContentParts [] ∈ stream)
  /\ (forall s rest,
        convertStreamToStringIterable (ContentString s :: rest)
        = if decide (s = "") then convertStreamToStringIterable rest
          else s :: convertStreamToStringIterable rest).
Proof.
  assert (Hmap : forall l, convertStreamToStringIterable l = omap fragment_of l).
  { induction l as [|chunk rest IH]; [reflexivity|].
    cbn [convertStreamToStringIterable]. rewrite IH.
    destruct chunk as [[|c s]|parts|]; reflexivity. }
  split; [apply Hmap|]. split.
  - intros fragment Hin Hempty. rewrite Hmap in Hin.
    apply list_elem_of_omap in Hin as (chunk & Hchunk & Hfrag).
    destruct chunk as [[|c s]|parts|]; cbn in Hfrag; simplify_eq.
    match goal with
    | H : join _ _ = _ |- _ => apply join_objects_empty in H; now subst
    | H : _ = join _ _ |- _ =>
        symmetry in H; apply join_objects_empty in H; now subst
    end.
  - intros s rest. destruct s as [|c s]; reflexivity.
Qed.

(** ** Relations that every run of a method keeps *)
Section Stable.

Context (R : State -> State -> Prop).
Hypothesis R_refl : forall s, R s s.
Hypothesis R_trans : forall s1 s2 s3, R s1 s2 -> R s2 s3 -> R s1 s3.

Lemma stable_ret {A : Type} (a : A) : stable R (ret a).
Proof. intros s r s' H. inversion H. apply R_refl. Qed.

Lemma stable_throw {A : Type} (e : exn) : stable R (@throw A e).
Proof. intros s r s' H. inversion H. apply R_refl. Qed.

Lemma stable_get : stable R get.
Proof. intros s r s' H. inversion H. apply R_refl. Qed.

Lemma stable_modify (f : State -> State) :
  (forall s, R s (f s)) -> stable R (modify f).
Proof. intros Hf s r s' H. inversion H. apply Hf. Qed.

Lemma stable_bind {A B : Type} (m : M A) (k : A -> M B) :
  stable R m -> (forall a, stable R (k a)) -> stable R (bind m k).
Proof.
  intros Hm Hk s r s' H. unfold bind in H.
  destruct (m s) as [[e|a] s1] eqn:Hms.
  - inversion H; subst. eapply Hm; eauto.
  - eapply R_trans; [eapply Hm; eauto | eapply Hk; eauto].
Qed.

Lemma stable_try_catch {A : Type} (m : M A) (h : exn -> M A) :
  stable R m -> (forall e, stable R (h e)) -> stable R (try_catch m h).
Proof.
  intros Hm Hh s r s' H. unfold try_catch in H.
  destruct (m s) as [[e|a] s1] eqn:Hms.
  - eapply R_trans; [eapply Hm; eauto | eapply Hh; eauto].
  - inversion H; subst. eapply Hm; eauto.
Qed.

End Stable.

Lemma same_fields_refl (s : State) : same_fields s s.
Proof. destruct s. reflexivity. Qed.

Lemma same_fields_trans (s1 s2 s3 : State) :
  same_fields s1 s2 -> same_fields s2 s3 -> same_fields s1 s3.
Proof. unfold same_fields. intros H12 H23. rewrite H23, H12. reflexivity. Qed.

Lemma untouched_refl (s : State) : untouched s s.
Proof. split; [apply same_fields_refl | reflexivity]. Qed.

Lemma untouched_trans (s1 s2 s3 : State) :
  untouched s1 s2 -> untouched s2 s3 -> untouched s1 s3.
Proof.
  intros [Hf12 Hc12] [Hf23 Hc23]. split.
  - eapply same_fields_trans; eauto.
  - congruence.
Qed.

Lemma same_chain_refl (s : State) : same_chain s s.
Proof. repeat split. Qed.

Lemma same_chain_trans (s1 s2 s3 : State) :
  same_chain s1 s2 -> same_chain s2 s3 -> same_chain s1 s3.
Proof.
  intros (Hn1 & Hr1 & Hi1 & Ho1) (Hn2 & Hr2 & Hi2 & Ho2).
  repeat split; congruence.
Qed.

(** A call that only reads the store leaves the state untouched. *)
Lemma untouched_io_perform {A : Type} (c : Call)
    (natural : World -> exn + A * World) :
  reads_only natural -> stable untouched (io (perform c natural)).
Proof.
  intros Hread s r s' H.
  apply io_perform_inv in H as [(e & _ & -> & _)|(a & w' & _ & Hn & ->)].
  - split; reflexivity.
  - split; [reflexivity|]. apply Hread in Hn. exact Hn.
Qed.

Lemma same_chain_io_perform {A : Type} (c : Call)
    (natural : World -> exn + A * World) :
  quiet natural -> stable same_chain (io (perform c natural)).
Proof.
  intros Hq s r s' H. pose proof H as Hio. unfold io in Hio.
  destruct (perform c natural (world s)) as [r0 w'] eqn:Hp.
  inversion Hio; subst. apply perform_trace in Hp as [Ho _]; [|exact Hq].
  repeat split. exact Ho.
Qed.

Ltac solve_reads_only :=
  let w := fresh "w" in
  let a := fresh "a" in
  let w' := fresh "w'" in
  let H := fresh "H" in
  intros w a w' H;
  repeat match type of H with
         | context [match ?x with _ => _ end] => destruct x
         end;
  inversion H; subst; reflexivity.

Ltac untouched_step :=
  first
    [ apply (stable_ret untouched untouched_refl)
    | apply (stable_throw untouched untouched_refl)
    | apply (stable_get untouched untouched_refl)
    | apply (stable_bind untouched untouched_trans); [|intros ?]
    | apply (stable_try_catch untouched untouched_trans); [|intros ?]
    | apply untouched_io_perform; solve_reads_only
    | match goal with
      | |- stable _ (match ?x with _ => _ end) => destruct x
      | |- stable _ (if ?x then _ else _) => destruct x
      end ].

Ltac same_chain_step :=
  first
    [ apply (stable_ret same_chain same_chain_refl)
    | apply (stable_throw same_chain same_chain_refl)
    | apply (stable_get same_chain same_chain_refl)
    | apply (stable_modify same_chain); intros; repeat split
    | apply (stable_bind same_chain same_chain_trans); [|intros ?]
    | apply (stable_try_catch same_chain same_chain_trans); [|intros ?]
    | apply same_chain_io_perform; solve_quiet
    | match goal with
      | |- stable _ (match ?x with _ => _ end) => destruct x
      | |- stable _ (if ?x then _ else _) => destruct x
      end ].

Lemma untouched_getCollectionStats : stable untouched getCollectionStats.
Proof. unfold getCollectionStats, getCollection. repeat untouched_step. Qed.

Lemma untouched_directQuery (question : string) :
  stable untouched (directQuery question).
Proof. unfold directQuery, embedQuery, query. repeat untouched_step. Qed.

Lemma untouched_retrieveDocuments (vs : QdrantVectorStore) (question : string) :
  stable untouched (retrieveDocuments vs question).
Proof.
  unfold retrieveDocuments, similaritySearch, retrieverInvoke.
  repeat untouched_step; apply untouched_directQuery.
Qed.

Lemma untouched_askQuestion (question : string) :
  stable untouched (askQuestion question).
Proof.
  unfold askQuestion.
  apply (stable_bind untouched untouched_trans);
    [apply (stable_get untouched untouched_refl)|intros s].
  destruct (retrievalChain s), (vectorStore s);
    try apply (stable_throw untouched untouched_refl).
  apply (stable_try_catch untouched untouched_trans);
    [|intros e; apply (stable_throw untouched untouched_refl)].
  apply (stable_bind untouched untouched_trans);
    [apply untouched_getCollectionStats|intros stats].
  destruct (totalPoints stats =? 0)%nat;
    [apply (stable_throw untouched untouched_refl)|].
  apply (stable_bind untouched untouched_trans);
    [apply untouched_retrieveDocuments|intros docs].
  destruct (length docs =? 0)%nat;
    [apply (stable_ret untouched untouched_refl)|].
  unfold chainInvoke, llmInvoke. repeat untouched_step.
Qed.

Lemma untouched_askQuestionStream (question : string) :
  stable untouched (askQuestionStream question).
Proof.
  unfold askQuestionStream.
  apply (stable_bind untouched untouched_trans);
    [apply (stable_get untouched untouched_refl)|intros s].
  destruct (vectorStore s); [|apply (stable_throw untouched untouched_refl)].
  apply (stable_bind untouched untouched_trans).
  - unfold similaritySearch, retrieverInvoke.
    repeat untouched_step; apply untouched_directQuery.
  - intros docs. unfold llmStream. repeat untouched_step.
Qed.

Lemma untouched_getStats : stable untouched getStats.
Proof.
  unfold getStats.
  apply (stable_try_catch untouched untouched_trans);
    [|intros e; apply (stable_ret untouched untouched_refl)].
  apply (stable_bind untouched untouched_trans);
    [apply (stable_get untouched untouched_refl)|intros s].
  destruct (negb (isInitialized s));
    [apply (stable_ret untouched untouched_refl)|].
  apply untouched_getCollectionStats.
Qed.

Lemma respects_new_calls {A : Type} (P : Call -> Prop) (m : M A) (s : State) :
  respects P m -> Forall P (new_calls s (snd (m s))).
Proof.
  intros Hm. destruct (m s) as [r s'] eqn:Hrun.
  apply Hm in Hrun as (_ & _ & calls & Ht & Hall).
  cbn [snd]. now rewrite (new_calls_app _ _ _ Ht).
Qed.

Lemma respects_getCollectionStats : respects is_read_call getCollectionStats.
Proof. unfold getCollectionStats, getCollection. repeat respects_step. Qed.

Lemma respects_retrieveDocuments (vs : QdrantVectorStore) (question : string) :
  respects is_read_call (retrieveDocuments vs question).
Proof.
  unfold retrieveDocuments, directQuery, similaritySearch, retrieverInvoke,
    embedQuery, query.
  repeat respects_step.
Qed.

Lemma respects_askQuestion (question : string) :
  respects is_read_call (askQuestion question).
Proof.
  unfold askQuestion.
  apply respects_bind; [apply respects_get|intros s].
  destruct (retrievalChain s), (vectorStore s); try apply respects_throw.
  apply respects_try_catch; [|intros e; apply respects_throw].
  apply respects_bind; [apply respects_getCollectionStats|intros stats].
  destruct (totalPoints stats =? 0)%nat; [apply respects_throw|].
  apply respects_bind; [apply respects_retrieveDocuments|intros docs].
  destruct (length docs =? 0)%nat; [apply respects_ret|].
  unfold chainInvoke, llmInvoke. repeat respects_step.
Qed.

Lemma respects_getStats : respects is_read_call getStats.
Proof.
  unfold getStats.
  apply respects_try_catch; [|intros e; apply respects_ret].
  apply respects_bind; [apply respects_get|intros s].
  destruct (negb (isInitialized s)); [apply respects_ret|].
  apply respects_getCollectionStats.
Qed.

(** X1.  Asking a question and reading the statistics never change the
    service or the store.  Whatever the fault script and however the call
    ends, the calls made are reads (no collection is created or deleted, no
    point is upserted), and the fields of the service (store handle, chain,
    cached width, initialized flag) and the collections of the store are
    afterwards what they were before. *)
Theorem queries_leave_state_untouched (question : string) (s : State) :
  (untouched s (snd (askQuestion question s))
   /\ Forall is_read_call (new_calls s (snd (askQuestion question s))))
  /\ (untouched s (snd (getCollectionStats s))
      /\ Forall is_read_call (new_calls s (snd (getCollectionStats s))))
  /\ (untouched s (snd (getStats s))
      /\ Forall is_read_call (new_calls s (snd (getStats s)))).
Proof.
  split; [|split]; split.
  - destruct (askQuestion question s) as [r s'] eqn:Hrun.
    exact (untouched_askQuestion question _ _ _ Hrun).
  - apply respects_new_calls, respects_askQuestion.
  - destruct (getCollectionStats s) as [r s'] eqn:Hrun.
    exact (untouched_getCollectionStats _ _ _ Hrun).
  - apply respects_new_calls, respects_getCollectionStats.
  - destruct (getStats s) as [r s'] eqn:Hrun.
    exact (untouched_getStats _ _ _ Hrun).
  - apply respects_new_calls, respects_getStats.
Qed.

(** ** Collection initialization, case by case *)
Section Initialization.

Lemma bind_inl_inv {A B : Type} (m : M A) (k : A -> M B) (s : State) (e : exn)
    (s' : State) :
  bind m k s = (inl e, s') ->
  m s = (inl e, s')
  \/ exists a s1, m s = (inr a, s1) /\ k a s1 = (inl e, s').
Proof.
  unfold bind. destruct (m s) as [[e0|a] s1]; intros H.
  - left. inversion H. reflexivity.
  - right. exists a, s1. split; [reflexivity | exact H].
Qed.

Lemma same_handle_refl (s : State) : same_handle s s.
Proof. split; [reflexivity | apply same_chain_refl]. Qed.

Lemma same_handle_trans (s1 s2 s3 : State) :
  same_handle s1 s2 -> same_handle s2 s3 -> same_handle s1 s3.
Proof.
  intros [Hv1 Hc1] [Hv2 Hc2]. split; [congruence|].
  eapply same_chain_trans; eauto.
Qed.

Lemma same_handle_io_perform {A : Type} (c : Call)
    (natural : World -> exn + A * World) :
  quiet natural -> stable same_handle (io (perform c natural)).
Proof.
  intros Hq s r s' H. split.
  - apply io_fields in H. rewrite H. reflexivity.
  - eapply same_chain_io_perform; eauto.
Qed.

Ltac same_handle_step :=
  first
    [ apply (stable_ret same_handle same_handle_refl)
    | apply (stable_throw same_handle same_handle_refl)
    | apply (stable_get same_handle same_handle_refl)
    | apply (stable_modify same_handle); intros; repeat split
    | apply (stable_bind same_handle same_handle_trans); [|intros ?]
    | apply (stable_try_catch same_handle same_handle_trans); [|intros ?]
    | apply same_handle_io_perform; solve_quiet
    | match goal with
      | |- stable _ (match ?x with _ => _ end) => destruct x
      | |- stable _ (if ?x then _ else _) => destruct x
      end ].

Lemma same_handle_testQdrantConnection : stable same_handle testQdrantConnection.
Proof. unfold testQdrantConnection, clusterStatus. repeat same_handle_step. Qed.

Lemma same_handle_detectEmbeddingDimensions :
  stable same_handle detectEmbeddingDimensions.
Proof. unfold detectEmbeddingDimensions, embedQuery. repeat same_handle_step. Qed.

Lemma same_handle_recreate (n : nat) : stable same_handle (recreate n).
Proof.
  unfold recreate, createCollectionWithDimensions, deleteCollection, createCollection.
  repeat same_handle_step.
Qed.

Lemma same_handle_createCollectionWithDimensions (n : nat) :
  stable same_handle (createCollectionWithDimensions n).
Proof.
  unfold createCollectionWithDimensions, createCollection.
  repeat same_handle_step.
Qed.

Lemma same_handle_testCollectionQuery : stable same_handle testCollectionQuery.
Proof. unfold testCollectionQuery, query. repeat same_handle_step. Qed.

Lemma same_chain_initializeCollection : stable same_chain initializeCollection.
Proof.
  unfold initializeCollection, testQdrantConnection, detectEmbeddingDimensions,
    testCollectionQuery, recreate, createCollectionWithDimensions,
    clusterStatus, embedQuery, getCollections, getCollection, query,
    deleteCollection, createCollection.
  repeat same_chain_step.
Qed.

(** What a failed [initializeCollection] leaves. *)
Lemma initializeCollection_inl (s : State) (e : exn) (s' : State) :
  initializeCollection s = (inl e, s') ->
  (exists cause,
      e = Error ("Failed to initialize collection: " +:+ exn_toString cause))
  /\ same_handle s s'.
Proof.
  intros H. unfold initializeCollection in H. unfold try_catch at 1 in H.
  match type of H with
  | (let (_, _) := ?body s in _) = _ => destruct (body s) as [[cause|[]] s1] eqn:Hbody
  end; [|discriminate].
  inversion H; subst e s'. clear H. split; [eauto|].
  apply bind_inl_inv in Hbody as [Hbody|(healthy & s2 & Hh & Hbody)].
  { now apply same_handle_testQdrantConnection in Hbody. }
  apply same_handle_testQdrantConnection in Hh.
  eapply same_handle_trans; [exact Hh|].
  destruct healthy; cbn [negb] in Hbody.
  2: { inversion Hbody. apply same_handle_refl. }
  apply bind_inl_inv in Hbody as [Hbody|(n & s3 & Hd & Hbody)].
  { now apply same_handle_detectEmbeddingDimensions in Hbody. }
  apply same_handle_detectEmbeddingDimensions in Hd.
  eapply same_handle_trans; [exact Hd|].
  rewrite bind_get in Hbody.
  apply bind_inl_inv in Hbody as [Hbody|(names & s4 & Hnames & Hbody)].
  { revert Hbody. apply same_handle_io_perform. solve_quiet. }
  assert (Hn4 : same_handle s3 s4).
  { revert Hnames. apply same_handle_io_perform. solve_quiet. }
  eapply same_handle_trans; [exact Hn4|].
  apply bind_inl_inv in Hbody as [Hbody|(u & s5 & _ & Hbody)];
    [|discriminate].
  revert Hbody.
  match goal with
  | |- ?branch s4 = _ -> _ => assert (Hr : stable same_handle branch)
  end.
  { destruct (bool_decide _).
    - unfold getCollection.
      repeat first [ apply same_handle_recreate
                   | apply same_handle_testCollectionQuery
                   | same_handle_step ].
    - apply same_handle_createCollectionWithDimensions. }
  apply Hr.
Qed.

(** What the steps of a successful [initializeCollection] add to the
    trace. *)
Lemma testQdrantConnection_trace (s : State) (r : exn + bool) (s' : State) :
  testQdrantConnection s = (r, s') ->
  trace (world s') = trace (world s) ++ [ClusterStatus].
Proof.
  unfold testQdrantConnection, try_catch, bind, clusterStatus.
  destruct (io _ s) as [[e|[]] s1] eqn:Hio; intros H; inversion H; subst;
    (eapply io_perform_trace; [|exact Hio]; solve_quiet).
Qed.

Lemma detectEmbeddingDimensions_trace (s : State) (n : nat) (s' : State) :
  detectEmbeddingDimensions s = (inr n, s') ->
  trace (world s') = trace (world s) ++ probe_calls s.
Proof.
  unfold detectEmbeddingDimensions, probe_calls. rewrite bind_get.
  destruct (actualVectorSize s) as [[|k]|].
  2: { intros H. inversion H. now rewrite app_nil_r. }
  all: intros H; apply bind_inr_inv in H as (v & s1 & Hio & H);
    unfold embedQuery in Hio; apply io_perform_trace in Hio; [|solve_quiet];
    apply bind_inr_inv in H as ([] & s2 & Hm & H);
    inversion Hm; inversion H; subst; exact Hio.
Qed.

End Initialization.

(** X2.  When the health check of the store fails, [initializeCollection]
    stops there: the only call made is the cluster status request, no
    embedding is probed, no collection is read, created or deleted, and
    the error thrown is always "Failed to initialize collection: Error:
    Qdrant server is not accessible or healthy", whatever the store's own
    error was. *)
Theorem initializeCollection_unhealthy (s : State) (e : exn) :
  head (faults (world s)) = Some (Some e) ->
  initializeCollection s
  = (inl (Error "Failed to initialize collection: Error: Qdrant server is not accessible or healthy"),
     set_world (logged ClusterStatus (world s)) s)
  /\ new_calls s (snd (initializeCollection s)) = [ClusterStatus]
  /\ collections (world (snd (initializeCollection s))) = collections (world s).
Proof.
  intros Hfault.
  assert (Hrun : initializeCollection s
                 = (inl (Error "Failed to initialize collection: Error: Qdrant server is not accessible or healthy"),
                    set_world (logged ClusterStatus (world s)) s)).
  { unfold initializeCollection, try_catch at 1, bind at 1,
      testQdrantConnection, try_catch at 1, bind at 1, io, clusterStatus, perform.
    cbn [faults set_trace set_faults]. rewrite Hfault. reflexivity. }
  rewrite Hrun. split; [reflexivity|]. split.
  - apply new_calls_app. reflexivity.
  - reflexivity.
Qed.

Lemma initializeCollection_unhealthy_witness :
  initializeCollection
    (constructed (demo_world full_store [Some (Error "connect ECONNREFUSED")]))
  = (inl (Error "Failed to initialize collection: Error: Qdrant server is not accessible or healthy"),
     set_world
       (logged ClusterStatus
          (world (constructed (demo_world full_store [Some (Error "connect ECONNREFUSED")]))))
       (constructed (demo_world full_store [Some (Error "connect ECONNREFUSED")])))
  /\ new_calls
       (constructed (demo_world full_store [Some (Error "connect ECONNREFUSED")]))
       (snd (initializeCollection
               (constructed (demo_world full_store [Some (Error "connect ECONNREFUSED")]))))
     = [ClusterStatus]
  /\ collections
       (world (snd (initializeCollection
                      (constructed (demo_world full_store [Some (Error "connect ECONNREFUSED")])))))
     = collections
         (world (constructed (demo_world full_store [Some (Error "connect ECONNREFUSED")]))).
Proof.
  apply (initializeCollection_unhealthy
           (constructed (demo_world full_store [Some (Error "connect ECONNREFUSED")]))
           (Error "connect ECONNREFUSED")).
  reflexivity.
Defined.



Section InitializationPaths.

Lemma createCollectionWithDimensions_inr_full (n : nat) (s s' : State) :
  createCollectionWithDimensions n s = (inr tt, s') ->
  collections (world s')
  = <[collectionName s := mkCollection (Some n) []]> (collections (world s))
  /\ trace (world s') = trace (world s) ++ [CreateCollection (collectionName s) n]
  /\ same_fields s s'.
Proof.
  unfold createCollectionWithDimensions. rewrite bind_get.
  unfold createCollection. intros H. pose proof H as Ht.
  apply io_perform_trace in Ht; [|solve_quiet].
  pose proof (io_fields _ _ _ _ H) as Hf.
  apply io_perform_inv in H as [(e' & He & _)|(a & w' & Ha & Hn & ->)];
    [discriminate|].
  cbn in Hn. destruct (collections (world s) !! collectionName s); [discriminate|].
  inversion Hn; subst. cbn. repeat split.
Qed.

Lemma getCollections_trace (s : State) (r : exn + list string) (s' : State) :
  io getCollections s = (r, s') ->
  trace (world s') = trace (world s) ++ [GetCollections].
Proof. unfold getCollections. intros H. eapply io_perform_trace; [|exact H]. solve_quiet. Qed.

Lemma calm_io {A : Type} (c : Call) (natural : World -> exn + A * World)
    (s : State) (a : A) (w' : World) :
  calm s ->
  natural (logged c (world s)) = inr (a, w') ->
  io (perform c natural) s = (inr a, set_world w' s).
Proof.
  unfold calm, io, perform, logged. intros Hcalm Hn.
  cbn [faults trace set_trace set_faults] in *. rewrite Hcalm in *.
  cbn [head tail] in *. now rewrite Hn.
Qed.

Lemma calm_logged (c : Call) (s : State) :
  calm s -> calm (set_world (logged c (world s)) s).
Proof. unfold calm, logged. cbn. now intros ->. Qed.

End InitializationPaths.

(** The run of [initializeCollection] when the collection is absent. *)
Lemma initializeCollection_absent_run (s s' : State) :
  initializeCollection s = (inr tt, s') ->
  collections (world s) !! collectionName s = None ->
  new_calls s s'
  = ClusterStatus :: probe_calls s
    ++ [GetCollections; CreateCollection (collectionName s) (detected_width s)]
  /\ collections (world s')
     = <[collectionName s := mkCollection (Some (detected_width s)) []]>
         (collections (world s))
  /\ actualVectorSize s' = Some (detected_width s).
Proof.
  intros H Habsent. unfold initializeCollection in H.
  apply try_catch_inr_inv in H as [H|(e & s1 & _ & H)]; [|discriminate].
  apply bind_inr_inv in H as (healthy & s1 & Hh & H).
  pose proof (testQdrantConnection_trace _ _ _ Hh) as Ht1.
  pose proof (respects_testQdrantConnection _ _ _ Hh) as (Hn1 & Ho1 & _).
  apply testQdrantConnection_collections in Hh as (Hc1 & Ha1 & _).
  destruct healthy; cbn [negb] in H; [|discriminate].
  apply bind_inr_inv in H as (n & s2 & Hd & H).
  pose proof (detectEmbeddingDimensions_trace _ _ _ Hd) as Ht2.
  pose proof (respects_detectEmbeddingDimensions _ _ _ Hd) as (Hn2 & Ho2 & _).
  apply detectEmbeddingDimensions_inr in Hd as (Hn & Hc2 & Ha2).
  assert (Hw : n = detected_width s).
  { rewrite Hn. unfold detected_width. now rewrite Ha1, Ho1. }
  assert (Hprobe : probe_calls s1 = probe_calls s).
  { unfold probe_calls. now rewrite Ha1. }
  clear Hn. subst n. rewrite Hprobe in Ht2.
  rewrite bind_get in H.
  apply bind_inr_inv in H as (names & s3 & Hnames & H).
  pose proof (getCollections_trace _ _ _ Hnames) as Ht3.
  pose proof (io_fields _ _ _ _ Hnames) as Hf3.
  apply getCollections_inr in Hnames as (Hin & Hc3 & Hn3).
  apply bind_inr_inv in H as ([] & s4 & Hbranch & H).
  inversion H; subst s'. clear H. cbn [world set_vectorStore actualVectorSize].
  assert (Hname : collectionName s2 = collectionName s) by congruence.
  rewrite Hname in *.
  assert (Hnot : bool_decide (collectionName s ∈ names) = false).
  { apply bool_decide_eq_false. rewrite Hin, Hc2, Hc1, Habsent.
    intros [c Hc]. discriminate. }
  rewrite Hnot in Hbranch.
  apply createCollectionWithDimensions_inr_full in Hbranch as (Hc4 & Ht4 & Hf4).
  rewrite Hn3 in Hc4, Ht4.
  split; [|split].
  - apply new_calls_app. cbn [world set_vectorStore].
    rewrite Ht4, Ht3, Ht2, Ht1. rewrite <- !app_assoc. reflexivity.
  - rewrite Hc4, Hc3, Hc2, Hc1. reflexivity.
  - rewrite Hf4, Hf3. cbn. exact Ha2.
Qed.


(** X4.  When no collection of the configured name exists, a successful
    [initializeCollection] deletes nothing: after the health check and the
    probe (skipped when a width is cached) it lists the collections and
    creates the one it needs, with the detected width and no points.  The
    other collections of the store are left as they were, and the detected
    width is cached. *)
Theorem initializeCollection_creates_absent (s s' : State) :
  initializeCollection s = (inr tt, s') ->
  collections (world s) !! collectionName s = None ->
  new_calls s s'
  = ClusterStatus :: probe_calls s
    ++ [GetCollections; CreateCollection (collectionName s) (detected_width s)]
  /\ collections (world s')
     = <[collectionName s := mkCollection (Some (detected_width s)) []]>
         (collections (world s))
  /\ actualVectorSize s' = Some (detected_width s).
Proof. apply initializeCollection_absent_run. Qed.

Lemma initializeCollection_creates_absent_witness :
  new_calls (constructed (demo_world ∅ []))
    (snd (initializeCollection (constructed (demo_world ∅ []))))
  = ClusterStatus :: probe_calls (constructed (demo_world ∅ []))
    ++ [GetCollections;
        CreateCollection (collectionName (constructed (demo_world ∅ [])))
          (detected_width (constructed (demo_world ∅ [])))]
  /\ collections (world (snd (initializeCollection (constructed (demo_world ∅ [])))))
     = <[collectionName (constructed (demo_world ∅ []))
           := mkCollection (Some (detected_width (constructed (demo_world ∅ [])))) []]>
         (collections (world (constructed (demo_world ∅ []))))
  /\ actualVectorSize (snd (initializeCollection (constructed (demo_world ∅ []))))
     = Some (detected_width (constructed (demo_world ∅ []))).
Proof.
  apply (initializeCollection_creates_absent (constructed (demo_world ∅ []))).
  - vm_compute. reflexivity.
  - reflexivity.
Defined.

(** X5.  Initialization does not destroy a collection that fits.  When no
    fault occurs, a collection of the configured name exists and the size
    of its vectors is the detected width (not zero), [initializeCollection]
    succeeds with three reads of the store (the list of collections, the
    collection, one test query) and leaves every collection, points
    included, as it was; it binds the store handle. *)
Theorem initializeCollection_keeps_matching (s : State) (c : Collection) :
  calm s ->
  collections (world s) !! collectionName s = Some c ->
  vectors_size c = Some (detected_width s) ->
  (0 < detected_width s)%nat ->
  fst (initializeCollection s) = inr tt
  /\ collections (world (snd (initializeCollection s))) = collections (world s)
  /\ vectorStore (snd (initializeCollection s))
     = Some (mkVectorStore (collectionName s))
  /\ new_calls s (snd (initializeCollection s))
     = ClusterStatus :: probe_calls s
       ++ [GetCollections; GetCollection (collectionName s);
           QdrantQuery (collectionName s)
             (repeat (dec 1 10) (detected_width s)) 1].
Proof.
  intros Hcalm Hc Hsize Hpos.
  set (w := detected_width s) in *.
  set (name := collectionName s) in *.
  (* the health check *)
  set (s1 := set_world (logged ClusterStatus (world s)) s).
  assert (H1 : testQdrantConnection s = (inr true, s1)).
  { unfold testQdrantConnection. apply try_catch_inr.
    unfold clusterStatus. erewrite bind_inr; [reflexivity|].
    now apply calm_io. }
  assert (Hcalm1 : calm s1) by now apply calm_logged.
  (* the width *)
  assert (H2 : exists s2,
             detectEmbeddingDimensions s1 = (inr w, s2)
             /\ calm s2 /\ collections (world s2) = collections (world s)
             /\ collectionName s2 = name
             /\ actualVectorSize s2 = Some w
             /\ trace (world s2) = trace (world s1) ++ probe_calls s).
  { unfold detectEmbeddingDimensions. rewrite bind_get.
    subst w. unfold detected_width, probe_calls in *. cbn [actualVectorSize s1 set_world].
    destruct (actualVectorSize s) as [[|k]|] eqn:Hcache.
    2: { exists s1. repeat split; try assumption. now rewrite app_nil_r. }
    all: eexists; split;
      [ unfold embedQuery; erewrite bind_inr by (apply calm_io; [exact Hcalm1|reflexivity]);
        reflexivity
      | repeat split; cbn; try reflexivity; unfold calm in *; cbn in *;
        now rewrite ?Hcalm ]. }
  destruct H2 as (s2 & H2 & Hcalm2 & Hc2 & Hn2 & Ha2 & Ht2).
  (* the list of collections *)
  set (s3 := set_world (logged GetCollections (world s2)) s2).
  assert (H3 : io getCollections s2
               = (inr ((map_to_list (collections (world s2))).*1), s3)).
  { unfold getCollections. apply calm_io; [exact Hcalm2|reflexivity]. }
  assert (Hin : bool_decide
                  (collectionName s2 ∈ (map_to_list (collections (world s2))).*1)
                = true).
  { apply bool_decide_eq_true. apply list_elem_of_fmap. exists (name, c).
    split; [now rewrite Hn2|]. apply elem_of_map_to_list. now rewrite Hc2. }
  assert (Hcalm3 : calm s3) by now apply calm_logged.
  (* the collection *)
  set (s4 := set_world (logged (GetCollection name) (world s3)) s3).
  assert (H4 : io (getCollection (collectionName s2)) s3
               = (inr (collection_info c), s4)).
  { rewrite Hn2. unfold getCollection. apply calm_io; [exact Hcalm3|].
    cbn. rewrite Hc2. fold name. now rewrite Hc. }
  assert (Hcalm4 : calm s4) by now apply calm_logged.
  (* the test query *)
  set (s5 := set_world
               (logged (QdrantQuery name (repeat (dec 1 10) w) 1) (world s4)) s4).
  assert (H5 : testCollectionQuery s4 = (inr true, s5)).
  { unfold testCollectionQuery. apply try_catch_inr. rewrite bind_get.
    assert (Hor : or_number (actualVectorSize s4) 768 = w).
    { cbn. rewrite Ha2. destruct w; [lia|reflexivity]. }
    assert (Hname4 : collectionName s4 = name) by (cbn; exact Hn2).
    rewrite Hor, Hname4.
    unfold query. erewrite bind_inr; [reflexivity|].
    apply calm_io; [exact Hcalm4|].
    cbn. rewrite Hc2. fold name. rewrite Hc.
    rewrite repeat_length. rewrite decide_True by exact Hsize. reflexivity. }
  (* the whole run *)
  assert (Hrun : initializeCollection s
                 = (inr tt, set_vectorStore (Some (mkVectorStore name)) s5)).
  { unfold initializeCollection. apply try_catch_inr.
    rewrite (bind_inr _ _ _ _ _ H1). cbn [negb].
    rewrite (bind_inr _ _ _ _ _ H2), bind_get, (bind_inr _ _ _ _ _ H3), Hin.
    erewrite bind_inr; [rewrite Hn2; reflexivity|].
    apply try_catch_inr. rewrite (bind_inr _ _ _ _ _ H4).
    cbn [config_vectors_size collection_info].
    rewrite bool_decide_eq_true_2 by exact Hsize.
    now rewrite (bind_inr _ _ _ _ _ H5). }
  rewrite Hrun. cbn [fst snd]. repeat split.
  - cbn. exact Hc2.
  - apply new_calls_app. cbn. rewrite Ht2. cbn.
    rewrite <- !app_assoc. reflexivity.
Qed.

Lemma initializeCollection_keeps_matching_witness :
  fst (initializeCollection (constructed (demo_world full_store []))) = inr tt
  /\ collections (world (snd (initializeCollection (constructed (demo_world full_store [])))))
     = collections (world (constructed (demo_world full_store [])))
  /\ vectorStore (snd (initializeCollection (constructed (demo_world full_store []))))
     = Some (mkVectorStore (collectionName (constructed (demo_world full_store []))))
  /\ new_calls (constructed (demo_world full_store []))
       (snd (initializeCollection (constructed (demo_world full_store []))))
     = ClusterStatus :: probe_calls (constructed (demo_world full_store []))
       ++ [GetCollections;
           GetCollection (collectionName (constructed (demo_world full_store [])));
           QdrantQuery (collectionName (constructed (demo_world full_store [])))
             (repeat (dec 1 10) (detected_width (constructed (demo_world full_store []))))
             1].
Proof.
  apply (initializeCollection_keeps_matching
           (constructed (demo_world full_store []))
           (mkCollection (Some 768) [demo_doc])).
  - reflexivity.
  - vm_compute. reflexivity.
  - reflexivity.
  - vm_compute. lia.
Defined.

(** ** The cached width, ingestion and clearing *)

(** X6.  The width of the embedding model is probed once: after a
    detection that returned a width that is not zero, detecting again
    returns the same width without any call and without changing the
    state. *)
Theorem detectEmbeddingDimensions_cached (s : State) (n : nat) (s1 : State) :
  detectEmbeddingDimensions s = (inr n, s1) ->
  (0 < n)%nat ->
  detectEmbeddingDimensions s1 = (inr n, s1).
Proof.
  intros H Hpos. apply detectEmbeddingDimensions_inr in H as (_ & _ & Hcache).
  unfold detectEmbeddingDimensions. rewrite bind_get, Hcache.
  destruct n; [lia | reflexivity].
Qed.

Lemma detectEmbeddingDimensions_cached_witness :
  detectEmbeddingDimensions
    (snd (detectEmbeddingDimensions (constructed (demo_world ∅ []))))
  = (inr 768%nat, snd (detectEmbeddingDimensions (constructed (demo_world ∅ [])))).
Proof.
  apply (detectEmbeddingDimensions_cached (constructed (demo_world ∅ []))).
  - vm_compute. reflexivity.
  - lia.
Defined.

Section Ingestion.

Lemma prepareDocuments_blank_bound (text : string) (metadata : gmap string MetaValue)
    (s : State) (vs : QdrantVectorStore) :
  is_blank text = true -> vectorStore s = Some vs ->
  prepareDocuments text metadata s = (inl (Error "No text content provided"), s).
Proof.
  intros Hblank Hvs. unfold prepareDocuments.
  rewrite bind_get, Hvs, Hblank. reflexivity.
Qed.

Lemma bind_io_total {A B : Type} (f : World -> A * World) (k : A -> M B)
    (s : State) :
  bind (io_total f) k s = k (fst (f (world s))) (set_world (snd (f (world s))) s).
Proof. unfold bind, io_total. destruct (f (world s)). reflexivity. Qed.

(** The documents built from the chunks. *)
Lemma build_documents_spec (base : gmap string MetaValue) (chunks : list string) :
  forall (index : nat) (s : State),
  exists docs s',
    build_documents base index chunks s = (inr docs, s')
    /\ same_fields s s'
    /\ collections (world s') = collections (world s)
    /\ oracle (world s') = oracle (world s)
    /\ trace (world s') = trace (world s)
    /\ faults (world s') = faults (world s)
    /\ map pageContent docs = chunks
    /\ forall i doc, docs !! i = Some doc ->
         metadata doc !! "chunkIndex" = Some (MetaNumber (index + i))
         /\ metadata doc !! "source" = Some (source_of base)
         /\ (exists id, metadata doc !! "chunkId" = Some (MetaString id))
         /\ (exists t, metadata doc !! "timestamp" = Some (MetaString t))
         /\ (forall key, key ∉ chunk_keys -> metadata doc !! key = base !! key).
Proof.
  induction chunks as [|chunk chunks IH]; intros index s.
  - exists [], s. split; [reflexivity|]. split; [apply same_fields_refl|].
    do 5 (split; [reflexivity|]). intros i doc Hi. discriminate.
  - cbn [build_documents]. rewrite !bind_io_total.
    match goal with
    | |- context [bind (build_documents base (S index) chunks) _ ?s0] =>
        destruct (IH (S index) s0)
          as (docs & s' & Hrun & Hf & Hc & Ho & Ht & Hfl & Hmap & Hdocs)
    end.
    eexists (_ :: docs), s'. rewrite (bind_inr _ _ _ _ _ Hrun).
    split; [reflexivity|].
    split; [rewrite Hf; reflexivity|].
    split; [rewrite Hc; reflexivity|].
    split; [rewrite Ho; reflexivity|].
    split; [rewrite Ht; reflexivity|].
    split; [rewrite Hfl; reflexivity|].
    split; [cbn; now rewrite Hmap|].
    intros j doc Hj. destruct j as [|j].
    + cbn in Hj. rename Hj into Hi. inversion Hi; subst doc.
      rewrite Nat.add_0_r. cbn [metadata].
      repeat split.
      * rewrite !lookup_insert_ne by discriminate. apply lookup_insert_eq.
      * apply lookup_insert_eq.
      * eexists. rewrite !lookup_insert_ne by discriminate. apply lookup_insert_eq.
      * eexists. rewrite !lookup_insert_ne by discriminate. apply lookup_insert_eq.
      * intros key Hkey. unfold chunk_keys in Hkey.
        rewrite !lookup_insert_ne; [reflexivity| | | |];
          intros <-; apply Hkey;
          eauto 6 using list_elem_of_here, list_elem_of_further.
    + cbn in Hj. destruct (Hdocs j doc Hj) as (Hidx & Hrest).
      split; [|exact Hrest]. rewrite Hidx. do 2 f_equal. lia.
Qed.

End Ingestion.

Section IngestionRuns.

Lemma prepareDocuments_inr (text : string) (base : gmap string MetaValue)
    (s : State) (documents : list Document) (s1 : State) :
  prepareDocuments text base s = (inr documents, s1) ->
  is_blank text = false
  /\ map pageContent documents = split_text (oracle (world s)) text
  /\ carries base documents
  /\ exists calls, trace (world s1) = trace (world s) ++ calls.
Proof.
  unfold prepareDocuments. rewrite bind_get. intros H.
  apply bind_inr_inv in H as ([] & s2 & Hguard & H).
  assert (Hframe : frame is_init_call s s2).
  { destruct (vectorStore s).
    - inversion Hguard. apply frame_refl.
    - eapply respects_initializeCollection; eauto. }
  destruct Hframe as (_ & Ho2 & calls2 & Ht2 & _).
  destruct (is_blank text); [discriminate|]. split; [reflexivity|].
  apply bind_inr_inv in H as (chunks & s3 & Hsplit & H).
  unfold splitText in Hsplit. pose proof Hsplit as Ht3.
  apply io_perform_trace in Ht3; [|solve_quiet].
  apply io_perform_inv in Hsplit as [(e & He & _)|(a & w' & Ha & Hn & ->)];
    [discriminate|].
  inversion Ha; subst a. inversion Hn; subst w'. clear Ha Hn.
  match type of H with
  | build_documents ?b ?i ?c ?st = _ =>
      destruct (build_documents_spec b c i st)
        as (docs & s' & Hrun & _ & _ & _ & Ht & _ & Hmap & Hdocs)
  end.
  rewrite Hrun in H. inversion H; subst docs s'. clear H.
  cbn [oracle logged set_faults set_trace] in *.
  split; [|split].
  - rewrite Hmap, <- Ho2. congruence.
  - intros i doc Hdoc. destruct (Hdocs i doc Hdoc) as (Hi & Hs & _ & _ & Hk).
    auto.
  - eexists. rewrite Ht. cbn [world set_world] in *. rewrite Ht3, Ht2.
    rewrite <- app_assoc. reflexivity.
Qed.

(** A successful upsert block ends with the upsert of the documents. *)
Lemma addDocumentsWithRecovery_inr (documents : list Document) (s s' : State) :
  addDocumentsWithRecovery documents s = (inr tt, s') ->
  exists name calls,
    trace (world s') = trace (world s) ++ calls ++ [AddDocuments name documents].
Proof.
  assert (Hadd : forall s0 s1,
             vectorStore_addDocuments documents s0 = (inr tt, s1) ->
             exists name,
               trace (world s1) = trace (world s0) ++ [AddDocuments name documents]).
  { intros s0 s1 H. unfold vectorStore_addDocuments in H. rewrite bind_get in H.
    destruct (vectorStore s0) as [vs|]; [|discriminate].
    exists (store_collection vs). unfold addDocuments in H.
    eapply io_perform_trace; [|exact H]. solve_quiet. }
  intros H. unfold addDocumentsWithRecovery in H.
  apply try_catch_inr_inv in H as [H|(e & s1 & Hfirst & H)].
  - apply Hadd in H as [name Ht]. exists name, []. exact Ht.
  - apply at_most_vectorStore_addDocuments in Hfirst as (calls1 & Ht1 & _).
    destruct (error_message_includes e "dimension"); [|discriminate].
    apply bind_inr_inv in H as ([] & s2 & Hm1 & H). inversion Hm1; subst s2.
    apply bind_inr_inv in H as ([] & s3 & Hm2 & H). inversion Hm2; subst s3.
    apply bind_inr_inv in H as ([] & s4 & Hinit & H).
    apply respects_initializeCollection in Hinit as (_ & _ & calls2 & Ht2 & _).
    apply Hadd in H as [name Ht3]. cbn [world set_actualVectorSize set_vectorStore] in Ht2.
    exists name, (calls1 ++ calls2). rewrite Ht3, Ht2, Ht1.
    rewrite <- !app_assoc. reflexivity.
Qed.

Lemma createRetrievalChain_inr (s s' : State) :
  createRetrievalChain s = (inr tt, s') ->
  (exists vs, vectorStore s' = Some vs /\ retrievalChain s' = Some (mkChain vs 5))
  /\ exists calls, trace (world s') = trace (world s) ++ calls.
Proof.
  intros H. pose proof (respects_createRetrievalChain _ _ _ H) as (_ & _ & calls & Ht & _).
  split; [|eauto].
  unfold createRetrievalChain in H. rewrite bind_get in H.
  destruct (vectorStore s) as [vs|] eqn:Hvs; [|discriminate].
  apply try_catch_inr_inv in H as [H|(e & s1 & _ & H)]; [|discriminate].
  apply bind_inr_inv in H as ([] & s1 & Hio & H).
  apply io_fields in Hio. inversion H; subst s'. rewrite Hio. cbn.
  exists vs. auto.
Qed.

(** A successful [processText]. *)
Lemma processText_inr (text : string) (base : gmap string MetaValue)
    (s s' : State) :
  processText text base s = (inr tt, s') ->
  is_blank text = false
  /\ (exists vs, vectorStore s' = Some vs /\ retrievalChain s' = Some (mkChain vs 5))
  /\ (exists name documents,
        AddDocuments name documents ∈ new_calls s s'
        /\ map pageContent documents = split_text (oracle (world s)) text
        /\ carries base documents).
Proof.
  intros H. unfold processText in H.
  apply try_catch_inr_inv in H as [H|(e & s1 & _ & H)]; [|discriminate].
  apply bind_inr_inv in H as (documents & s1 & Hprep & H).
  apply bind_inr_inv in H as ([] & s2 & Hblock & H).
  apply prepareDocuments_inr in Hprep as (Hblank & Hmap & Hcarry & calls1 & Ht1).
  apply addDocumentsWithRecovery_inr in Hblock as (name & calls2 & Ht2).
  apply createRetrievalChain_inr in H as (Hbound & calls3 & Ht3).
  split; [exact Hblank|]. split; [exact Hbound|].
  exists name, documents. split; [|split; [exact Hmap|exact Hcarry]].
  rewrite (new_calls_app s s'
             (calls1 ++ calls2 ++ [AddDocuments name documents] ++ calls3)).
  - rewrite !elem_of_app. right. right. left. apply list_elem_of_here.
  - rewrite Ht3, Ht2, Ht1. rewrite <- !app_assoc. reflexivity.
Qed.

End IngestionRuns.

(** X7.  Blank text is refused with "No text content provided" (wrapped by
    "Failed to process text: "), but only after the collection was
    initialized: when a store handle is bound the call changes nothing and
    calls nothing; when none is bound, [initializeCollection] has run first
    (and may have created or recreated the collection) before the text is
    looked at, and a failure of that initialization is what is thrown. *)
Theorem processText_blank (text : string) (base : gmap string MetaValue) (s : State) :
  is_blank text = true ->
  (forall vs, vectorStore s = Some vs ->
     processText text base s = (inl blank_text_error, s))
  /\ (vectorStore s = None ->
      forall s1, initializeCollection s = (inr tt, s1) ->
                 processText text base s = (inl blank_text_error, s1))
  /\ (vectorStore s = None ->
      forall e s1, initializeCollection s = (inl e, s1) ->
                   processText text base s
                   = (inl (Error ("Failed to process text: " +:+ exn_toString e)), s1)).
Proof.
  intros Hblank. split; [|split].
  - intros vs Hvs. unfold processText.
    eapply try_catch_inl;
      [apply bind_inl; eapply prepareDocuments_blank_bound; eauto
      |reflexivity].
  - intros Hvs s1 Hinit. unfold processText.
    eapply try_catch_inl;
      [apply bind_inl; unfold prepareDocuments;
       rewrite bind_get, Hvs, (bind_inr _ _ _ _ _ Hinit), Hblank; reflexivity
      |reflexivity].
  - intros Hvs e s1 Hinit. unfold processText.
    eapply try_catch_inl;
      [apply bind_inl; unfold prepareDocuments;
       rewrite bind_get, Hvs; apply bind_inl; exact Hinit
      |reflexivity].
Qed.

Lemma processText_blank_witness :
  (forall vs, vectorStore (constructed (demo_world stale_store [])) = Some vs ->
     processText "  " ∅ (constructed (demo_world stale_store []))
     = (inl blank_text_error, constructed (demo_world stale_store [])))
  /\ (vectorStore (constructed (demo_world stale_store [])) = None ->
      forall s1, initializeCollection (constructed (demo_world stale_store [])) = (inr tt, s1) ->
                 processText "  " ∅ (constructed (demo_world stale_store []))
                 = (inl blank_text_error, s1))
  /\ (vectorStore (constructed (demo_world stale_store [])) = None ->
      forall e s1, initializeCollection (constructed (demo_world stale_store [])) = (inl e, s1) ->
                   processText "  " ∅ (constructed (demo_world stale_store []))
                   = (inl (Error ("Failed to process text: " +:+ exn_toString e)), s1)).
Proof.
  apply (processText_blank "  " ∅ (constructed (demo_world stale_store []))).
  reflexivity.
Defined.

(** An instance of the second case: blank text sent to a service that has
    no store handle yet still recreates the collection of another width,
    and its point is lost. *)
Example processText_blank_recreates :
  fst (processText "  " ∅ (constructed (demo_world stale_store [])))
  = inl blank_text_error
  /\ collections (world (snd (processText "  " ∅ (constructed (demo_world stale_store [])))))
       !! demo_name = Some (mkCollection (Some 768) []).
Proof. vm_compute. split; reflexivity. Qed.

(** X8.  A successful [processText] means the text was not blank, and it
    leaves the service able to answer: a store handle is bound and the
    retrieval chain is built over that same handle.  One of the calls made
    is the upsert of the documents, and their contents are, in order, the
    chunks the splitter returned for the text. *)
Theorem processText_success (text : string) (base : gmap string MetaValue)
    (s s' : State) :
  processText text base s = (inr tt, s') ->
  is_blank text = false
  /\ (exists vs, vectorStore s' = Some vs /\ retrievalChain s' = Some (mkChain vs 5))
  /\ (exists name documents,
        AddDocuments name documents ∈ new_calls s s'
        /\ map pageContent documents = split_text (oracle (world s)) text).
Proof.
  intros H. apply processText_inr in H as (Hblank & Hbound & name & docs & Hin & Hmap & _).
  eauto 8.
Qed.

Lemma processText_success_witness :
  is_blank "Paris is the capital of France." = false
  /\ (exists vs,
        vectorStore (snd (processText "Paris is the capital of France." ∅
                            (constructed (demo_world ∅ [])))) = Some vs
        /\ retrievalChain (snd (processText "Paris is the capital of France." ∅
                                  (constructed (demo_world ∅ [])))) = Some (mkChain vs 5))
  /\ (exists name documents,
        AddDocuments name documents
          ∈ new_calls (constructed (demo_world ∅ []))
              (snd (processText "Paris is the capital of France." ∅
                      (constructed (demo_world ∅ []))))
        /\ map pageContent documents
           = split_text (oracle (world (constructed (demo_world ∅ []))))
               "Paris is the capital of France.").
Proof.
  apply (processText_success "Paris is the capital of France." ∅
           (constructed (demo_world ∅ []))).
  vm_compute. reflexivity.
Defined.


(** ** Answers *)

Section Answers.







End Answers.



(** ** Streamed answers *)

Section Streams.




End Streams.




(** ** Clearing, and starting again *)

Section Clearing.

Lemma initializeCollection_inr_handle (s s' : State) :
  initializeCollection s = (inr tt, s') ->
  vectorStore s' = Some (mkVectorStore (collectionName s)).
Proof.
  intros H. unfold initializeCollection in H.
  apply try_catch_inr_inv in H as [H|(e & s1 & _ & H)]; [|discriminate].
  apply bind_inr_inv in H as (healthy & s1 & Hh & H).
  apply respects_testQdrantConnection in Hh as (Hn1 & _).
  destruct healthy; cbn [negb] in H; [|discriminate].
  apply bind_inr_inv in H as (n & s2 & Hd & H).
  apply respects_detectEmbeddingDimensions in Hd as (Hn2 & _).
  rewrite bind_get in H.
  apply bind_inr_inv in H as (names & s3 & _ & H).
  apply bind_inr_inv in H as ([] & s4 & _ & H).
  inversion H. cbn. congruence.
Qed.

(** The first call of [initializeCollection] is the health check. *)
Lemma initializeCollection_first_call (s : State) (r : exn + unit) (s' : State) :
  initializeCollection s = (r, s') ->
  exists rest, new_calls s s' = ClusterStatus :: rest.
Proof.
  intros H. unfold initializeCollection in H.
  destruct (testQdrantConnection s) as [[e|healthy] s1] eqn:Hh.
  { apply testQdrantConnection_collections in Hh as (_ & _ & ? & ?). discriminate. }
  pose proof (testQdrantConnection_trace _ _ _ Hh) as Ht1.
  unfold try_catch at 1 in H. rewrite (bind_inr _ _ _ _ _ Hh) in H.
  destruct healthy; cbn [negb] in H.
  2: { inversion H; subst. exists []. apply new_calls_app. exact Ht1. }
  match type of H with
  | (let (_, _) := ?rest s1 in _) = _ =>
      assert (Hrest : respects is_init_call rest);
      [|destruct (rest s1) as [r2 s2] eqn:Hrun]
  end.
  { apply respects_bind; [apply respects_detectEmbeddingDimensions|intros n].
    apply respects_bind; [apply respects_get|intros s0].
    apply respects_bind; [unfold getCollections; repeat respects_step|intros names].
    apply respects_bind; [|intros ?; repeat respects_step].
    destruct (bool_decide _);
      [|apply respects_createCollectionWithDimensions].
    apply respects_try_catch; [|intros ?; apply respects_recreate].
    apply respects_bind; [unfold getCollection; repeat respects_step|intros info].
    destruct (bool_decide _); [|apply respects_recreate].
    apply respects_bind; [apply respects_testCollectionQuery|intros ok].
    destruct ok; cbn [negb]; [apply respects_ret | apply respects_recreate]. }
  apply Hrest in Hrun as (_ & _ & calls & Ht2 & _).
  exists calls. apply new_calls_app.
  assert (Hs' : trace (world s') = trace (world s2))
    by (destruct r2; inversion H; reflexivity).
  rewrite Hs', Ht2, Ht1, <- app_assoc. reflexivity.
Qed.

(** What a successful [clearAll] leaves. *)
Lemma clearAll_inr (s s' : State) :
  clearAll s = (inr tt, s') ->
  vectorStore s <> None ->
  s' = mkState (collectionName s) None None None false (world s')
  /\ collections (world s') = delete (collectionName s) (collections (world s))
  /\ oracle (world s') = oracle (world s)
  /\ trace (world s') = trace (world s) ++ [DeleteCollection (collectionName s)].
Proof.
  intros H Hbound. unfold clearAll in H.
  apply try_catch_inr_inv in H as [H|(e & s1 & _ & H)]; [|discriminate].
  apply bind_inr_inv in H as ([] & s1 & Hclear & H).
  inversion H; subst s'. clear H.
  unfold clearDocuments in Hclear.
  apply try_catch_inr_inv in Hclear as [H|(e & s2 & _ & H)]; [|discriminate].
  rewrite bind_get in H.
  destruct (vectorStore s) as [vs|]; [|contradiction].
  apply bind_inr_inv in H as ([] & s2 & Hdel & H).
  unfold deleteCollection in Hdel. quiet_trace Hdel.
  apply io_perform_inv in Hdel as [(e & He & _)|(a & w' & Ha & Hn & ->)];
    [discriminate|].
  inversion Hn; subst w'. clear Hn.
  inversion H; subst s1. clear H. cbn in *. auto.
Qed.

End Clearing.

(** X13.  A failed [clearAll] clears nothing.  It can fail only when a
    store handle is bound, and only because the one call it made, the
    deletion of the collection, was refused; the error of that call is
    thrown as it is.  The handle, the chain, the cached width and the
    initialized flag are then what they were, and so are the collections:
    the service keeps answering from the documents it had. *)
Theorem clearAll_failure (s : State) (e : exn) (s' : State) :
  clearAll s = (inl e, s') ->
  vectorStore s <> None
  /\ untouched s s'
  /\ new_calls s s' = [DeleteCollection (collectionName s)]
  /\ head (faults (world s)) = Some (Some e).
Proof.
  intros H. unfold clearAll in H. unfold try_catch at 1 in H.
  destruct (clearDocuments s) as [[e1|[]] s1] eqn:Hclear.
  2: { rewrite (bind_inr _ _ _ _ _ Hclear) in H. discriminate. }
  rewrite (bind_inl _ _ _ _ _ Hclear) in H. inversion H; subst e1 s1. clear H.
  unfold clearDocuments in Hclear. unfold try_catch at 1 in Hclear.
  rewrite bind_get in Hclear.
  destruct (vectorStore s) as [vs|] eqn:Hvs; [|discriminate].
  destruct (io (deleteCollection (collectionName s)) s) as [[e1|[]] s1] eqn:Hdel.
  2: { rewrite (bind_inr _ _ _ _ _ Hdel) in Hclear. discriminate. }
  rewrite (bind_inl _ _ _ _ _ Hdel) in Hclear. inversion Hclear; subst e1 s1.
  clear Hclear. unfold deleteCollection in Hdel. quiet_trace Hdel.
  apply io_perform_inv in Hdel as [(e1 & He & -> & Hwhy)|(a & w' & Ha & _)];
    [|discriminate].
  inversion He; subst e1. destruct Hwhy as [Hwhy|Hwhy]; [|discriminate].
  split; [discriminate|]. split; [|split].
  - split; reflexivity.
  - apply new_calls_app. exact Ht.
  - exact Hwhy.
Qed.

Lemma clearAll_failure_witness :
  vectorStore (ingested (demo_world full_store [Some (Error "timeout")])) <> None
  /\ untouched (ingested (demo_world full_store [Some (Error "timeout")]))
       (snd (clearAll (ingested (demo_world full_store [Some (Error "timeout")]))))
  /\ new_calls (ingested (demo_world full_store [Some (Error "timeout")]))
       (snd (clearAll (ingested (demo_world full_store [Some (Error "timeout")]))))
     = [DeleteCollection
          (collectionName (ingested (demo_world full_store [Some (Error "timeout")])))]
  /\ head (faults (world (ingested (demo_world full_store [Some (Error "timeout")]))))
     = Some (Some (Error "timeout")).
Proof.
  apply (clearAll_failure (ingested (demo_world full_store [Some (Error "timeout")]))
           (Error "timeout")
           (snd (clearAll (ingested (demo_world full_store [Some (Error "timeout")]))))).
  vm_compute. reflexivity.
Defined.

(** X14.  Clearing and starting again.  After a [clearAll] of a service
    with a bound store handle, a successful [initialize] gives a collection
    of the same name with no points, whose width is the length of a fresh
    probe of the embedding model (the width cached before the clear is not
    used); the other collections of the store are as they were before the
    clear.  The service is then initialized with a store handle and no
    retrieval chain.  The calls of the two steps are the deletion, the
    health check, the probe, the listing and the creation. *)
Theorem clearAll_then_initialize (s s1 s2 : State) :
  clearAll s = (inr tt, s1) ->
  vectorStore s <> None ->
  initialize s1 = (inr tt, s2) ->
  let name := collectionName s in
  let width := length (embedding (oracle (world s)) "test dimension detection") in
  collections (world s2)
  = <[name := mkCollection (Some width) []]> (collections (world s))
  /\ new_calls s s2
     = [DeleteCollection name; ClusterStatus; EmbedQuery "test dimension detection";
        GetCollections; CreateCollection name width]
  /\ vectorStore s2 = Some (mkVectorStore name)
  /\ retrievalChain s2 = None
  /\ actualVectorSize s2 = Some width
  /\ isInitialized s2 = true.
Proof.
  intros Hclear Hbound Hinit. cbv zeta.
  apply clearAll_inr in Hclear as (Hs1 & Hc1 & Ho1 & Ht1); [|exact Hbound].
  assert (Hname : collectionName s1 = collectionName s) by (rewrite Hs1; reflexivity).
  assert (Hsize : actualVectorSize s1 = None) by (rewrite Hs1; reflexivity).
  assert (Hflag : isInitialized s1 = false) by (rewrite Hs1; reflexivity).
  assert (Hchain : retrievalChain s1 = None) by (rewrite Hs1; reflexivity).
  unfold initialize in Hinit. rewrite bind_get, Hflag in Hinit. cbn [negb] in Hinit.
  apply try_catch_inr_inv in Hinit as [Hinit|(e & s3 & _ & Hinit)]; [|discriminate].
  apply bind_inr_inv in Hinit as ([] & s3 & Hcol & Hinit).
  inversion Hinit; subst s2. clear Hinit.
  cbn [world set_isInitialized vectorStore retrievalChain actualVectorSize isInitialized].
  pose proof (initializeCollection_inr_handle _ _ Hcol) as Hhandle.
  pose proof (same_chain_initializeCollection _ _ _ Hcol) as (_ & Hchain3 & _).
  pose proof (respects_initializeCollection _ _ _ Hcol) as (_ & _ & calls & Ht3 & _).
  apply initializeCollection_absent_run in Hcol as (Hcalls & Hc3 & Ha3).
  2: { rewrite Hc1, Hname. apply lookup_delete_eq. }
  assert (Hwidth : detected_width s1
                   = length (embedding (oracle (world s)) "test dimension detection")).
  { unfold detected_width. now rewrite Hsize, Ho1. }
  rewrite Hwidth, Hname in *.
  assert (Hprobe : probe_calls s1 = [EmbedQuery "test dimension detection"]).
  { unfold probe_calls. now rewrite Hsize. }
  rewrite Hprobe in Hcalls.
  split; [|split; [|repeat split; congruence]].
  - rewrite Hc3, Hc1. apply insert_delete_eq.
  - rewrite (new_calls_app _ _ _ Ht3) in Hcalls. subst calls.
    apply new_calls_app. cbn [world set_isInitialized].
    rewrite Ht3, Ht1, <- app_assoc. reflexivity.
Qed.

Lemma clearAll_then_initialize_witness :
  collections
    (world (snd (initialize (snd (clearAll (ingested (demo_world stale_store [])))))))
  = <[demo_name := mkCollection (Some 768) []]> stale_store
  /\ new_calls (ingested (demo_world stale_store []))
       (snd (initialize (snd (clearAll (ingested (demo_world stale_store []))))))
     = [DeleteCollection demo_name; ClusterStatus;
        EmbedQuery "test dimension detection"; GetCollections;
        CreateCollection demo_name 768]
  /\ vectorStore (snd (initialize (snd (clearAll (ingested (demo_world stale_store []))))))
     = Some (mkVectorStore demo_name)
  /\ retrievalChain (snd (initialize (snd (clearAll (ingested (demo_world stale_store []))))))
     = None
  /\ actualVectorSize (snd (initialize (snd (clearAll (ingested (demo_world stale_store []))))))
     = Some 768%nat
  /\ isInitialized (snd (initialize (snd (clearAll (ingested (demo_world stale_store []))))))
     = true.
Proof.
  apply (clearAll_then_initialize (ingested (demo_world stale_store []))
           (snd (clearAll (ingested (demo_world stale_store []))))
           (snd (initialize (snd (clearAll (ingested (demo_world stale_store []))))))).
  - vm_compute. reflexivity.
  - discriminate.
  - vm_compute. reflexivity.
Defined.

(** X15.  A failed [initialize] is not remembered.  The error is the one
    [initializeCollection] threw, the service stays uninitialized and binds
    no store handle, so the next [initialize] does not return at once as it
    does after a success: it contacts the store again, starting with the
    health check. *)
Theorem initialize_failure_retries (s : State) (e : exn) (s' : State) :
  initialize s = (inl e, s') ->
  initializeCollection s = (inl e, s')
  /\ isInitialized s' = false
  /\ vectorStore s' = vectorStore s
  /\ head (new_calls s' (snd (initialize s'))) = Some ClusterStatus.
Proof.
  intros H. unfold initialize in H. rewrite bind_get in H.
  destruct (isInitialized s) eqn:Hflag; [discriminate|]. cbn [negb] in H.
  unfold try_catch at 1 in H.
  destruct (initializeCollection s) as [[e0|[]] s0] eqn:Hcol.
  2: { rewrite (bind_inr _ _ _ _ _ Hcol) in H. discriminate. }
  rewrite (bind_inl _ _ _ _ _ Hcol) in H. inversion H; subst e0 s0. clear H.
  pose proof (initializeCollection_inl _ _ _ Hcol) as (_ & Hv & _ & _ & Hi & _).
  rewrite Hflag in Hi. repeat split; try assumption.
  unfold initialize. rewrite bind_get, Hi. cbn [negb]. unfold try_catch at 1.
  destruct (initializeCollection s') as [[e1|[]] s1] eqn:Hagain;
    pose proof (initializeCollection_first_call _ _ _ Hagain) as [rest Hrest].
  - rewrite (bind_inl _ _ _ _ _ Hagain). cbn [snd throw]. now rewrite Hrest.
  - rewrite (bind_inr _ _ _ _ _ Hagain). cbn [snd modify].
    unfold new_calls in *. cbn [world set_isInitialized]. now rewrite Hrest.
Qed.

Lemma initialize_failure_retries_witness :
  initializeCollection
    (constructed (demo_world full_store [Some (Error "connect ECONNREFUSED")]))
  = (inl (Error "Failed to initialize collection: Error: Qdrant server is not accessible or healthy"),
     snd (initialize
            (constructed (demo_world full_store [Some (Error "connect ECONNREFUSED")]))))
  /\ isInitialized
       (snd (initialize
               (constructed (demo_world full_store [Some (Error "connect ECONNREFUSED")]))))
     = false
  /\ vectorStore
       (snd (initialize
               (constructed (demo_world full_store [Some (Error "connect ECONNREFUSED")]))))
     = vectorStore (constructed (demo_world full_store [Some (Error "connect ECONNREFUSED")]))
  /\ head (new_calls
             (snd (initialize
                     (constructed (demo_world full_store [Some (Error "connect ECONNREFUSED")]))))
             (snd (initialize
                     (snd (initialize
                             (constructed
                                (demo_world full_store
                                   [Some (Error "connect ECONNREFUSED")])))))))
     = Some ClusterStatus.
Proof.
  apply (initialize_failure_retries
           (constructed (demo_world full_store [Some (Error "connect ECONNREFUSED")]))
           (Error "Failed to initialize collection: Error: Qdrant server is not accessible or healthy")
           (snd (initialize
                   (constructed (demo_world full_store [Some (Error "connect ECONNREFUSED")]))))).
  vm_compute. reflexivity.
Defined.

(** ** The confidence of an answer *)

Section AnswerConfidence.

Lemma docScore_lowercase (question question' : string) (doc : Document) :
  toLowerCase question = toLowerCase question' ->
  docScore question doc = docScore question' doc.
Proof. intros H. unfold docScore, questionWords. now rewrite H. Qed.

Lemma askQuestion_confidence (question : string) (s : State) (result : QAResult)
    (s' : State) :
  askQuestion question s = (inr result, s') ->
  confidence result = calculateConfidence question (sources result).
Proof.
  unfold askQuestion. rewrite bind_get.
  destruct (retrievalChain s) as [chain|]; [|discriminate].
  destruct (vectorStore s) as [vs|]; [|discriminate].
  intros H. apply try_catch_inr_inv in H as [H|(e & s1 & _ & H)]; [|discriminate].
  apply bind_inr_inv in H as (stats & s1 & _ & H).
  destruct (totalPoints stats =? 0)%nat; [discriminate|].
  apply bind_inr_inv in H as (docs & s2 & _ & H).
  destruct docs as [|doc docs]; cbn [length Nat.eqb] in H.
  - inversion H. reflexivity.
  - apply bind_inr_inv in H as (text & s3 & _ & H). inversion H. reflexivity.
Qed.

End AnswerConfidence.

(** X16.  The confidence an answer carries.  When the question has a
    piece longer than three characters, the confidence of every result of
    [askQuestion] is a number between 0 and 0.8: full confidence is never
    reported, and the clamp at 1.0 never applies.  When it has none and
    documents were retrieved, the confidence of the result is [NaN]. *)
Theorem askQuestion_confidence_range (question : string) (s : State)
    (result : QAResult) (s' : State) :
  askQuestion question s = (inr result, s') ->
  (questionWords question <> [] ->
   le (of_nat 0) (confidence result) /\ le (confidence result) (dec 8 10))
  /\ (questionWords question = [] -> sources result <> [] ->
      confidence result = NaN).
Proof.
  intros H. apply askQuestion_confidence in H. rewrite H. split.
  - intros Hq.
    destruct (calculateConfidence_finite question (sources result) Hq)
      as (c & -> & Hlo & Hhi).
    split; [exact Hlo | exact Hhi].
  - intros Hq Hdocs. now apply calculateConfidence_no_words.
Qed.

Lemma askQuestion_confidence_range_witness :
  exists result,
    fst (askQuestion "What is the capital of France?"
           (ingested (demo_world full_store []))) = inr result
    /\ (questionWords "What is the capital of France?" <> [] ->
        le (of_nat 0) (confidence result) /\ le (confidence result) (dec 8 10))
    /\ (questionWords "What is the capital of France?" = [] -> sources result <> [] ->
        confidence result = NaN).
Proof.
  destruct (askQuestion "What is the capital of France?"
              (ingested (demo_world full_store [])))
    as [[e|result] s'] eqn:Hrun; [vm_compute in Hrun; discriminate|].
  exists result. split; [reflexivity|].
  exact (askQuestion_confidence_range _ _ _ _ Hrun).
Defined.

(** [toLowerCase] on the Latin-1 letters: capital E with acute accent (201)
    becomes the small one (233), the multiplication sign (215) and the
    sharp s (223) stay. *)
Example toLowerCase_latin1 :
  toLowerCase (String (ascii_of_nat 201) "COLE")
  = String (ascii_of_nat 233) "cole"
  /\ toLowerCase (String (ascii_of_nat 215) (String (ascii_of_nat 223) "Z"))
     = String (ascii_of_nat 215) (String (ascii_of_nat 223) "z").
Proof. split; reflexivity. Qed.

(** A question with a capital E with acute accent against a chunk that has
    the small letter: the question is found in the chunk, and its one word
    too, so the confidence is 0.4 + 0.3 = 0.7. *)
Example calculateConfidence_latin1_case :
  le (dec 7 10)
     (calculateConfidence (String (ascii_of_nat 201) "cole")
        [mkDocument (String (ascii_of_nat 233) "cole") ∅])
  /\ le (calculateConfidence (String (ascii_of_nat 201) "cole")
           [mkDocument (String (ascii_of_nat 233) "cole") ∅])
        (dec 7 10).
Proof. split; vm_compute; discriminate. Qed.

(** X17.  The confidence does not depend on the case of the question: two
    questions with the same lowercase form get the same confidence against
    any documents.  The lowercase form is that of [toLowerCase] on strings
    of 8-bit code units: the letters [A-Z] and the capital letters of
    Latin-1 are lowered. *)
Theorem calculateConfidence_question_case (question question' : string)
    (docs : list Document) :
  toLowerCase question = toLowerCase question' ->
  calculateConfidence question docs = calculateConfidence question' docs.
Proof.
  intros H. unfold calculateConfidence.
  destruct (length docs =? 0)%nat; [reflexivity|].
  rewrite !fold_add_sum. do 4 f_equal.
  apply map_ext. intros doc. now apply docScore_lowercase.
Qed.

Lemma calculateConfidence_question_case_witness :
  calculateConfidence (String (ascii_of_nat 201) "COLE de Paris") [demo_doc]
  = calculateConfidence (String (ascii_of_nat 233) "cole de paris") [demo_doc].
Proof.
  apply (calculateConfidence_question_case
           (String (ascii_of_nat 201) "COLE de Paris")
           (String (ascii_of_nat 233) "cole de paris")).
  reflexivity.
Defined.

(** ** The text of a stream *)

Section StreamText.

Lemma append_empty_r (p : string) : p +:+ "" = p.
Proof.
  induction p as [|c p IH]; [reflexivity|].
  change (String c (p +:+ "") = String c p). now rewrite IH.
Qed.

Lemma join_empty_cons (p : string) (parts : list string) :
  join "" (p :: parts) = p +:+ join "" parts.
Proof.
  destruct parts as [|q parts]; cbn [join].
  - now rewrite append_empty_r.
  - reflexivity.
Qed.

Lemma convertStream_app (stream1 stream2 : list MessageContent) :
  convertStreamToStringIterable (stream1 ++ stream2)
  = convertStreamToStringIterable stream1 ++ convertStreamToStringIterable stream2.
Proof.
  induction stream1 as [|chunk rest IH]; [reflexivity|].
  cbn [app convertStreamToStringIterable]. rewrite IH.
  destruct (truthy_content chunk && is_string chunk), (truthy_content chunk);
    reflexivity.
Qed.

End StreamText.

(** X18.  The fragments of a stream are produced chunk by chunk: those of
    two streams one after the other are the fragments of the first followed
    by those of the second, and there are never more fragments than chunks.
    When every chunk has a string content, dropping the empty ones loses no
    text: the fragments put together are the contents put together. *)
Theorem convertStream_text (stream1 stream2 : list MessageContent) :
  convertStreamToStringIterable (stream1 ++ stream2)
  = convertStreamToStringIterable stream1 ++ convertStreamToStringIterable stream2
  /\ (length (convertStreamToStringIterable stream1) <= length stream1)%nat
  /\ (Forall (fun chunk => is_string chunk = true) stream1 ->
      join "" (convertStreamToStringIterable stream1)
      = join "" (map content_text stream1)).
Proof.
  split; [apply convertStream_app|]. split.
  - induction stream1 as [|chunk rest IH]; [reflexivity|].
    cbn [convertStreamToStringIterable length].
    destruct (truthy_content chunk && is_string chunk), (truthy_content chunk);
      cbn [length]; lia.
  - induction 1 as [|chunk rest Hchunk _ IH]; [reflexivity|].
    destruct chunk as [text| |]; try discriminate.
    cbn [convertStreamToStringIterable map content_text].
    destruct text as [|c text]; cbn [truthy_content is_string andb].
    + rewrite join_empty_cons, IH. reflexivity.
    + rewrite !join_empty_cons, IH. reflexivity.
Qed.

(** ** The diagnostic service *)

Section Diagnostic.



End Diagnostic.


(** X20.  [forceDeleteCollection] never throws, and the only call it makes
    is the deletion of "rag_documents_collection".  Every collection of
    another name is left as it was, so the collection of a service that is
    configured with another name (the shared service uses
    "FINAL_RAG_COLLECTIONS") is not deleted; the fields of such a service
    are not changed either.  When the deletion is not refused, no
    collection of the diagnostic name is left. *)
Theorem forceDeleteCollection_scope (s : State) :
  exists s',
    forceDeleteCollection s = (inr tt, s')
    /\ same_fields s s'
    /\ new_calls s s' = [DeleteCollection diagnostic_collection]
    /\ (forall name, name <> diagnostic_collection ->
          collections (world s') !! name = collections (world s) !! name)
    /\ ((forall e, head (faults (world s)) <> Some (Some e)) ->
        collections (world s') !! diagnostic_collection = None).
Proof.
  unfold forceDeleteCollection, try_catch.
  destruct (io (deleteCollection diagnostic_collection) s) as [[e|[]] s1] eqn:Hdel;
    unfold deleteCollection in Hdel; pose proof Hdel as Ht;
    apply io_perform_trace in Ht; [|solve_quiet| |solve_quiet];
    apply io_perform_inv in Hdel as [(e1 & He & -> & Hwhy)|(a & w' & Ha & Hn & ->)];
    try discriminate.
  - exists (set_world (logged (DeleteCollection diagnostic_collection) (world s)) s).
    split; [reflexivity|]. split; [reflexivity|].
    split; [apply new_calls_app; exact Ht|]. split; [reflexivity|].
    intros Hnone. inversion He; subst e1.
    destruct Hwhy as [Hwhy|Hwhy]; [|discriminate]. now apply Hnone in Hwhy.
  - inversion Hn; subst w'. clear Hn.
    exists (set_world
              (set_collections
                 (delete diagnostic_collection
                    (collections (logged (DeleteCollection diagnostic_collection) (world s))))
                 (logged (DeleteCollection diagnostic_collection) (world s))) s).
    split; [reflexivity|]. split; [reflexivity|].
    split; [apply new_calls_app; exact Ht|]. cbn. split.
    + intros name Hname. now apply lookup_delete_ne.
    + intros _. apply lookup_delete_eq.
Qed.

(** The force delete of the diagnose route against the store of the shared
    service: the stale collection the service uses is still there. *)
Example forceDeleteCollection_misses_shared :
  collections (world (snd (forceDeleteCollection (constructed (demo_world stale_store [])))))
    !! demo_name
  = Some (mkCollection (Some 256) [demo_doc]).
Proof. vm_compute. reflexivity. Qed.

(** ** Files *)

Section FileRuns.

#[local] Arguments String.append !s1 s2 : simpl nomatch.

Variable pdf_parse : option (string -> exn + PdfData).
Variable decode : string -> string.

Lemma processText_inl (text : string) (base : gmap string MetaValue) (s : State)
    (e : exn) (s' : State) :
  processText text base s = (inl e, s') ->
  exists cause, e = Error ("Failed to process text: " +:+ exn_toString cause).
Proof.
  unfold processText. unfold try_catch at 1.
  match goal with
  | |- (let (_, _) := ?body s in _) = _ -> _ => destruct (body s) as [[cause|[]] s1]
  end; intros H; inversion H. eauto.
Qed.

Lemma processPDF_inl (pdfBuffer : string) (filename : option string) (s : State)
    (e : exn) (s' : State) :
  processPDF pdf_parse pdfBuffer filename s = (inl e, s') ->
  exists cause, e = Error ("Failed to process PDF: " +:+ exn_toString cause).
Proof.
  unfold processPDF. unfold try_catch at 1.
  match goal with
  | |- (let (_, _) := ?body s in _) = _ -> _ => destruct (body s) as [[cause|[]] s1]
  end; intros H; inversion H. eauto.
Qed.

(** The file a successful [processFile] was given went through
    [processText], as a PDF or as text. *)
Lemma processFile_inr (file : File) (s s' : State) :
  processFile pdf_parse decode file s = (inr tt, s') ->
  (file_type file = "application/pdf"
   /\ exists parse data,
        pdf_parse = Some parse /\ parse (file_bytes file) = inr data
        /\ processText (pdf_text data) (pdf_metadata (Some (file_name file)) data) s
           = (inr tt, s'))
  \/ (file_type file <> "application/pdf"
      /\ processText (decode (file_bytes file)) (text_metadata file) s = (inr tt, s')).
Proof.
  unfold processFile. intros H.
  apply try_catch_inr_inv in H as [H|(e & s1 & _ & H)]; [|discriminate].
  destruct (String.eqb_spec (file_type file) "application/pdf") as [Hpdf|Hpdf].
  - left. split; [exact Hpdf|]. unfold processPDF in H.
    apply try_catch_inr_inv in H as [H|(e & s1 & _ & H)]; [|discriminate].
    unfold loadPdfParse in H. destruct pdf_parse as [parse|]; [|discriminate].
    apply bind_inr_inv in H as (parse' & s1 & Hload & H).
    inversion Hload; subst parse' s1. clear Hload.
    destruct (parse (file_bytes file)) as [e|data] eqn:Hparse.
    { discriminate. }
    apply bind_inr_inv in H as (data' & s1 & Hdata & H).
    inversion Hdata; subst data' s1. clear Hdata.
    destruct (is_blank (pdf_text data)); [discriminate|].
    exists parse, data. auto.
  - right. split; [exact Hpdf|].
    destruct (_ || _); [exact H|discriminate].
Qed.

Lemma upload_accepts_spec (file : File) :
  upload_accepts file
  = (String.eqb (file_type file) "application/pdf"
     || (String.eqb (file_type file) "text/plain"
         || endsWith (file_name file) ".txt")).
Proof.
  unfold upload_accepts. rewrite orb_assoc. f_equal.
  destruct (String.eqb_spec (file_type file) "application/pdf") as [->|Hpdf];
    [reflexivity|].
  destruct (String.eqb_spec (file_type file) "text/plain") as [->|Htxt];
    [reflexivity|].
  apply bool_decide_eq_false_2.
  rewrite !elem_of_cons, elem_of_nil. tauto.
Qed.

Lemma processFile_supported_aux (file : File) (s : State) :
  upload_accepts file = false ->
  processFile pdf_parse decode file s = (inl unsupported_file, s).
Proof.
  rewrite upload_accepts_spec. unfold processFile.
  intros Hno. apply orb_false_elim in Hno as [-> ->]. reflexivity.
Qed.

End FileRuns.

(** X21.  The upload route and [processFile] agree on what a supported
    file is.  A file the route would refuse (its type is neither
    "application/pdf" nor "text/plain" and its name does not end in ".txt")
    is refused by [processFile] with "Unsupported file type. Please upload
    PDF or TXT files.", before anything is done; a file the route lets
    through never gets that error from [processFile]. *)
Theorem processFile_supported (pdf_parse : option (string -> exn + PdfData))
    (decode : string -> string) (file : File) (s : State) :
  (upload_accepts file = false ->
   processFile pdf_parse decode file s = (inl unsupported_file, s))
  /\ (upload_accepts file = true ->
      fst (processFile pdf_parse decode file s) <> inl unsupported_file).
Proof.
  split; [apply processFile_supported_aux|].
  rewrite upload_accepts_spec.
  intros Hyes Habs.
  destruct (processFile pdf_parse decode file s) as [r s'] eqn:Hrun.
  unfold processFile in Hrun. cbn [fst] in Habs. subst r.
  unfold try_catch at 1 in Hrun.
  destruct (String.eqb (file_type file) "application/pdf").
  - destruct (processPDF _ _ _ s) as [[e|[]] s1] eqn:Hpdf; [|discriminate].
    apply processPDF_inl in Hpdf as [cause ->]. inversion Hrun.
  - cbn [orb] in Hyes. rewrite Hyes in Hrun.
    destruct (processText _ _ s) as [[e|[]] s1] eqn:Htext; [|discriminate].
    apply processText_inl in Htext as [cause ->]. inversion Hrun.
Qed.

(** X22.  What goes wrong in [processPDF], in the order it is checked, and
    always wrapped by "Failed to process PDF: ".  Without the parsing
    library, with a parser that throws, or with a PDF whose text is blank,
    the call fails at once: the collection is not initialized and no call
    is made.  An error of [processText] is wrapped a second time. *)
Theorem processPDF_failures (pdf_parse : option (string -> exn + PdfData))
    (pdfBuffer : string) (filename : option string) (s : State) :
  (pdf_parse = None ->
   processPDF pdf_parse pdfBuffer filename s
   = (inl (Error "Failed to process PDF: Error: PDF parsing library not available"), s))
  /\ (forall parse, pdf_parse = Some parse ->
      (forall e, parse pdfBuffer = inl e ->
         processPDF pdf_parse pdfBuffer filename s
         = (inl (Error ("Failed to process PDF: " +:+ exn_toString e)), s))
      /\ (forall data, parse pdfBuffer = inr data ->
          (is_blank (pdf_text data) = true ->
           processPDF pdf_parse pdfBuffer filename s
           = (inl (Error "Failed to process PDF: Error: No text content found in PDF"), s))
          /\ (is_blank (pdf_text data) = false ->
              forall e s',
                processText (pdf_text data) (pdf_metadata filename data) s = (inl e, s') ->
                exists cause,
                  processPDF pdf_parse pdfBuffer filename s
                  = (inl (Error ("Failed to process PDF: Error: Failed to process text: "
                                 +:+ exn_toString cause)), s')))).
Proof.
  split; [intros ->; reflexivity|].
  intros parse ->. split.
  - intros e He. unfold processPDF, try_catch, loadPdfParse, bind, ret.
    rewrite He. reflexivity.
  - intros data Hdata. split.
    + intros Hblank. unfold processPDF, try_catch, loadPdfParse, bind, ret.
      rewrite Hdata, Hblank. reflexivity.
    + intros Hnot e s' Htext.
      pose proof (processText_inl _ _ _ _ _ Htext) as [cause ->].
      exists cause. unfold processPDF, try_catch, loadPdfParse, bind, ret.
      rewrite Hdata, Hnot, Htext. reflexivity.
Qed.


(** X24.  The documents stored for an uploaded file say where they come
    from.  After a successful [processFile] the documents were upserted,
    and each of them has its position as [chunkIndex], the name of the file
    as [source] (or "uploaded_pdf", respectively "uploaded_text", when the
    name is empty), and "pdf" or "text" as [type], according to whether the
    type of the file is "application/pdf". *)
Theorem processFile_documents (pdf_parse : option (string -> exn + PdfData))
    (decode : string -> string) (file : File) (s s' : State) :
  processFile pdf_parse decode file s = (inr tt, s') ->
  exists name documents,
    AddDocuments name documents ∈ new_calls s s'
    /\ forall i doc, documents !! i = Some doc ->
         metadata doc !! "chunkIndex" = Some (MetaNumber i)
         /\ metadata doc !! "source"
            = Some (MetaString
                      (or_string (Some (file_name file))
                         (if String.eqb (file_type file) "application/pdf"
                          then "uploaded_pdf" else "uploaded_text")))
         /\ metadata doc !! "type"
            = Some (MetaString
                      (if String.eqb (file_type file) "application/pdf"
                       then "pdf" else "text")).
Proof.
  intros H.
  apply processFile_inr in H as [(Hpdf & parse & data & _ & _ & Htext)|(Hpdf & Htext)];
    apply processText_inr in Htext as (_ & _ & name & documents & Hin & _ & Hcarry);
    exists name, documents; (split; [exact Hin|]);
    intros i doc Hdoc; destruct (Hcarry i doc Hdoc) as (Hi & Hs & Hk);
    (split; [exact Hi|]).
  - rewrite Hpdf, String.eqb_refl. split.
    + rewrite Hs. f_equal. unfold source_of, pdf_metadata.
      rewrite lookup_insert_eq. destruct (file_name file); reflexivity.
    + rewrite Hk.
      * unfold pdf_metadata. rewrite lookup_insert_ne by discriminate.
        apply lookup_insert_eq.
      * unfold chunk_keys. rewrite !elem_of_cons, elem_of_nil.
        intros [?|[?|[?|[?|[]]]]]; discriminate.
  - apply String.eqb_neq in Hpdf. rewrite Hpdf. split.
    + rewrite Hs. f_equal. unfold source_of, text_metadata.
      rewrite lookup_insert_eq. destruct (file_name file); reflexivity.
    + rewrite Hk.
      * unfold text_metadata. rewrite lookup_insert_ne by discriminate.
        apply lookup_singleton_eq.
      * unfold chunk_keys. rewrite !elem_of_cons, elem_of_nil.
        intros [?|[?|[?|[?|[]]]]]; discriminate.
Qed.

Lemma processFile_documents_witness :
  exists name documents,
    AddDocuments name documents
      ∈ new_calls (constructed (demo_world ∅ []))
          (snd (processFile None (fun bytes => bytes)
                  (mkFile "notes.txt" "text/plain" "Paris is the capital of France.")
                  (constructed (demo_world ∅ []))))
    /\ forall i doc, documents !! i = Some doc ->
         metadata doc !! "chunkIndex" = Some (MetaNumber i)
         /\ metadata doc !! "source" = Some (MetaString "notes.txt")
         /\ metadata doc !! "type" = Some (MetaString "text").
Proof.
  apply (processFile_documents None (fun bytes => bytes)
           (mkFile "notes.txt" "text/plain" "Paris is the capital of France.")
           (constructed (demo_world ∅ []))).
  vm_compute. reflexivity.
Defined.

(** ** The service keeps to its own collection *)

Section Isolation.

Variable n : string.

Lemma only_own_refl (s : State) : only_own n s s.
Proof. intros Hn Hok. repeat split; auto. Qed.

Lemma only_own_trans (s1 s2 s3 : State) :
  only_own n s1 s2 -> only_own n s2 s3 -> only_own n s1 s3.
Proof.
  intros H12 H23 Hn Hok.
  destruct (H12 Hn Hok) as (Hn2 & Hok2 & Hk2).
  destruct (H23 Hn2 Hok2) as (Hn3 & Hok3 & Hk3).
  repeat split; auto. intros name Hname. rewrite (Hk3 name Hname). auto.
Qed.

Lemma own_untouched {A : Type} (m : M A) :
  stable untouched m -> stable (only_own n) m.
Proof.
  intros Hm s r s' H Hn Hok. apply Hm in H as [Hsame Hcols].
  unfold same_fields in Hsame. repeat split.
  - rewrite Hsame. exact Hn.
  - intros vs. rewrite Hsame. cbn. apply Hok.
  - intros name _. now rewrite Hcols.
Qed.

Lemma own_io_perform {A : Type} (c : Call) (natural : World -> exn + A * World) :
  touches_only n natural -> stable (only_own n) (io (perform c natural)).
Proof.
  intros Ht s r s' H Hn Hok.
  apply io_perform_inv in H as [(e & _ & -> & _)|(a & w' & _ & Hnat & ->)].
  - repeat split; auto.
  - repeat split; auto. intros name Hname. cbn.
    now rewrite (Ht _ _ _ Hnat name Hname).
Qed.

Lemma own_io_total {A : Type} (f : World -> A * World) :
  (forall w, collections (snd (f w)) = collections w) ->
  stable (only_own n) (io_total f).
Proof.
  intros Hf s r s' H Hn Hok. unfold io_total in H.
  pose proof (Hf (world s)) as Hc. destruct (f (world s)) as [a w].
  inversion H; subst. repeat split; auto. intros name _. cbn in *. now rewrite Hc.
Qed.

Lemma own_bind_get {B : Type} (k : State -> M B) :
  (forall s0, collectionName s0 = n -> handle_ok s0 -> stable (only_own n) (k s0)) ->
  stable (only_own n) (bind get k).
Proof.
  intros Hk s r s' H Hn Hok. rewrite bind_get in H.
  exact (Hk s Hn Hok s r s' H Hn Hok).
Qed.

Lemma own_modify (f : State -> State) :
  (forall s, collectionName s = n -> handle_ok s ->
             collectionName (f s) = n /\ handle_ok (f s) /\ world (f s) = world s) ->
  stable (only_own n) (modify f).
Proof.
  intros Hf s r s' H Hn Hok. unfold modify in H. inversion H as [[Hr Hs']].
  destruct (Hf s Hn Hok) as (Hn' & Hok' & Hw). repeat split; auto.
  intros name _. now rewrite Hw.
Qed.

End Isolation.

Ltac solve_touches :=
  let w := fresh "w" in
  let a := fresh "a" in
  let w' := fresh "w'" in
  let H := fresh "H" in
  let name := fresh "name" in
  let Hname := fresh "Hname" in
  intros w a w' H name Hname;
  repeat match type of H with
         | context [match ?x with _ => _ end] => destruct x
         end;
  inversion H; subst; cbn;
  first [ reflexivity
        | apply lookup_delete_ne; congruence
        | apply lookup_insert_ne; congruence ].

Ltac solve_own_modify :=
  let s := fresh "s" in
  let Hn := fresh "Hn" in
  let Hok := fresh "Hok" in
  let vs := fresh "vs" in
  let Hvs := fresh "Hvs" in
  intros s Hn Hok; cbn; repeat split; try assumption;
  intros vs Hvs; cbn in Hvs;
  first [ discriminate Hvs
        | apply Hok; exact Hvs
        | inversion Hvs; subst; cbn; congruence ].

Ltac own_step n :=
  first
    [ apply (stable_ret (only_own n) (only_own_refl n))
    | apply (stable_throw (only_own n) (only_own_refl n))
    | match goal with
      | |- stable _ (bind get _) => apply (own_bind_get n); intros ? ? ?
      end
    | apply (stable_bind (only_own n) (only_own_trans n)); [|intros ?]
    | apply (stable_try_catch (only_own n) (only_own_trans n)); [|intros ?]
    | apply (own_io_perform n); solve_touches
    | apply (own_io_total n); intros; reflexivity
    | apply (own_modify n); solve_own_modify
    | match goal with
      | |- stable _ (match ?x with _ => _ end) => destruct x eqn:?
      | |- stable _ (if ?x then _ else _) => destruct x
      end ].

Section IsolationOfMethods.

Variable n : string.

Lemma own_testQdrantConnection : stable (only_own n) testQdrantConnection.
Proof. unfold testQdrantConnection, clusterStatus. repeat own_step n. Qed.

Lemma own_detectEmbeddingDimensions : stable (only_own n) detectEmbeddingDimensions.
Proof. unfold detectEmbeddingDimensions, embedQuery. repeat own_step n. Qed.

Lemma own_testCollectionQuery : stable (only_own n) testCollectionQuery.
Proof. unfold testCollectionQuery, query. repeat own_step n. Qed.

Lemma own_createCollectionWithDimensions (d : nat) :
  stable (only_own n) (createCollectionWithDimensions d).
Proof. unfold createCollectionWithDimensions, createCollection. repeat own_step n. Qed.

Lemma own_recreate (d : nat) : stable (only_own n) (recreate d).
Proof.
  unfold recreate, deleteCollection.
  apply (own_bind_get n); intros s0 Hn0 Hok0.
  apply (stable_bind (only_own n) (only_own_trans n)); [own_step n|intros _].
  apply own_createCollectionWithDimensions.
Qed.

Lemma own_initializeCollection : stable (only_own n) initializeCollection.
Proof.
  unfold initializeCollection.
  apply (stable_try_catch (only_own n) (only_own_trans n));
    [|intros ?; own_step n].
  apply (stable_bind (only_own n) (only_own_trans n));
    [apply own_testQdrantConnection|intros healthy].
  destruct healthy; cbn [negb]; [|own_step n].
  apply (stable_bind (only_own n) (only_own_trans n));
    [apply own_detectEmbeddingDimensions|intros d].
  apply (own_bind_get n); intros s0 Hn0 Hok0.
  apply (stable_bind (only_own n) (only_own_trans n));
    [unfold getCollections; own_step n|intros names].
  apply (stable_bind (only_own n) (only_own_trans n)); [|intros _; own_step n].
  destruct (bool_decide _); [|apply own_createCollectionWithDimensions].
  apply (stable_try_catch (only_own n) (only_own_trans n));
    [|intros ?; apply own_recreate].
  apply (stable_bind (only_own n) (only_own_trans n));
    [unfold getCollection; own_step n|intros info].
  destruct (bool_decide _); [|apply own_recreate].
  apply (stable_bind (only_own n) (only_own_trans n));
    [apply own_testCollectionQuery|intros ok].
  destruct ok; cbn [negb]; [own_step n|apply own_recreate].
Qed.

Lemma own_vectorStore_addDocuments (documents : list Document) :
  stable (only_own n) (vectorStore_addDocuments documents).
Proof.
  unfold vectorStore_addDocuments, addDocuments.
  apply (own_bind_get n); intros s0 Hn0 Hok0.
  destruct (vectorStore s0) as [vs|] eqn:Hvs; [|own_step n].
  pose proof (Hok0 vs Hvs) as Hname. rewrite Hn0 in Hname.
  own_step n.
Qed.

Lemma own_createRetrievalChain : stable (only_own n) createRetrievalChain.
Proof. unfold createRetrievalChain, createChain. repeat own_step n. Qed.

Lemma own_build_documents (base : gmap string MetaValue) (chunks : list string) :
  forall index, stable (only_own n) (build_documents base index chunks).
Proof.
  induction chunks as [|chunk rest IH]; intros index; cbn [build_documents].
  - own_step n.
  - unfold uuidv4, now_iso.
    do 2 (apply (stable_bind (only_own n) (only_own_trans n));
          [apply (own_io_total n); intros; reflexivity|intros ?]).
    apply (stable_bind (only_own n) (only_own_trans n)); [apply IH|intros ?].
    own_step n.
Qed.

Lemma own_addDocumentsWithRecovery (documents : list Document) :
  stable (only_own n) (addDocumentsWithRecovery documents).
Proof.
  unfold addDocumentsWithRecovery.
  apply (stable_try_catch (only_own n) (only_own_trans n));
    [apply own_vectorStore_addDocuments|intros e].
  destruct (error_message_includes e "dimension"); [|own_step n].
  do 2 (apply (stable_bind (only_own n) (only_own_trans n)); [own_step n|intros _]).
  apply (stable_bind (only_own n) (only_own_trans n));
    [apply own_initializeCollection|intros _].
  apply own_vectorStore_addDocuments.
Qed.

Lemma own_processText (text : string) (base : gmap string MetaValue) :
  stable (only_own n) (processText text base).
Proof.
  unfold processText, prepareDocuments.
  apply (stable_try_catch (only_own n) (only_own_trans n)); [|intros ?; own_step n].
  apply (stable_bind (only_own n) (only_own_trans n)).
  - apply (own_bind_get n); intros s0 Hn0 Hok0.
    apply (stable_bind (only_own n) (only_own_trans n)).
    + destruct (vectorStore s0); [own_step n|apply own_initializeCollection].
    + intros _. destruct (is_blank text); [own_step n|].
      apply (stable_bind (only_own n) (only_own_trans n));
        [unfold splitText; own_step n|intros chunks].
      apply own_build_documents.
  - intros documents.
    apply (stable_bind (only_own n) (only_own_trans n));
      [apply own_addDocumentsWithRecovery|intros _].
    apply own_createRetrievalChain.
Qed.

Lemma own_clearAll : stable (only_own n) clearAll.
Proof.
  unfold clearAll, clearDocuments, deleteCollection.
  apply (stable_try_catch (only_own n) (only_own_trans n)); [|intros ?; own_step n].
  apply (stable_bind (only_own n) (only_own_trans n)); [|intros _; own_step n].
  apply (stable_try_catch (only_own n) (only_own_trans n)); [|intros ?; own_step n].
  apply (own_bind_get n); intros s0 Hn0 Hok0.
  apply (stable_bind (only_own n) (only_own_trans n)).
  - destruct (vectorStore s0); own_step n.
  - intros _. repeat own_step n.
Qed.

Lemma own_initialize : stable (only_own n) initialize.
Proof.
  unfold initialize.
  apply (own_bind_get n); intros s0 Hn0 Hok0.
  destruct (negb (isInitialized s0)); [|own_step n].
  apply (stable_try_catch (only_own n) (only_own_trans n)); [|intros ?; own_step n].
  apply (stable_bind (only_own n) (only_own_trans n));
    [apply own_initializeCollection|intros _; own_step n].
Qed.

Lemma own_queryDocument (question : string) :
  stable (only_own n) (queryDocument question).
Proof.
  unfold queryDocument.
  apply (stable_try_catch (only_own n) (only_own_trans n)); [|intros ?; own_step n].
  apply (stable_bind (only_own n) (only_own_trans n));
    [apply own_initialize|intros _].
  apply (stable_bind (only_own n) (only_own_trans n));
    [apply own_untouched, untouched_askQuestion|intros ?; own_step n].
Qed.

Lemma own_streamQuery (question : string) :
  stable (only_own n) (streamQuery question).
Proof.
  unfold streamQuery.
  apply (stable_try_catch (only_own n) (only_own_trans n)); [|intros ?; own_step n].
  apply (stable_bind (only_own n) (only_own_trans n));
    [apply own_initialize|intros _].
  apply (stable_bind (only_own n) (only_own_trans n));
    [apply own_untouched, untouched_askQuestionStream|intros ?; own_step n].
Qed.

Lemma own_uploadAndProcess (pdf_parse : option (string -> exn + PdfData))
    (decode : string -> string) (file : File) :
  stable (only_own n) (uploadAndProcess pdf_parse decode file).
Proof.
  unfold uploadAndProcess.
  apply (stable_try_catch (only_own n) (only_own_trans n)); [|intros ?; own_step n].
  apply (stable_bind (only_own n) (only_own_trans n));
    [apply own_initialize|intros _].
  apply (stable_bind (only_own n) (only_own_trans n)).
  - unfold processFile, processPDF, loadPdfParse.
    apply (stable_try_catch (only_own n) (only_own_trans n)); [|intros ?; own_step n].
    destruct (String.eqb _ _).
    + apply (stable_try_catch (only_own n) (only_own_trans n));
        [|intros ?; own_step n].
      apply (stable_bind (only_own n) (only_own_trans n));
        [destruct pdf_parse; own_step n|intros parse].
      apply (stable_bind (only_own n) (only_own_trans n));
        [destruct (parse _); own_step n|intros data].
      destruct (is_blank _); [own_step n|apply own_processText].
    + destruct (_ || _); [apply own_processText|own_step n].
  - intros _.
    apply (stable_bind (only_own n) (only_own_trans n));
      [apply own_untouched, untouched_getCollectionStats|intros ?; own_step n].
Qed.

End IsolationOfMethods.

(** X25.  The service keeps to its own collection.  Whatever the fault
    script and however the call ends, no method of the service changes a
    collection of another name: ingestion (with its self-healing deletion
    and re-creation), initialization, clearing, queries and uploads create,
    delete and fill the collection of the service only; and the store
    handle, when bound, stays a handle on that collection. *)
Theorem service_keeps_to_its_collection (s : State) (text question : string)
    (base : gmap string MetaValue) (pdf_parse : option (string -> exn + PdfData))
    (decode : string -> string) (file : File) :
  handle_ok s ->
  kept_to_own s (snd (initialize s))
  /\ kept_to_own s (snd (processText text base s))
  /\ kept_to_own s (snd (uploadAndProcess pdf_parse decode file s))
  /\ kept_to_own s (snd (queryDocument question s))
  /\ kept_to_own s (snd (streamQuery question s))
  /\ kept_to_own s (snd (clearAll s)).
Proof.
  intros Hok.
  assert (Hkept : forall (A : Type) (m : M A),
             stable (only_own (collectionName s)) m -> kept_to_own s (snd (m s))).
  { intros A m Hm. destruct (m s) as [r s'] eqn:Hrun.
    destruct (Hm s r s' Hrun eq_refl Hok) as (_ & Hok' & Hk).
    split; assumption. }
  exact (conj (Hkept _ initialize (own_initialize _))
          (conj (Hkept _ (processText text base) (own_processText _ _ _))
             (conj (Hkept _ (uploadAndProcess pdf_parse decode file)
                      (own_uploadAndProcess _ _ _ _))
                (conj (Hkept _ (queryDocument question) (own_queryDocument _ _))
                   (conj (Hkept _ (streamQuery question) (own_streamQuery _ _))
                      (Hkept _ clearAll (own_clearAll _))))))).
Qed.

Lemma service_keeps_to_its_collection_witness :
  kept_to_own (ingested (demo_world stale_store []))
    (snd (initialize (ingested (demo_world stale_store []))))
  /\ kept_to_own (ingested (demo_world stale_store []))
       (snd (processText "Paris is the capital of France." ∅
               (ingested (demo_world stale_store []))))
  /\ kept_to_own (ingested (demo_world stale_store []))
       (snd (uploadAndProcess None (fun bytes => bytes)
               (mkFile "notes.txt" "text/plain" "Paris is the capital of France.")
               (ingested (demo_world stale_store []))))
  /\ kept_to_own (ingested (demo_world stale_store []))
       (snd (queryDocument "What is the capital of France?"
               (ingested (demo_world stale_store []))))
  /\ kept_to_own (ingested (demo_world stale_store []))
       (snd (streamQuery "What is the capital of France?"
               (ingested (demo_world stale_store []))))
  /\ kept_to_own (ingested (demo_world stale_store []))
       (snd (clearAll (ingested (demo_world stale_store [])))).
Proof.
  apply (service_keeps_to_its_collection (ingested (demo_world stale_store []))).
  intros vs Hvs. inversion Hvs. reflexivity.
Defined.

(** ** The routes *)

Section Routes.

Lemma try_catch_ret_total {A : Type} (body : M A) (h : exn -> A) (s : State) :
  exists a s', try_catch body (fun e => ret (h e)) s = (inr a, s').
Proof. unfold try_catch, ret. destruct (body s) as [[e|a] s1]; eauto. Qed.

Lemma getRAGService_serviceable (p : Process) :
  serviceable p ->
  exists svc p1,
    getRAGService p = (inr svc, p1)
    /\ outside p1 = outside p
    /\ sharedRAGService p1 = Some svc
    /\ (sharedRAGService p = None -> svc = new_service)
    /\ (forall svc0, sharedRAGService p = Some svc0 -> svc = svc0).
Proof.
  unfold serviceable, key_configured, getRAGService. intros Hp.
  destruct (sharedRAGService p) as [svc|] eqn:Hshared.
  - exists svc, p. repeat split; auto; congruence.
  - destruct Hp as [Hp|[(c & key & Hkey) Hclients]]; [contradiction|].
    rewrite Hkey, Hclients. cbn.
    eexists _, _. split; [reflexivity|]. repeat split; auto; discriminate.
Qed.

(** Without an instance [getRAGService] throws when the key is missing or
    empty, and when a client does not construct; the process is left as it
    was. *)
Lemma getRAGService_unreachable (p : Process) :
  sharedRAGService p = None ->
  (~ key_configured p ->
   getRAGService p = (inl (Error "GOOGLE_API_KEY not configured"), p))
  /\ (forall e, key_configured p -> clients p = Some e ->
        getRAGService p
        = (inl (Error ("Failed to initialize RAG System: " +:+ exn_toString e)), p)).
Proof.
  unfold key_configured, getRAGService. intros ->. split.
  - intros Hkey. destruct (GOOGLE_API_KEY p) as [[|c key]|]; try reflexivity.
    exfalso. eauto.
  - intros e (c & key & ->) ->. reflexivity.
Qed.

(** [clearAll] on an instance without a store handle. *)
Lemma clearAll_unbound (s : State) :
  vectorStore s = None ->
  clearAll s
  = (inr tt, mkState (collectionName s) None None None false (world s)).
Proof.
  intros Hvs. unfold clearAll, clearDocuments, try_catch, bind, get, modify, ret.
  rewrite Hvs. reflexivity.
Qed.

End Routes.

(** X26.  The clear route.  It answers 200 or 500, and after a 200 the
    shared instance is dropped, so that the next request builds a new one.
    When [getRAGService] has an instance to return (one exists, or the key
    is configured and the clients construct) and that instance has no
    store handle, as right after a restart of the process, the route
    answers 200 with no call made: the world outside, the documents of the
    collection included, is what it was.  When the instance has a handle
    and the route answers 200, the collection of the instance is gone.
    When there is no instance and none can be built, because the key is
    missing or because a client does not construct, the route answers 500
    with the message of that error and the process is left as it was. *)
Theorem clear_POST_outcomes (p : Process) :
  (status (fst (clear_POST p)) = 200%nat \/ status (fst (clear_POST p)) = 500%nat)
  /\ (status (fst (clear_POST p)) = 200%nat ->
      sharedRAGService (snd (clear_POST p)) = None)
  /\ (serviceable p ->
      (forall svc, sharedRAGService p = Some svc -> service_vectorStore svc = None) ->
      fst (clear_POST p) = mkResponse 200 Cleared
      /\ outside (snd (clear_POST p)) = outside p)
  /\ (forall svc vs,
        sharedRAGService p = Some svc -> service_vectorStore svc = Some vs ->
        status (fst (clear_POST p)) = 200%nat ->
        collections (outside (snd (clear_POST p))) !! service_collectionName svc = None)
  /\ (sharedRAGService p = None -> ~ key_configured p ->
      clear_POST p
      = (mkResponse 500
           (Failure "Failed to clear documents: GOOGLE_API_KEY not configured"), p))
  /\ (forall e,
        sharedRAGService p = None -> key_configured p -> clients p = Some e ->
        clear_POST p
        = (mkResponse 500
             (Failure ("Failed to clear documents: Failed to initialize RAG System: "
                       +:+ exn_toString e)), p)).
Proof.
  split; [|split; [|split; [|split; [|split]]]].
  - unfold clear_POST. destruct (getRAGService p) as [[e|svc] p1]; [auto|].
    destruct (invoke clearAll svc p1) as [[e|[]] p2]; auto.
  - unfold clear_POST. destruct (getRAGService p) as [[e|svc] p1]; [discriminate|].
    destruct (invoke clearAll svc p1) as [[e|[]] p2]; [discriminate|reflexivity].
  - intros Hp Hunbound.
    destruct (getRAGService_serviceable p Hp) as (svc & p1 & Hget & Hout & _ & Hnew & Hold).
    assert (Hvs : service_vectorStore svc = None).
    { destruct (sharedRAGService p) as [svc0|] eqn:Hshared.
      - rewrite (Hold svc0 eq_refl). now apply Hunbound.
      - now rewrite (Hnew eq_refl). }
    unfold clear_POST, invoke. rewrite Hget.
    rewrite (clearAll_unbound (in_world svc (outside p1))) by exact Hvs.
    cbn. auto.
  - intros svc vs Hshared Hvs.
    unfold clear_POST, getRAGService, invoke. rewrite Hshared.
    destruct (clearAll (in_world svc (outside p))) as [[e|[]] s'] eqn:Hclear;
      [discriminate|]. intros _. cbn.
    apply clearAll_inr in Hclear as (_ & Hc & _); [|cbn; congruence].
    rewrite Hc. cbn. apply lookup_delete_eq.
  - intros Hnone Hkey. unfold clear_POST.
    rewrite (proj1 (getRAGService_unreachable p Hnone) Hkey). reflexivity.
  - intros e Hnone Hkey Hclients. unfold clear_POST.
    rewrite (proj2 (getRAGService_unreachable p Hnone) e Hkey Hclients). reflexivity.
Qed.

(** The clear route right after a restart, over a store that holds the
    documents of the previous process: it answers 200 and the documents
    are still there. *)
Example clear_POST_after_restart :
  fst (clear_POST (mkProcess (Some "key") None None (demo_world full_store [])))
  = mkResponse 200 Cleared
  /\ collections
       (outside (snd (clear_POST
                        (mkProcess (Some "key") None None (demo_world full_store [])))))
       !! "FINAL_RAG_COLLECTIONS"
     = Some (mkCollection (Some 768) [demo_doc]).
Proof. vm_compute. split; reflexivity. Qed.

(** The clear route when the store client does not construct. *)
Example clear_POST_without_clients :
  fst (clear_POST (mkProcess (Some "key") (Some (Error "Invalid URL")) None
                     (demo_world full_store [])))
  = mkResponse 500
      (Failure "Failed to clear documents: Failed to initialize RAG System: Error: Invalid URL").
Proof. vm_compute. reflexivity. Qed.

(** X27.  What the query, stats and upload routes answer when
    [getRAGService] has an instance to return (one exists, or the key is
    configured and the clients construct): the status is decided by the
    request alone, never by what happens in the service.  The query route
    answers 500 to a body that does not parse and to the body [null] (the
    destructuring of [question] throws), 400 to a value whose [question] is
    missing, not a string, or blank, and 200 to every other body.  The
    upload route answers 500 to a form that cannot be read and to a
    non-empty text field named [file] (it has no [name], and [endsWith]
    throws), 400 to a missing or empty field and to a file of an
    unsupported type, and 200 to every other file.  The stats route
    answers 200.  So a failed query, a failed upload and failed statistics
    are reported in the body of a 200 response; and whenever the status is
    not 200, nothing was asked of the store. *)
Theorem routes_status (pdf_parse : option (string -> exn + PdfData))
    (decode : string -> string) (p : Process) :
  serviceable p ->
  (forall request,
     status (fst (query_POST request p))
     = match request with
       | inl _ | inr BodyNull => 500%nat
       | inr (BodyValue None) => 400%nat
       | inr (BodyValue (Some question)) =>
           if is_blank question then 400%nat else 200%nat
       end)
  /\ status (fst (stats_GET p)) = 200%nat
  /\ (forall form,
        status (fst (upload_POST pdf_parse decode form p))
        = match form with
          | inl _ | inr (Some (FormString (String _ _))) => 500%nat
          | inr None | inr (Some (FormString EmptyString)) => 400%nat
          | inr (Some (FormFile file)) =>
              if upload_accepts file then 200%nat else 400%nat
          end)
  /\ (forall request,
        status (fst (query_POST request p)) <> 200%nat ->
        outside (snd (query_POST request p)) = outside p)
  /\ (forall form,
        status (fst (upload_POST pdf_parse decode form p)) <> 200%nat ->
        outside (snd (upload_POST pdf_parse decode form p)) = outside p).
Proof.
  intros Hp.
  destruct (getRAGService_serviceable p Hp) as (svc & p1 & Hget & Hout & _).
  assert (Hquery : forall question,
             exists r s', queryDocument question (in_world svc (outside p1)) = (inr r, s'))
    by (intros question; apply try_catch_ret_total).
  assert (Hstats : exists r s', getStats (in_world svc (outside p1)) = (inr r, s'))
    by apply try_catch_ret_total.
  assert (Hupload : forall file,
             exists r s', uploadAndProcess pdf_parse decode file
                            (in_world svc (outside p1)) = (inr r, s'))
    by (intros file; apply try_catch_ret_total).
  split; [|split; [|split; [|split]]].
  - intros [e|[|[text|]]]; unfold query_POST; rewrite Hget; try reflexivity.
    destruct (is_blank text); [reflexivity|].
    unfold invoke. destruct (Hquery text) as (r & s' & ->). reflexivity.
  - unfold stats_GET, invoke. rewrite Hget.
    destruct Hstats as (r & s' & ->). reflexivity.
  - intros [e|[[file|[|c value]]|]]; unfold upload_POST; rewrite Hget;
      try reflexivity.
    destruct (upload_accepts file); [|reflexivity]. cbn [negb].
    unfold invoke. destruct (Hupload file) as (r & s' & ->). reflexivity.
  - intros [e|[|[text|]]]; unfold query_POST; rewrite Hget;
      try (intros _; exact Hout).
    destruct (is_blank text); [intros _; exact Hout|].
    unfold invoke. destruct (Hquery text) as (r & s' & ->).
    intros Habs. now contradiction Habs.
  - intros [e|[[file|[|c value]]|]]; unfold upload_POST; rewrite Hget;
      try (intros _; exact Hout).
    destruct (upload_accepts file); cbn [negb]; [|intros _; exact Hout].
    unfold invoke. destruct (Hupload file) as (r & s' & ->).
    intros Habs. now contradiction Habs.
Qed.

Lemma routes_status_witness :
  (forall request,
     status (fst (query_POST request
                    (mkProcess (Some "key") None None (demo_world full_store []))))
     = match request with
       | inl _ | inr BodyNull => 500%nat
       | inr (BodyValue None) => 400%nat
       | inr (BodyValue (Some question)) =>
           if is_blank question then 400%nat else 200%nat
       end)
  /\ status (fst (stats_GET (mkProcess (Some "key") None None (demo_world full_store []))))
     = 200%nat
  /\ (forall form,
        status (fst (upload_POST None (fun bytes => bytes) form
                       (mkProcess (Some "key") None None (demo_world full_store []))))
        = match form with
          | inl _ | inr (Some (FormString (String _ _))) => 500%nat
          | inr None | inr (Some (FormString EmptyString)) => 400%nat
          | inr (Some (FormFile file)) =>
              if upload_accepts file then 200%nat else 400%nat
          end)
  /\ (forall request,
        status (fst (query_POST request
                       (mkProcess (Some "key") None None (demo_world full_store []))))
        <> 200%nat ->
        outside (snd (query_POST request
                        (mkProcess (Some "key") None None (demo_world full_store []))))
        = outside (mkProcess (Some "key") None None (demo_world full_store [])))
  /\ (forall form,
        status (fst (upload_POST None (fun bytes => bytes) form
                       (mkProcess (Some "key") None None (demo_world full_store []))))
        <> 200%nat ->
        outside (snd (upload_POST None (fun bytes => bytes) form
                        (mkProcess (Some "key") None None (demo_world full_store []))))
        = outside (mkProcess (Some "key") None None (demo_world full_store []))).
Proof.
  apply (routes_status None (fun bytes => bytes)
           (mkProcess (Some "key") None None (demo_world full_store []))).
  right. split; [|reflexivity]. exists "k"%char, "ey". reflexivity.
Defined.

(** The two requests that are answered 500 although the service is
    reached: the body [null], and a text field named [file]. *)
Example routes_malformed_requests :
  fst (query_POST (inr BodyNull)
         (mkProcess (Some "key") None None (demo_world full_store [])))
  = mkResponse 500
      (Failure "Failed to process query: Cannot destructure property 'question' of 'body' as it is null.")
  /\ fst (upload_POST None (fun bytes => bytes) (inr (Some (FormString "notes")))
            (mkProcess (Some "key") None None (demo_world full_store [])))
     = mkResponse 500
         (Failure "Failed to upload file: Cannot read properties of undefined (reading 'endsWith')").
Proof. split; vm_compute; reflexivity. Qed.
